(** * salmon: linear-regression engine ([salmon/model.py])

    A shallow embedding of [LinearModel] and of the categorical branch of
    its term encoder, with the properties of the specification stated and
    settled against it.  Further properties of the code follow them: of the
    estimates of a fit, of the queries on a fitted model, of the encoder's
    registry, and of the parts of the plotting methods that compute.

    Numbers.  The program computes with IEEE doubles through numpy and
    pandas.  The embedding idealises them as real numbers ([R]): rounding,
    [nan] and [inf] are not represented (division by zero and the square
    root of a negative number take Rocq's conventional value [0]), so the
    properties of the standard errors, t statistics and p-values are stated
    for fits with positive residual degrees of freedom, and where a standard
    error is not zero.  Python integers are [Z].

    External libraries.  numpy, pandas and scipy are not part of the
    repository.  [numpy.linalg.solve] is a parameter of [_fit]; where a
    property is about the numbers it is taken to be Gaussian elimination in
    exact arithmetic (a singular matrix raises [LinAlgError]); pandas frames
    are lists of labelled columns; the scipy distribution functions
    ([stats.t.cdf], [stats.t.ppf], [stats.f.ppf]) and the expression
    collaborator ([salmon/expression.py]) are parameters. *)

From Stdlib Require Import Reals Lra Lia ZArith String List.
From stdpp Require Import gmap strings list fin_maps sorting.

(** ** Python results: a value or a raised exception *)

Inductive exn : Type :=
  | LinAlgError                 (* numpy.linalg.LinAlgError: singular matrix *)
  | NameError (name : string)   (* use of an unbound local *)
  | TypeError                   (* e.g. unhashable key, None subscripted *)
  | ValueError                  (* shape mismatch, labels not aligned *)
  | KeyError (label : string)
  | IndexError
  | AttributeError              (* attribute of None *)
  | Exception (msg : string).   (* raise Exception("...") *)

Inductive result (A : Type) : Type :=
  | Return (a : A)
  | Raise (e : exn).
Arguments Return {A} a.
Arguments Raise {A} e.

Definition is_Return {A} (r : result A) : Prop :=
  match r with Return _ => True | Raise _ => False end.

(** ** Vectors and matrices over the reals *)

Module LinAlg.
Local Open Scope R_scope.

Abbreviation vec := (list R) (only parsing).
Abbreviation matrix := (list (list R)) (only parsing).   (* row-major *)

Fixpoint dot (u v : vec) : R :=
  match u, v with
  | a :: u', b :: v' => a * b + dot u' v'
  | _, _ => 0
  end.

Definition total (u : vec) : R := fold_right Rplus 0 u.
Definition scale (a : R) (u : vec) : vec := map (Rmult a) u.
Definition vadd (u v : vec) : vec := zip_with Rplus u v.
Definition vsub (u v : vec) : vec := zip_with Rminus u v.
Definition zeros (n : nat) : vec := repeat 0 n.
Definition ones (n : nat) : vec := repeat 1 n.

(** [mulv n cols v]: the product of the [n]-row matrix whose columns are
    [cols] with the coefficient vector [v]. *)
Fixpoint mulv (n : nat) (cols : list vec) (v : vec) : vec :=
  match cols, v with
  | c :: cols', b :: v' => vadd (scale b c) (mulv n cols' v')
  | _, _ => zeros n
  end.

(** [X.T @ X] and [X.T @ y] for a matrix given by its columns. *)
Definition gram (cols : list vec) : matrix :=
  map (fun ci => map (fun cj => dot ci cj) cols) cols.
Definition xty (cols : list vec) (y : vec) : vec :=
  map (fun ci => dot ci y) cols.

Definition identity (k : nat) : matrix :=
  map (fun i => map (fun j => if Nat.eqb i j then 1 else 0) (seq 0 k)) (seq 0 k).
Definition mscale (a : R) (m : matrix) : matrix := map (scale a) m.
Definition transpose (ncols : nat) (m : matrix) : matrix :=
  map (fun j => map (fun row => nth j row 0) m) (seq 0 ncols).
Definition diagonal (m : matrix) : vec :=
  map (fun i => nth i (nth i m []) 0) (seq 0 (length m)).

(** *** Gaussian elimination

    A system is a list of equations [(row, rhs)].  [find_pivot] takes out
    the first equation whose leading coefficient is not zero. *)

Abbreviation equation := (list R * R)%type (only parsing).

Fixpoint find_pivot (rows : list equation)
  : option ((R * list R * R) * list equation) :=
  match rows with
  | [] => None
  | ([], _) :: _ => None
  | (a :: r, b) :: rest =>
      if Req_dec_T a 0 then
        match find_pivot rest with
        | Some (p, others) => Some (p, (a :: r, b) :: others)
        | None => None
        end
      else Some ((a, r, b), rest)
  end.

Definition eliminate (pr : list R) (pb : R) (eq : equation) : equation :=
  let h := hd 0 (fst eq) in
  (vsub (tl (fst eq)) (scale h pr), snd eq - h * pb).

Fixpoint gauss (k : nat) (rows : list equation) : option vec :=
  match k with
  | O => Some []
  | S k' =>
      match find_pivot rows with
      | None => None
      | Some ((a, pr, pb), others) =>
          let pr' := map (fun x => x / a) pr in
          let pb' := pb / a in
          match gauss k' (map (eliminate pr' pb') others) with
          | None => None
          | Some xs => Some ((pb' - dot pr' xs) :: xs)
          end
      end
  end.

(** [numpy.linalg.solve(a, b)] with a vector right-hand side. *)
Definition solve_vec (a : matrix) (b : vec) : result vec :=
  match gauss (length a) (zip a b) with
  | Some x => Return x
  | None => Raise LinAlgError
  end.

(** [numpy.linalg.solve(a, b)] with a matrix right-hand side of [m]
    columns: one system per column of [b]. *)
Fixpoint solve_columns (a : matrix) (bcols : list vec) : result (list vec) :=
  match bcols with
  | [] => Return []
  | b :: bs =>
      match solve_vec a b with
      | Raise e => Raise e
      | Return x =>
          match solve_columns a bs with
          | Raise e => Raise e
          | Return xs => Return (x :: xs)
          end
      end
  end.

Definition solve (a : matrix) (m : nat) (b : matrix) : result matrix :=
  match solve_columns a (transpose m b) with
  | Raise e => Raise e
  | Return xs => Return (transpose (length a) xs)
  end.

(** What a solver has to deliver. *)
Definition sol (rows : list equation) (x : vec) : Prop :=
  Forall (fun eq => dot (fst eq) x = snd eq) rows.
Definition wf_rows (k : nat) (rows : list equation) : Prop :=
  Forall (fun eq => length (fst eq) = k) rows.
Definition in_kernel (rows : list equation) (v : vec) : Prop :=
  Forall (fun eq => dot (fst eq) v = 0) rows.
Definition nonsingular (k : nat) (rows : list equation) : Prop :=
  forall v, length v = k -> in_kernel rows v -> v = zeros k.

(** The same for a square matrix: its rows have its length, and only the
    zero vector is sent to zero. *)
Definition square (a : matrix) : Prop :=
  Forall (fun r => length r = length a) a.
Definition invertible (a : matrix) : Prop :=
  forall v, length v = length a -> Forall (fun r => dot r v = 0) a ->
            v = zeros (length a).

End LinAlg.

(** ** pandas frames

    A [DataFrame] is a list of labelled float columns over an index of
    [index_len] rows; a one-column frame or [Series] with a name is a
    labelled column; a [Series] indexed by labels is a list of labelled
    numbers.  Labels are assumed distinct, as pandas assumes for the
    operations used here. *)

Module Pandas.
Import LinAlg.
Local Open Scope R_scope.

Record DataFrame : Type := mkDataFrame {
  index_len : nat;                      (* X.shape[0] *)
  cols : list (string * list R)         (* label and values, left to right *)
}.

Definition labels (df : DataFrame) : list string := map fst (cols df).
Definition values (df : DataFrame) : list (list R) := map snd (cols df).
Definition shape0 (df : DataFrame) : Z := Z.of_nat (index_len df).
Definition shape1 (df : DataFrame) : Z := Z.of_nat (length (cols df)).

(** Every column spans the index. *)
Definition wf_frame (df : DataFrame) : Prop :=
  Forall (fun c => length (snd c) = index_len df) (cols df).

(** [Series.mean()] and [DataFrame.mean()] (column-wise). *)
Definition mean (c : list R) : R := total c / INR (length c).
Definition frame_mean (df : DataFrame) : list (string * R) :=
  map (fun c => (fst c, mean (snd c))) (cols df).

(** [u - a] and [u + a] for a column [u] and a number [a]. *)
Definition shift (a : R) (u : list R) : list R := map (fun x => x - a) u.
Definition unshift (a : R) (u : list R) : list R := map (fun x => x + a) u.

(** [c - c.mean()] *)
Definition center (c : list R) : list R := shift (mean c) c.

(** [X - X_means] and [X + X_means]: a frame and a series labelled by the
    frame's columns, combined column by column. *)
Definition frame_sub (df : DataFrame) (s : list (string * R)) : DataFrame :=
  mkDataFrame (index_len df)
    (zip_with (fun c m => (fst c, shift (snd m) (snd c))) (cols df) s).
Definition frame_add (df : DataFrame) (s : list (string * R)) : DataFrame :=
  mkDataFrame (index_len df)
    (zip_with (fun c m => (fst c, unshift (snd m) (snd c))) (cols df) s).

(** [s.loc[label] = v] on a labelled series and [df[label] = column] on a
    frame: overwrite the entry with that label, or append a new one. *)
Fixpoint loc_set {A} (label : string) (v : A) (s : list (string * A))
  : list (string * A) :=
  match s with
  | [] => [(label, v)]
  | (l, x) :: s' =>
      if String.eqb l label then (l, v) :: s' else (l, x) :: loc_set label v s'
  end.

Definition setitem (df : DataFrame) (label : string) (column : list R)
  : DataFrame :=
  mkDataFrame
    (match cols df with [] => length column | _ => index_len df end)
    (loc_set label column (cols df)).

(** [df[label] = 1]: a scalar is broadcast over the index. *)
Definition setitem_scalar (df : DataFrame) (label : string) (x : R)
  : DataFrame :=
  mkDataFrame (index_len df) (loc_set label (repeat x (index_len df)) (cols df)).

Fixpoint lookup_label {A} (label : string) (s : list (string * A)) : option A :=
  match s with
  | [] => None
  | (l, x) :: s' => if String.eqb l label then Some x else lookup_label label s'
  end.

(** The labelled entry made for [l]. *)
Definition entry {A} (f : string -> string) (g : string -> A) (l : string)
  : string * A := (f l, g l).

Definition mem_label (label : string) (ls : list string) : bool :=
  existsb (String.eqb label) ls.

(** [reindex ls s]: the entries of [s] in the order of the labels [ls]. *)
Fixpoint reindex {A} (ls : list string) (s : list (string * A))
  : option (list A) :=
  match ls with
  | [] => Some []
  | l :: ls' =>
      match lookup_label l s, reindex ls' s with
      | Some x, Some xs => Some (x :: xs)
      | _, _ => None
      end
  end.

(** The alignment test of [DataFrame.dot]: the labels on both sides are the
    same set. *)
Definition aligned (l1 l2 : list string) : bool :=
  forallb (fun l => mem_label l l2) l1 && forallb (fun l => mem_label l l1) l2.

(** [X.dot(b)] for a frame [X] and a one-column frame [b] indexed by the
    columns of [X], already summed over its single column
    ([.sum(axis = 1)]). *)
Definition frame_dot (X : DataFrame) (b : list (string * R)) : result (list R) :=
  if aligned (labels X) (map fst b) then
    match reindex (map fst b) (cols X) with
    | Some xcols => Return (mulv (index_len X) xcols (map snd b))
    | None => Raise ValueError
    end
  else Raise ValueError.

(** [(X.dot(V) * X).sum(axis = 1)]: the quadratic form [x V x^T] of every
    row [x] of [X], for a square frame [V] labelled on both axes by [vl]. *)
Definition hadamard (u v : list R) : list R := zip_with Rmult u v.

Definition quad_form (X : DataFrame) (vl : list string) (V : list (list R))
  : result (list R) :=
  if aligned (labels X) vl then
    match reindex vl (cols X) with
    | Some xcols =>
        Return (fold_right vadd (zeros (index_len X))
                  (zip_with (fun vcol xb => hadamard (mulv (index_len X) xcols vcol) xb)
                     (transpose (length vl) V) xcols))
    | None => Raise ValueError
    end
  else Raise ValueError.

(** Keys of [DataFrame.__getitem__]: a column label, or the tuple
    [(slice(None), i)] written [df[:, i]]. *)
Inductive key : Type :=
  | KLabel (label : string)
  | KSliceInt (i : Z).

(** [df[key]] on a one-column frame: a label selects the column; a tuple
    holding a slice is not a column label and is rejected (unhashable
    key). *)
Definition getitem (df : string * list R) (k : key) : result (list R) :=
  match k with
  | KLabel l => if String.eqb (fst df) l then Return (snd df) else Raise (KeyError l)
  | KSliceInt _ => Raise TypeError
  end.

(** [df.iloc[:, 0]] on a one-column frame. *)
Definition iloc_col0 (df : string * list R) : list R := snd df.

(** [(u ** 2).sum()] *)
Definition sum_sq (u : list R) : R := total (map (fun x => x ^ 2) u).

End Pandas.

(** ** The model object

    The expression collaborator of [salmon/expression.py] and the scipy
    distribution functions are not in this file of the repository; the
    model takes them as parameters. *)

Abbreviation loc := positive.   (* the identity of a Python list object *)

(** The expression collaborator: [copy], [interpret], [evaluate] on the
    explanatory expression (a frame of numeric columns), [evaluate] on
    the response, which [Identity] collapses into a single named column,
    and [str]. *)
Record Collaborator : Type := mkCollaborator {
  Expr : Type;
  Data : Type;
  copy : Expr -> Expr;
  interpret : Expr -> Data -> Expr;
  evaluate : Expr -> Data -> bool -> result Pandas.DataFrame;
  evaluate_response : Expr -> Data -> result (string * list R);
  str : Expr -> string
}.

(** [scipy.stats]: [t.cdf(x, df)], [t.ppf(q, df)], [f.ppf(q, dfn, dfd)]. *)
Record Scipy : Type := mkScipy {
  t_cdf : R -> Z -> R;
  t_ppf : R -> Z -> R;
  f_ppf : R -> Z -> Z -> R
}.

(** [numpy.linalg.solve(a, b)], with a vector and with a matrix right-hand
    side (of [m] columns).  On which matrices the library routine raises
    [LinAlgError] depends on its floating-point pivots: it can return on a
    matrix that is singular over the reals and raise on one that is not.
    What [_fit] does around the two calls is therefore stated for any
    solver; what the numbers are is stated for [exact_numpy], elimination
    over the reals. *)
Record Numpy : Type := mkNumpy {
  linalg_solve_vec : list (list R) -> list R -> result (list R);
  linalg_solve : list (list R) -> nat -> list (list R) -> result (list (list R))
}.

Definition exact_numpy : Numpy :=
  {| linalg_solve_vec := LinAlg.solve_vec; linalg_solve := LinAlg.solve |}.

Module Model.
Import LinAlg Pandas.
Local Open Scope R_scope.

Section LinearModel.
Context (C : Collaborator) (Sci : Scipy).

Record LinearModel : Type := mkLinearModel {
  given_ex : Expr C;
  given_re : Expr C;
  intercept : bool;
  ex : option (Expr C);
  re : option (Expr C);
  bhat : option (list (string * R));
  fitted : option (list R);
  residuals : option (list R);
  std_err_est : option R;
  std_err_vars : option (list (string * R));
  var : option (list string * list (list R));
  t_vals : option (list (string * R));
  p_vals : option (list (string * R));
  training_data : option (Data C);
  training_x : option DataFrame;
  training_y : option (string * list R);
  training_x_means : option (list (string * R));
  training_y_mean : option R;
  categorical_levels : gmap string loc
}.

(** Attribute assignment [self.f = v]. *)
Definition set_ex (v : option (Expr C)) (self : LinearModel)
  : LinearModel :=
  mkLinearModel (given_ex self) (given_re self) (intercept self) v (re self)
    (bhat self) (fitted self) (residuals self) (std_err_est self)
    (std_err_vars self) (var self) (t_vals self) (p_vals self)
    (training_data self) (training_x self) (training_y self)
    (training_x_means self) (training_y_mean self) (categorical_levels self).
Definition set_re (v : option (Expr C)) (self : LinearModel)
  : LinearModel :=
  mkLinearModel (given_ex self) (given_re self) (intercept self) (ex self) v
    (bhat self) (fitted self) (residuals self) (std_err_est self)
    (std_err_vars self) (var self) (t_vals self) (p_vals self)
    (training_data self) (training_x self) (training_y self)
    (training_x_means self) (training_y_mean self) (categorical_levels self).
Definition set_bhat (v : option (list (string * R))) (self : LinearModel)
  : LinearModel :=
  mkLinearModel (given_ex self) (given_re self) (intercept self) (ex self)
    (re self) v (fitted self) (residuals self) (std_err_est self)
    (std_err_vars self) (var self) (t_vals self) (p_vals self)
    (training_data self) (training_x self) (training_y self)
    (training_x_means self) (training_y_mean self) (categorical_levels self).
Definition set_fitted (v : option (list R)) (self : LinearModel)
  : LinearModel :=
  mkLinearModel (given_ex self) (given_re self) (intercept self) (ex self)
    (re self) (bhat self) v (residuals self) (std_err_est self)
    (std_err_vars self) (var self) (t_vals self) (p_vals self)
    (training_data self) (training_x self) (training_y self)
    (training_x_means self) (training_y_mean self) (categorical_levels self).
Definition set_residuals (v : option (list R)) (self : LinearModel)
  : LinearModel :=
  mkLinearModel (given_ex self) (given_re self) (intercept self) (ex self)
    (re self) (bhat self) (fitted self) v (std_err_est self)
    (std_err_vars self) (var self) (t_vals self) (p_vals self)
    (training_data self) (training_x self) (training_y self)
    (training_x_means self) (training_y_mean self) (categorical_levels self).
Definition set_std_err_est (v : option R) (self : LinearModel)
  : LinearModel :=
  mkLinearModel (given_ex self) (given_re self) (intercept self) (ex self)
    (re self) (bhat self) (fitted self) (residuals self) v (std_err_vars self)
    (var self) (t_vals self) (p_vals self) (training_data self)
    (training_x self) (training_y self) (training_x_means self)
    (training_y_mean self) (categorical_levels self).
Definition set_std_err_vars (v : option (list (string * R))) (self : LinearModel)
  : LinearModel :=
  mkLinearModel (given_ex self) (given_re self) (intercept self) (ex self)
    (re self) (bhat self) (fitted self) (residuals self) (std_err_est self) v
    (var self) (t_vals self) (p_vals self) (training_data self)
    (training_x self) (training_y self) (training_x_means self)
    (training_y_mean self) (categorical_levels self).
Definition set_var (v : option (list string * list (list R))) (self : LinearModel)
  : LinearModel :=
  mkLinearModel (given_ex self) (given_re self) (intercept self) (ex self)
    (re self) (bhat self) (fitted self) (residuals self) (std_err_est self)
    (std_err_vars self) v (t_vals self) (p_vals self) (training_data self)
    (training_x self) (training_y self) (training_x_means self)
    (training_y_mean self) (categorical_levels self).
Definition set_t_vals (v : option (list (string * R))) (self : LinearModel)
  : LinearModel :=
  mkLinearModel (given_ex self) (given_re self) (intercept self) (ex self)
    (re self) (bhat self) (fitted self) (residuals self) (std_err_est self)
    (std_err_vars self) (var self) v (p_vals self) (training_data self)
    (training_x self) (training_y self) (training_x_means self)
    (training_y_mean self) (categorical_levels self).
Definition set_p_vals (v : option (list (string * R))) (self : LinearModel)
  : LinearModel :=
  mkLinearModel (given_ex self) (given_re self) (intercept self) (ex self)
    (re self) (bhat self) (fitted self) (residuals self) (std_err_est self)
    (std_err_vars self) (var self) (t_vals self) v (training_data self)
    (training_x self) (training_y self) (training_x_means self)
    (training_y_mean self) (categorical_levels self).
Definition set_training_data (v : option (Data C)) (self : LinearModel)
  : LinearModel :=
  mkLinearModel (given_ex self) (given_re self) (intercept self) (ex self)
    (re self) (bhat self) (fitted self) (residuals self) (std_err_est self)
    (std_err_vars self) (var self) (t_vals self) (p_vals self) v
    (training_x self) (training_y self) (training_x_means self)
    (training_y_mean self) (categorical_levels self).
Definition set_training_x (v : option DataFrame) (self : LinearModel)
  : LinearModel :=
  mkLinearModel (given_ex self) (given_re self) (intercept self) (ex self)
    (re self) (bhat self) (fitted self) (residuals self) (std_err_est self)
    (std_err_vars self) (var self) (t_vals self) (p_vals self)
    (training_data self) v (training_y self) (training_x_means self)
    (training_y_mean self) (categorical_levels self).
Definition set_training_y (v : option (string * list R)) (self : LinearModel)
  : LinearModel :=
  mkLinearModel (given_ex self) (given_re self) (intercept self) (ex self)
    (re self) (bhat self) (fitted self) (residuals self) (std_err_est self)
    (std_err_vars self) (var self) (t_vals self) (p_vals self)
    (training_data self) (training_x self) v (training_x_means self)
    (training_y_mean self) (categorical_levels self).
Definition set_training_x_means (v : option (list (string * R))) (self : LinearModel)
  : LinearModel :=
  mkLinearModel (given_ex self) (given_re self) (intercept self) (ex self)
    (re self) (bhat self) (fitted self) (residuals self) (std_err_est self)
    (std_err_vars self) (var self) (t_vals self) (p_vals self)
    (training_data self) (training_x self) (training_y self) v
    (training_y_mean self) (categorical_levels self).
Definition set_training_y_mean (v : option R) (self : LinearModel)
  : LinearModel :=
  mkLinearModel (given_ex self) (given_re self) (intercept self) (ex self)
    (re self) (bhat self) (fitted self) (residuals self) (std_err_est self)
    (std_err_vars self) (var self) (t_vals self) (p_vals self)
    (training_data self) (training_x self) (training_y self)
    (training_x_means self) v (categorical_levels self).
Definition set_categorical_levels (v : gmap string loc) (self : LinearModel)
  : LinearModel :=
  mkLinearModel (given_ex self) (given_re self) (intercept self) (ex self)
    (re self) (bhat self) (fitted self) (residuals self) (std_err_est self)
    (std_err_vars self) (var self) (t_vals self) (p_vals self)
    (training_data self) (training_x self) (training_y self)
    (training_x_means self) (training_y_mean self) v.

(** The object built by [__init__], once the formula is stored and the
    intercept flag resolved. *)
Definition init (explanatory response : Expr C) (icpt : bool) : LinearModel :=
  mkLinearModel explanatory response icpt None None None None None None None
    None None None None None None None None ∅.

(** The table returned by [_fit]: coefficient, standard error, t and p
    per label. *)
Definition summary : Type := list (string * (R * R * R * R)).

Definition concat4 (b se t p : list (string * R)) : summary :=
  zip_with (fun x y => (fst x, (snd x, snd (fst y), snd (fst (snd y)), snd (snd (snd y)))))
    b (zip se (zip t p)).

(** [LinearModel._fit(data)], with the solver behind [np.linalg.solve]
    and the collaborator's [Expression.reduce] as parameters.  The
    attributes are assigned in the order of the source, so that the object
    left behind by an exception is the one a caller observes.
    [terms = self.ex.reduce()] binds a local that is never read, so only
    whether the call returns matters.  The two divisions ([/ (n - p - 1)]
    and [/ SE]) are the reals' total division: where the source divides by
    zero and stores [nan] or [inf], the value here is not the source's, and
    the properties that speak of these attributes exclude those fits. *)
Definition _fit_with {T : Type} (Np : Numpy) (reduce : Expr C -> result T)
  (data : Data C) (self : LinearModel) : result summary * LinearModel :=
  let self := set_categorical_levels ∅ self in
  let self := set_training_data (Some data) self in
  let self := set_ex (Some (copy C (given_ex self))) self in
  let ex' := interpret C (copy C (given_ex self)) data in
  let self := set_ex (Some ex') self in
  let self := set_re (Some (copy C (given_re self))) self in
  let re' := interpret C (copy C (given_re self)) data in
  let self := set_re (Some re') self in
  match reduce ex' with
  | Raise e => (Raise e, self)
  | Return terms =>
  match evaluate C ex' data true with
  | Raise e => (Raise e, self)
  | Return X0 =>
  let X_means := frame_mean X0 in
  let self := set_training_x (Some X0) self in
  let self := set_training_x_means (Some X_means) self in
  match evaluate_response C re' data with
  | Raise e => (Raise e, self)
  | Return y0 =>
  let y_mean := mean (snd y0) in
  let self := set_training_y (Some y0) self in
  let self := set_training_y_mean (Some y_mean) self in
  (* Center if there is an intercept *)
  let X := if intercept self then frame_sub X0 X_means else X0 in
  let y := if intercept self then shift y_mean (snd y0) else snd y0 in
  (* Solve equation; np.dot(X.T, y) needs as many rows in y as in X *)
  if negb (Nat.eqb (index_len X) (length y)) then (Raise ValueError, self) else
  match linalg_solve_vec Np (gram (values X)) (xty (values X) y) with
  | Raise e => (Raise e, self)
  | Return b =>
  let bhat0 := zip (labels X) b in
  let self := set_bhat (Some bhat0) self in
  let bhat1 :=
    if intercept self
    then loc_set "Intercept" (y_mean - dot (map snd X_means) (map snd bhat0)) bhat0
    else bhat0 in
  let self := set_bhat (Some bhat1) self in
  let X := if intercept self
           then setitem_scalar (frame_add X X_means) "Intercept" 1 else X in
  let y := if intercept self then unshift y_mean y else y in
  let n := shape0 X in
  let p := (shape1 X - (if intercept self then 1 else 0))%Z in
  (* Y_Hat and Residuals; np.dot(X, bhat) is positional *)
  if negb (Nat.eqb (length (cols X)) (length bhat1)) then (Raise ValueError, self) else
  let fitted_v := mulv (index_len X) (values X) (map snd bhat1) in
  let self := set_fitted (Some fitted_v) self in
  let residuals_v := vsub y fitted_v in
  let self := set_residuals (Some residuals_v) self in
  (* Sigma *)
  let sigma := sqrt (sum_sq residuals_v / IZR (n - p - 1)) in
  let self := set_std_err_est (Some sigma) self in
  (* Covariance Matrix *)
  let k := length (cols X) in
  match linalg_solve Np (gram (values X)) k (mscale (sigma ^ 2) (identity k)) with
  | Raise e => (Raise e, self)
  | Return V =>
  (* Coefficient SE, Diagonal of Cov. Matrix *)
  let se := zip (map fst bhat1) (map sqrt (diagonal V)) in
  let self := set_std_err_vars (Some se) self in
  let self := set_var (Some (labels X, V)) self in
  (* Coefficient Inference *)
  let t := zip_with (fun b s => (fst b, snd b / snd s)) bhat1 se in
  let self := set_t_vals (Some t) self in
  let pv := map (fun t => (fst t, 2 * t_cdf Sci (- Rabs (snd t)) (n - p - 1))) t in
  let self := set_p_vals (Some pv) self in
  (Return (concat4 bhat1 se t pv), self)
  end end end end end.

(** [_fit] with the solver that is exact over the reals and a [reduce]
    that returns. *)
Definition _fit (data : Data C) (self : LinearModel)
  : result summary * LinearModel :=
  _fit_with exact_numpy (fun _ => Return tt) data self.

(** [fit(X, Y = None)] with [Y] omitted. *)
Definition fit (data : Data C) (self : LinearModel)
  : result summary * LinearModel := _fit data self.

Definition get_sse (self : LinearModel) : result R :=
  match training_y self, fitted self with
  | Some y, Some f => Return (sum_sq (vsub (iloc_col0 y) f))
  | _, _ => Raise AttributeError
  end.

(** [get_sst]: the left operand is [self.training_y.iloc[:,0]], the right
    one subscripts the frame itself, [self.training_y[:,0]]. *)
Definition get_sst (self : LinearModel) : result R :=
  match training_y self with
  | None => Raise AttributeError
  | Some y =>
      let lhs := iloc_col0 y in
      match getitem y (KSliceInt 0) with
      | Raise e => Raise e
      | Return c => Return (sum_sq (shift (mean c) lhs))
      end
  end.

Definition get_ssr (self : LinearModel) : result R :=
  match get_sst self with
  | Raise e => Raise e
  | Return sst =>
      match get_sse self with
      | Raise e => Raise e
      | Return sse => Return (sst - sse)
      end
  end.

Definition _prediction_interval_width (self : LinearModel) (X_new : DataFrame)
  (alpha : R) : result (list R) :=
  match training_x self with
  | None => Raise AttributeError
  | Some tx =>
  let n := shape0 tx in
  let p := shape1 X_new in
  match get_sse self with
  | Raise e => Raise e
  | Return sse =>
  let mse := sse / IZR (n - p) in
  match var self with
  | None => Raise TypeError
  | Some (vl, V) =>
  match quad_form X_new vl V with
  | Raise e => Raise e
  | Return s_yhat_squared =>
  let s_pred_squared := map (fun s => mse + s) s_yhat_squared in
  let t_crit := t_ppf Sci (1 - alpha / 2) (n - p) in
  Return (map (fun s => t_crit * sqrt s) s_pred_squared)
  end end end end.

Definition _confidence_interval_width (self : LinearModel) (X_new : DataFrame)
  (alpha : R) : result (list R) :=
  match training_x self with
  | None => Raise AttributeError
  | Some tx =>
  let n := shape0 tx in
  let p := shape1 X_new in
  match var self with
  | None => Raise TypeError
  | Some (vl, V) =>
  match quad_form X_new vl V with
  | Raise e => Raise e
  | Return s_yhat_squared =>
  let W_crit_squared := IZR p * f_ppf Sci (1 - alpha / 2) p (n - p) in
  Return (map (fun s => sqrt W_crit_squared * sqrt s) s_yhat_squared)
  end end end.

Definition str_opt (e : option (Expr C)) : string :=
  match e with Some e => str C e | None => "None" end.

(** [predict].  In the interval branch the bounds are computed from the
    local [y_vals], which the function never binds. *)
Definition predict (self : LinearModel) (data : Data C)
  (confidence_interval prediction_interval : bool) (alpha : R)
  : result DataFrame :=
  match ex self with
  | None => Raise AttributeError
  | Some e =>
  match evaluate C e data false with
  | Raise x => Raise x
  | Return X0 =>
  let X := if intercept self then setitem_scalar X0 "Intercept" 1 else X0 in
  match bhat self with
  | None => Raise TypeError
  | Some b =>
  match frame_dot X b with
  | Raise x => Raise x
  | Return yhat =>
  let predictions :=
    mkDataFrame (index_len X) [("Predicted " +:+ str_opt (re self), yhat)] in
  if confidence_interval || prediction_interval then
    match (if confidence_interval
           then _confidence_interval_width self X alpha
           else _prediction_interval_width self X alpha) with
    | Raise x => Raise x
    | Return widths => Raise (NameError "y_vals")
    end
  else Return predictions
  end end end end.

(** [r_squared(X = None, y = None, adjusted = False)]. *)
Definition r_squared (self : LinearModel) (X : option (Data C))
  (y : option (string * list R)) (adjusted : bool) : result R :=
  let X := match X with None => training_data self | _ => X end in
  let y := match y with None => training_y self | _ => y end in
  match X with
  | None => Raise AttributeError
  | Some X =>
  match predict self X false false (5 / 100) with
  | Raise e => Raise e
  | Return pred =>
  match y, cols pred with
  | Some y, (_, pred0) :: _ =>
      let sse := sum_sq (vsub (iloc_col0 y) pred0) in
      let ssto := sum_sq (shift (mean (iloc_col0 y)) (iloc_col0 y)) in
      let len_y := Z.of_nat (length (snd y)) in
      match training_x self with
      | None => Raise AttributeError
      | Some tx =>
          let numerator :=
            if adjusted then sse else sse / IZR (len_y - shape1 tx - 2) in
          let denominator :=
            if adjusted then ssto else ssto / IZR (len_y - 1) in
          Return (1 - numerator / denominator)
      end
  | _, _ => Raise AttributeError
  end end end.

Definition score (self : LinearModel) X y adjusted : result R :=
  r_squared self X y adjusted.

End LinearModel.
End Model.

(** ** The term encoder: categorical terms

    [LinearModel.extract_columns] on a [Categorical] term.  The level list
    of a term and the lists held by the registry are Python objects that
    the encoder shares and updates in place, so they live in a heap and
    are named by their location. *)

Module Encoder.
Import LinAlg Pandas.
Local Open Scope R_scope.

(** A [Categorical] term: [expr.name], [str(expr)], [expr.levels] (a list
    object or [None]) and [expr.method]. *)
Record Categorical : Type := mkCategorical {
  name : string;
  display : string;
  levels : option loc;
  method : string
}.

(** The data handed to the encoder: a frame of string-valued columns, or
    an object that is neither a [DataFrame] nor a [Series]. *)
Inductive pydata : Type :=
  | PDataFrame (table : list (string * list string))
  | PObject.

(** The part of the program state the encoder reads and writes:
    [self.categorical_levels] and the list objects. *)
Record state : Type := mkState {
  categorical_levels : gmap string loc;
  heap : gmap loc (list string)
}.

Definition deref (st : state) (l : loc) : list string :=
  default [] (heap st !! l).

(** [Series.unique()]: the distinct values in order of first appearance. *)
Fixpoint unique (l : list string) : list string :=
  match l with
  | [] => []
  | x :: l' => x :: filter (fun y => y <> x) (unique l')
  end.

(** [ndarray.sort()] on strings. *)
Definition str_le (a b : string) : Prop := String.leb a b = true.
#[global] Instance str_le_dec : RelDecision str_le :=
  fun a b => decide (String.leb a b = true).
Definition sort (l : list string) : list string := merge_sort str_le l.

Definition mem (x : string) (l : list string) : bool := bool_decide (x ∈ l).

(** [list.remove(x)]: drops the first occurrence, [ValueError] if none. *)
Fixpoint list_remove (x : string) (l : list string) : option (list string) :=
  match l with
  | [] => None
  | y :: l' =>
      if String.eqb y x then Some l'
      else match list_remove x l' with
           | Some r => Some (y :: r)
           | None => None
           end
  end.

(** [for level in levels[:]: if level not in data_levels:
    levels.remove(level)], the loop running over a copy [todo]. *)
Fixpoint remove_absent (data_levels todo cur : list string)
  : option (list string) :=
  match todo with
  | [] => Some cur
  | level :: todo' =>
      if mem level data_levels then remove_absent data_levels todo' cur
      else match list_remove level cur with
           | Some cur' => remove_absent data_levels todo' cur'
           | None => None
           end
  end.

(** [for level in data_levels: if level not in levels: ... break]. *)
Definition has_other (data_levels lv : list string) : bool :=
  existsb (fun level => negb (mem level lv)) data_levels.

Definition other : string := "~other~".

(** [(data[expr.name] == level) * 1.0] *)
Definition indicator (column : list string) (level : string) : list R :=
  map (fun v => if String.eqb v level then 1 else 0) column.

(** [pd.DataFrame({key: series, ...})] from a dict comprehension: a key
    met again overwrites the earlier entry; an empty dict gives a frame
    with an empty index. *)
Definition frame_of_dict (n : nat) (items : list (string * list R)) : DataFrame :=
  let d := fold_left (fun d kv => loc_set (fst kv) (snd kv) d) items [] in
  mkDataFrame (match d with [] => O | _ => n end) d.

(** [df.sum(axis = 1)] *)
Definition row_sums (df : DataFrame) : list R :=
  fold_right vadd (zeros (index_len df)) (values df).

(** [df[[label, ...]]]: the columns carrying each label, in the order of
    the labels; [KeyError] for a label that no column carries. *)
Fixpoint select (df : DataFrame) (ls : list string)
  : result (list (string * list R)) :=
  match ls with
  | [] => Return []
  | l :: ls' =>
      match filter (fun c => fst c = l) (cols df) with
      | [] => Raise (KeyError l)
      | found =>
          match select df ls' with
          | Raise e => Raise e
          | Return rest => Return (found ++ rest)
          end
      end
  end.

(** [df.drop(label, axis = 1)] *)
Definition drop (df : DataFrame) (label : string) : result DataFrame :=
  if mem_label label (labels df)
  then Return (mkDataFrame (index_len df) (filter (fun c => fst c <> label) (cols df)))
  else Raise (KeyError label).

Definition column_name (e : Categorical) (level : string) : string :=
  name e +:+ "::" +:+ level.

(** The level list the encoder settles on: its location, [other_flag],
    and the state after the in-place updates. *)
Definition resolve_levels (e : Categorical) (column : list string) (st : state)
  : result (loc * bool) * state :=
  match categorical_levels st !! name e with
  | Some l => (Return (l, false), st)
  | None =>
      match levels e with
      | None =>
          (* levels = data[expr.name].unique(); levels.sort().  (The source
             tests the registry once more inside this branch; that test
             cannot succeed here.) *)
          let l := fresh (dom (heap st)) in
          (Return (l, false),
           mkState (categorical_levels st) (<[l := sort (unique column)]> (heap st)))
      | Some l =>
          (* levels = expr.levels: the same list object *)
          let data_levels := unique column in
          match remove_absent data_levels (deref st l) (deref st l) with
          | None => (Raise ValueError, st)
          | Some lv =>
              if has_other data_levels lv
              then (Return (l, true),
                    mkState (categorical_levels st) (<[l := lv ++ [other]]> (heap st)))
              else (Return (l, false),
                    mkState (categorical_levels st) (<[l := lv]> (heap st)))
          end
      end
  end.

(** The columns built from the settled level list [lv]: lines 578 to 588
    of the source.  A method other than ["one-hot"] falls off the end of
    the branch and returns [None]. *)
Definition encode_columns (e : Categorical) (column : list string)
  (lv : list string) (other_flag drop_dummy : bool) : result (option DataFrame) :=
  let last_index := if other_flag then (length lv - 1)%nat else length lv in
  if String.eqb (method e) "one-hot" then
    let columns :=
      frame_of_dict (length column)
        (map (fun level => (column_name e level, indicator column level))
           (take last_index lv)) in
    let columns :=
      if other_flag
      then setitem columns (column_name e other)
             (map (fun s => if Req_dec_T s 0 then 1 else 0) (row_sums columns))
      else columns in
    match select columns (map (column_name e) lv) with
    | Raise x => Raise x
    | Return cs =>
        let columns := mkDataFrame (index_len columns) cs in
        if drop_dummy then
          match lv with
          | [] => Raise IndexError
          | l0 :: _ =>
              match drop columns (column_name e l0) with
              | Raise x => Raise x
              | Return df => Return (Some df)
              end
          end
        else Return (Some columns)
    end
  else Return None.

(** [extract_columns(expr, data, drop_dummy, update_levels)] for a
    [Categorical] [expr]. *)
Definition extract_columns (e : Categorical) (data : pydata)
  (drop_dummy update_levels : bool) (self : state)
  : result (option DataFrame) * state :=
  match data with
  | PObject =>
      (Raise (Exception "Only DataFrames and Series are supported for LinearModel."), self)
  | PDataFrame table =>
  match lookup_label (name e) table with
  | None =>
      (Raise (Exception ("Variable { " +:+ name e +:+ " } not found within data.")), self)
  | Some column =>
  match resolve_levels e column self with
  | (Raise x, self) => (Raise x, self)
  | (Return (l, other_flag), self) =>
  let self :=
    if update_levels
    then mkState (<[display e := l]> (categorical_levels self)) (heap self)
    else self in
  (encode_columns e column (deref self l) other_flag drop_dummy, self)
  end end end.

(** How many of the levels [ks] the value [v] equals, as the sum of the
    indicator entries in its row. *)
Definition hits (v : string) (ks : list string) : R :=
  total (map (fun l => if String.eqb v l then 1 else 0) ks).

(** The catch-all column over the levels [kept]: one where the value is
    none of them. *)
Definition other_column (column kept : list string) : list R :=
  map (fun v => if bool_decide (v ∈ kept) then 0 else 1) column.

(** The levels an explicit list [lv0] is reconciled to against the data:
    the listed levels that occur, then [~other~] if the data has a value
    that is not listed. *)
Definition has_unlisted (column lv0 : list string) : bool :=
  existsb (fun v => negb (mem v lv0)) column.
Definition reconciled (column lv0 : list string) : list string :=
  filter (fun x => x ∈ column) lv0
  ++ (if has_unlisted column lv0 then [other] else []).

(** The state after an encoding that settles on the list [lv] at [l]. *)
Definition encoded_state (e : Categorical) (update_levels : bool) (l : loc)
  (lv : list string) (self : state) : state :=
  mkState (if update_levels
           then <[display e := l]> (categorical_levels self)
           else categorical_levels self)
          (<[l := lv]> (heap self)).

(** Concrete terms and states. *)
Definition term_c (lv : option loc) : Categorical := mkCategorical "c" "c" lv "one-hot".
Definition data_abc : pydata := PDataFrame [("c", ["A"; "B"; "C"])].
Definition data_baca : pydata := PDataFrame [("c", ["B"; "A"; "C"; "A"])].
(** [levels = ["A", "B", "Z"]] given to the term, nothing registered. *)
Definition state_abz : state := mkState ∅ {[ 1%positive := ["A"; "B"; "Z"] ]}.
(** [levels = ["A", "B"]] given to the term, nothing registered. *)
Definition state_ab : state := mkState ∅ {[ 1%positive := ["A"; "B"] ]}.
(** [levels = ["Z"]] given to the term, nothing registered. *)
Definition state_z : state := mkState ∅ {[ 1%positive := ["Z"] ]}.
(** [levels = ["A", "B"]] given to the term, while the registry already
    holds the levels learnt for ["c"]. *)
Definition state_registered : state :=
  mkState {[ "c" := 1%positive ]}
          (<[ 1%positive := ["A"; "B"; "C"] ]> {[ 2%positive := ["A"; "B"] ]}).
Definition state_empty : state := mkState ∅ ∅.

(** The [i]-th row of a frame. *)
Definition row (df : DataFrame) (i : nat) : list R :=
  map (fun c => nth i (snd c) 0) (cols df).

End Encoder.

(** ** A concrete collaborator and concrete data

    Enough of an expression collaborator to run the model: a formula is
    the list of the (quantitative) column names it refers to, data is a
    table of float columns, and evaluation selects the named columns. *)

Module Examples.
Import LinAlg Pandas.
Local Open Scope R_scope.

Definition table : Type := list (string * list R).

Definition nrows (d : table) : nat :=
  match d with [] => O | c :: _ => length (snd c) end.

Fixpoint pick (names : list string) (d : table) : result (list (string * list R)) :=
  match names with
  | [] => Return []
  | x :: names' =>
      match lookup_label x d with
      | None => Raise (Exception ("Variable { " +:+ x +:+ " } not found within data."))
      | Some c =>
          match pick names' d with
          | Raise e => Raise e
          | Return cs => Return ((x, c) :: cs)
          end
      end
  end.

Definition table_collaborator : Collaborator :=
  {| Expr := list string;
     Data := table;
     copy := fun e => e;
     interpret := fun e _ => e;
     evaluate := fun e d _ =>
       match pick e d with
       | Return cs => Return (mkDataFrame (nrows d) cs)
       | Raise x => Raise x
       end;
     evaluate_response := fun e d =>
       match pick e d with
       | Return (c :: _) => Return c
       | Return [] => Raise ValueError
       | Raise x => Raise x
       end;
     str := fun e => String.concat "+" e |}.

(** The distribution functions in closed form at two degrees of freedom,
    where they are elementary: Student's t with 2 d.o.f. has c.d.f.
    [1/2 + x / (2 sqrt (2 + x^2))] and quantile
    [(2q - 1) / sqrt (2 q (1 - q))]; the F distribution with (2, 2) d.o.f.
    has quantile [q / (1 - q)].  The examples that depend on critical
    values use four observations and two coefficients, so that only these
    degrees of freedom occur. *)
Definition scipy_2df : Scipy :=
  {| t_cdf := fun x _ => 1 / 2 + x / (2 * sqrt (2 + x ^ 2));
     t_ppf := fun q _ => (2 * q - 1) / sqrt (2 * q * (1 - q));
     f_ppf := fun q _ _ => q / (1 - q) |}.

(** The dataset of the specification's end-to-end example. *)
Definition example_data : table :=
  [("x", [1; 2; 3; 4; 5]); ("y", [2; 4; 5; 4; 5])].

(** Four observations on the line [y = x] with residuals [1, -1, -1, 1]. *)
Definition data4 : table :=
  [("x", [1; 2; 3; 4]); ("y", [2; 1; 2; 5])].

(** A constant regressor: the centred design matrix is zero. *)
Definition data_constant : table :=
  [("x", [1; 1; 1; 1]); ("y", [2; 1; 2; 5])].

(** [LinearModel(Q("x"), Q("y"))], intercept requested. *)
Definition model_xy : Model.LinearModel table_collaborator :=
  Model.init table_collaborator ["x"] ["y"] true.

(** What the collaborator evaluates the two sides of the formula to on
    [data4]. *)
Definition X4 : DataFrame := mkDataFrame 4 [("x", [1; 2; 3; 4])].
Definition y4 : string * list R := ("y", [2; 1; 2; 5]).

(** The model fitted on [data4], and a new point [x = 4] with its
    [Intercept] column. *)
Definition fitted4 (Sci : Scipy) : Model.LinearModel table_collaborator :=
  snd (Model._fit table_collaborator Sci data4 model_xy).
Definition X_new4 : DataFrame := mkDataFrame 1 [("x", [4]); ("Intercept", [1])].

(** The same for the specification's example dataset. *)
Definition X5 : DataFrame := mkDataFrame 5 [("x", [1; 2; 3; 4; 5])].
Definition y5 : string * list R := ("y", [2; 4; 5; 4; 5]).
Definition fitted5 (Sci : Scipy) : Model.LinearModel table_collaborator :=
  snd (Model._fit table_collaborator Sci example_data model_xy).

(** The two design matrices with their [Intercept] column, as [predict]
    builds them. *)
Definition X4_intercept : DataFrame :=
  mkDataFrame 4 [("x", [1; 2; 3; 4]); ("Intercept", [1; 1; 1; 1])].
Definition X5_intercept : DataFrame :=
  mkDataFrame 5 [("x", [1; 2; 3; 4; 5]); ("Intercept", [1; 1; 1; 1; 1])].

(** A solver that answers the call with a vector right-hand side as
    elimination over the reals does and raises at the call with a matrix
    right-hand side: the two calls of [_fit] are separate runs of the
    library routine, on different matrices when an intercept is fitted, and
    the second can raise after the first has returned. *)
Definition numpy_second_fails : Numpy :=
  {| linalg_solve_vec := solve_vec;
     linalg_solve := fun _ _ _ => Raise LinAlgError |}.

(** The explanatory side of [data_constant], and the model after a second
    fit, on [data_constant]. *)
Definition X_constant : DataFrame := mkDataFrame 4 [("x", [1; 1; 1; 1])].
Definition refit_constant (Sci : Scipy) : Model.LinearModel table_collaborator :=
  snd (Model._fit table_collaborator Sci data_constant (fitted4 Sci)).

End Examples.

(** ** Systems of normal equations used in the statements *)

Module Systems.
Import LinAlg Pandas.
Local Open Scope R_scope.

(** All columns have [n] entries. *)
Definition cols_len (n : nat) (cs : list (list R)) : Prop :=
  Forall (fun c => length c = n) cs.

(** The normal equations of [y] on the columns [cols]. *)
Definition normal_rows (cols : list (list R)) (y : list R) : list (list R * R) :=
  zip (gram cols) (xty cols y).

(** The normal equations on the centred data. *)
Definition centered_rows (cols : list (list R)) (y : list R) : list (list R * R) :=
  normal_rows (map center cols) (center y).

(** The normal equations with an all-ones column appended to the [n]-row
    matrix. *)
Definition aug_rows (n : nat) (cols : list (list R)) (y : list R) : list (list R * R) :=
  normal_rows (cols ++ [ones n]) y.

(** The columns [_fit] hands to the first solve. *)
Definition design_cols (icpt : bool) (X : DataFrame) : list (list R) :=
  if icpt then map center (values X) else values X.

(** Following the specification's words: ordinary least squares with an
    explicit all-ones [Intercept] column appended to the uncentred [X]. *)
Definition ols_explicit_intercept (X : DataFrame) (y : list R)
  : result (list (string * R)) :=
  let Xa := setitem_scalar X "Intercept" 1 in
  match solve_vec (gram (values Xa)) (xty (values Xa) y) with
  | Return b => Return (zip (labels Xa) b)
  | Raise e => Raise e
  end.

End Systems.

(** ** The design matrix with its intercept column *)

Module Design.
Import LinAlg Pandas.
Local Open Scope R_scope.

(** [if self.intercept: X['Intercept'] = 1], as [_fit], [predict] and
    [_plot_band] do before they multiply [X] with the coefficients. *)
Definition design (icpt : bool) (X : DataFrame) : DataFrame :=
  if icpt then setitem_scalar X "Intercept" 1 else X.

(** The sum of squared residuals of the coefficient vector [b] on the
    columns [cs] against [y]. *)
Definition sse_of (n : nat) (cs : list (list R)) (y b : list R) : R :=
  sum_sq (vsub y (mulv n cs b)).

(** Column [j] of a row-major matrix. *)
Definition column (j : nat) (m : list (list R)) : list R :=
  map (fun row => nth j row 0) m.

(** The attributes a fit estimates: [bhat], [fitted], [residuals],
    [std_err_est], [var], [std_err_vars], [t_vals], [p_vals]. *)
Definition estimates {C : Collaborator} (self : Model.LinearModel C) :=
  (Model.bhat C self, Model.fitted C self, Model.residuals C self,
   Model.std_err_est C self, Model.var C self, Model.std_err_vars C self,
   Model.t_vals C self, Model.p_vals C self).

End Design.

(** ** Confidence intervals of the coefficients *)

Module Inference.
Import LinAlg Pandas Model.
Local Open Scope R_scope.

(** [a - b] and [a + b] for two labelled [Series].  pandas aligns the
    operands on their labels; when both carry the same index, as the
    attributes assigned by one fit do, the operation is entry by entry.
    Operands with different indexes are aligned on the union of their labels
    and filled with [nan], which the idealisation of floats as reals leaves
    out: [None]. *)
Definition series_op (f : R -> R -> R) (a b : list (string * R))
  : option (list (string * R)) :=
  if decide (map fst a = map fst b)
  then Some (zip_with (fun x y => (fst x, f (snd x) (snd y))) a b)
  else None.

Section ConfidenceIntervals.
Context (C : Collaborator) (Sci : Scipy).
(** [str(round(q, 5) * 100) + "%"], the column label made from a
    probability. *)
Context (percent : R -> string).

(** [confidence_intervals(alpha = None, conf = None)].  The frame is built
    from a dict of two columns, so it is a map from column label to column:
    a second key equal to the first replaces it. *)
Definition confidence_intervals (self : LinearModel C) (alpha conf : option R)
  : result (option (gmap string (list (string * R)))) :=
  let alpha :=
    match alpha with
    | Some a => a
    | None => 1 - match conf with Some c => c | None => 95 / 100 end
    end in
  let crit_prob := 1 - alpha / 2 in
  match training_x C self with
  | None => Raise AttributeError
  | Some tx =>
  match bhat C self with
  | None => Raise AttributeError
  | Some b =>
  let df := (shape0 tx - Z.of_nat (length b))%Z in   (* n - p *)
  let crit_value := t_ppf Sci crit_prob df in
  match std_err_vars C self with
  | None => Raise TypeError
  | Some se_vals =>
  let width := map (fun s => (fst s, crit_value * snd s)) se_vals in
  match series_op Rminus b width, series_op Rplus b width with
  | Some lower_bound, Some upper_bound =>
      Return (Some (<[percent crit_prob := upper_bound]>
                      {[ percent (1 - crit_prob) := lower_bound ]}))
  | _, _ => Return None
  end end end end.

End ConfidenceIntervals.
End Inference.

(** ** Pieces of the plotting methods that compute *)

Module Plot.
Import LinAlg Pandas Model.
Local Open Scope R_scope.

(** [min(values)] and [max(values)] over a sequence: [ValueError] on an
    empty one. *)
Definition py_min (l : list R) : result R :=
  match l with
  | [] => Raise ValueError
  | x :: l' => Return (fold_left Rmin l' x)
  end.
Definition py_max (l : list R) : result R :=
  match l with
  | [] => Raise ValueError
  | x :: l' => Return (fold_left Rmax l' x)
  end.

(** The axis limits of [plot] (for [y]) and of [_plot_one_quant] (for
    [x]):
    [diff = (max - min) * 0.05; lo = min(min - diff, min + diff);
     hi = max(max - diff, max + diff)]. *)
Definition axis_limits (vals : list R) : result (R * R) :=
  match py_min vals with
  | Raise e => Raise e
  | Return min_v =>
      match py_max vals with
      | Raise e => Raise e
      | Return max_v =>
          let diff := (max_v - min_v) * (5 / 100) in
          Return (Rmin (min_v - diff) (min_v + diff),
                  Rmax (max_v - diff) (max_v + diff))
      end
  end.

(** [linestyles = [':', '-.', '--', '-']] *)
Definition linestyles : list string := [":"; "-."; "--"; "-"].

(** The order in which the rotation hands the line types out. *)
Definition cycle_base : list string := ["-"; "--"; "-."; ":"].

(** [line_type = linestyles.pop(); linestyles.insert(0, line_type)]: the
    line type taken and the list left behind. *)
Definition next_style (ls : list string) : result (string * list string) :=
  match last ls with
  | None => Raise IndexError
  | Some line_type => Return (line_type, line_type :: removelast ls)
  end.

(** The line types taken by [k] rounds of the drawing loop, one per level
    combination, and the list after them. *)
Fixpoint line_types (k : nat) (ls : list string)
  : result (list string * list string) :=
  match k with
  | O => Return ([], ls)
  | S k' =>
      match next_style ls with
      | Raise e => Raise e
      | Return (line_type, ls') =>
          match line_types k' ls' with
          | Raise e => Raise e
          | Return (used, final) => Return (line_type :: used, final)
          end
      end
  end.

Section PartialPlots.
Context (C : Collaborator) {T : Type}.
(** [Expression.reduce()], of the expression collaborator. *)
Context (reduce : Expr C -> result T).

(** [partial_plots]: [term_dict = self.ex.reduce()], then
    [terms = list(terms['Q']) + list(terms['C'])] reads the local [terms]
    that this very statement is to bind ([UnboundLocalError], a
    [NameError]). *)
Definition partial_plots (self : LinearModel C) : result unit :=
  match ex C self with
  | None => Raise AttributeError
  | Some e =>
      match reduce e with
      | Raise x => Raise x
      | Return term_dict => Raise (NameError "terms")
      end
  end.

End PartialPlots.
End Plot.

(** ** Concrete column labels *)

Module LabelExamples.
Local Open Scope R_scope.

(** The two column labels of [confidence_intervals] at the default
    confidence level. *)
Definition percent_default (q : R) : string :=
  if Req_dec_T q (1 - (1 - 95 / 100) / 2) then "97.5%" else "2.5%".

End LabelExamples.

(** * Properties *)

(** ** The linear solver is exact *)

Module LinAlgFacts.
Import LinAlg.
Local Open Scope R_scope.

Lemma dot_nil_r u : dot u [] = 0.
Proof. by destruct u. Qed.

Lemma dot_zeros_r u n : dot u (zeros n) = 0.
Proof.
  revert n; induction u as [|a u IH]; intros [|n]; simpl; try done.
  change (repeat 0 n) with (zeros n). rewrite IH. lra.
Qed.

Lemma dot_comm u v : dot u v = dot v u.
Proof.
  revert v; induction u as [|a u IH]; intros [|b v]; simpl; try done.
  rewrite IH. lra.
Qed.

Lemma dot_scale_l a u v : dot (scale a u) v = a * dot u v.
Proof.
  revert v; induction u as [|x u IH]; intros [|b v]; simpl; try lra.
  rewrite IH. lra.
Qed.

Lemma dot_div_l a u v : dot (map (fun x => x / a) u) v = dot u v / a.
Proof.
  revert v; induction u as [|x u IH]; intros [|b v]; simpl; try (unfold Rdiv; lra).
  rewrite IH. unfold Rdiv. lra.
Qed.

Lemma dot_vsub_l u w v :
  length u = length w -> dot (vsub u w) v = dot u v - dot w v.
Proof.
  revert w v; induction u as [|x u IH]; intros [|y w] [|b v] Hl; simpl in *;
    try lra; try discriminate.
  rewrite IH by lia. lra.
Qed.

Lemma dot_vadd_l u w v :
  length u = length w -> dot (vadd u w) v = dot u v + dot w v.
Proof.
  revert w v; induction u as [|x u IH]; intros [|y w] [|b v] Hl; simpl in *;
    try lra; try discriminate.
  rewrite IH by lia. lra.
Qed.

Lemma length_scale a u : length (scale a u) = length u.
Proof. apply length_map. Qed.

Lemma length_vsub u v : length u = length v -> length (vsub u v) = length u.
Proof. intros H. unfold vsub. rewrite length_zip_with. lia. Qed.

Lemma length_vadd u v : length u = length v -> length (vadd u v) = length u.
Proof. intros H. unfold vadd. rewrite length_zip_with. lia. Qed.

Lemma length_zeros n : length (zeros n) = n.
Proof. apply repeat_length. Qed.

(** *** The pivot search *)

Lemma find_pivot_Some rows a pr pb others :
  find_pivot rows = Some ((a, pr, pb), others) ->
  a <> 0 /\ rows ≡ₚ (a :: pr, pb) :: others.
Proof.
  revert others; induction rows as [|[r b] rows IH]; intros others; simpl; [done|].
  destruct r as [|x r]; [done|].
  destruct (Req_dec_T x 0) as [->|Hx].
  - destruct (find_pivot rows) as [[p oth]|] eqn:E; [|done].
    intros [= -> <-]. destruct (IH oth eq_refl) as [Ha Hp]. split; [done|].
    rewrite Hp. apply Permutation_swap.
  - intros [= <- <- <- <-]. done.
Qed.

Lemma find_pivot_None k rows :
  wf_rows (S k) rows -> find_pivot rows = None ->
  Forall (fun eq => hd 0 (fst eq) = 0) rows.
Proof.
  induction rows as [|[r b] rows IH]; intros Hwf; simpl; [constructor|].
  inversion Hwf as [|? ? Hr Hwf']; subst. simpl in Hr.
  destruct r as [|x r]; [done|].
  destruct (Req_dec_T x 0) as [->|Hx]; [|done].
  destruct (find_pivot rows) as [[p oth]|] eqn:E; [done|].
  intros _. constructor; [done|]. by apply IH.
Qed.

Lemma wf_rows_perm k rows rows' : rows ≡ₚ rows' -> wf_rows k rows -> wf_rows k rows'.
Proof. intros Hp. unfold wf_rows. by rewrite Hp. Qed.

Lemma eliminate_wf k pr pb others :
  length pr = k -> wf_rows (S k) others ->
  wf_rows k (map (eliminate pr pb) others).
Proof.
  intros Hpr Hwf. unfold wf_rows in *. rewrite Forall_map.
  eapply Forall_impl; [exact Hwf|]. intros [r b] Hr; simpl in *.
  destruct r as [|h t]; [done|]. simpl in *.
  rewrite length_vsub; rewrite ?length_scale; lia.
Qed.

(** One elimination step, read on a candidate solution [x1 :: xs]. *)
Lemma eliminate_dot k pr pb eq x1 xs :
  length pr = k -> length (fst eq) = S k ->
  x1 = pb - dot pr xs ->
  dot (fst (eliminate pr pb eq)) xs - snd (eliminate pr pb eq)
  = dot (fst eq) (x1 :: xs) - snd eq.
Proof.
  destruct eq as [[|h t] b]; simpl; [done|]. intros Hpr Ht ->.
  rewrite dot_vsub_l by (rewrite length_scale; lia).
  rewrite dot_scale_l. lra.
Qed.

Lemma eliminate_dot0 k pr pb eq x1 xs :
  length pr = k -> length (fst eq) = S k ->
  x1 = - dot pr xs ->
  dot (fst (eliminate pr pb eq)) xs = dot (fst eq) (x1 :: xs).
Proof.
  destruct eq as [[|h t] b]; simpl; [done|]. intros Hpr Ht ->.
  rewrite dot_vsub_l by (rewrite length_scale; lia).
  rewrite dot_scale_l. lra.
Qed.

Lemma gauss_length k rows x : gauss k rows = Some x -> length x = k.
Proof.
  revert rows x; induction k as [|k IH]; intros rows x; simpl.
  - by intros [= <-].
  - destruct (find_pivot rows) as [[[[a pr] pb] others]|]; [|done].
    destruct (gauss k _) as [xs|] eqn:E; [|done].
    intros [= <-]. simpl. f_equal. by eapply IH.
Qed.

Lemma gauss_sound k rows x :
  wf_rows k rows -> length rows = k -> gauss k rows = Some x -> sol rows x.
Proof.
  revert rows x; induction k as [|k IH]; intros rows x Hwf Hlen; simpl.
  - destruct rows; [|done]. intros _. constructor.
  - destruct (find_pivot rows) as [[[[a pr] pb] others]|] eqn:Ep; [|done].
    destruct (find_pivot_Some _ _ _ _ _ Ep) as [Ha Hperm].
    pose proof (wf_rows_perm _ _ _ Hperm Hwf) as Hwf'.
    apply Forall_cons in Hwf' as [Hpr Hoth]. simpl in Hpr.
    assert (Hlo : length others = k).
    { apply Permutation_length in Hperm. simpl in Hperm. lia. }
    set (pr' := map (fun x => x / a) pr). set (pb' := pb / a).
    assert (Hpr' : length pr' = k) by (unfold pr'; rewrite length_map; lia).
    destruct (gauss k _) as [xs|] eqn:E; [|done].
    intros [= <-].
    pose proof (IH _ _ (eliminate_wf k pr' pb' others Hpr' Hoth)
                  ltac:(by rewrite length_map) E) as Hsol.
    unfold sol. rewrite Hperm. constructor.
    + simpl. unfold pr', pb'. rewrite dot_div_l. field. done.
    + unfold sol in Hsol. rewrite Forall_map in Hsol.
      rewrite Forall_forall in Hsol, Hoth. apply Forall_forall.
      intros eq Hin.
      pose proof (eliminate_dot k pr' pb' eq (pb' - dot pr' xs) xs Hpr'
                    (Hoth _ Hin) eq_refl) as Hd.
      specialize (Hsol _ Hin). cbv beta in Hsol. lra.
Qed.

(** A system that [gauss] solves has a trivial kernel. *)
Lemma gauss_Some_nonsingular k rows x :
  wf_rows k rows -> length rows = k -> gauss k rows = Some x ->
  nonsingular k rows.
Proof.
  revert rows x; induction k as [|k IH]; intros rows x Hwf Hlen; simpl.
  - intros _ v Hv _. by destruct v.
  - destruct (find_pivot rows) as [[[[a pr] pb] others]|] eqn:Ep; [|done].
    destruct (find_pivot_Some _ _ _ _ _ Ep) as [Ha Hperm].
    pose proof (wf_rows_perm _ _ _ Hperm Hwf) as Hwf'.
    apply Forall_cons in Hwf' as [Hpr Hoth]. simpl in Hpr.
    assert (Hlo : length others = k).
    { apply Permutation_length in Hperm. simpl in Hperm. lia. }
    set (pr' := map (fun x => x / a) pr). set (pb' := pb / a).
    assert (Hpr' : length pr' = k) by (unfold pr'; rewrite length_map; lia).
    destruct (gauss k _) as [xs|] eqn:E; [|done].
    intros _ v Hv Hker.
    pose proof (IH _ _ (eliminate_wf k pr' pb' others Hpr' Hoth)
                  ltac:(by rewrite length_map) E) as Hns.
    destruct v as [|v1 v']; [done|]. simpl in Hv.
    unfold in_kernel in Hker. rewrite Hperm in Hker.
    apply Forall_cons in Hker as [Hp Hko]. simpl in Hp.
    assert (Hv1 : v1 = - dot pr' v').
    { unfold pr'. rewrite dot_div_l. field_simplify; [|done].
      apply (Rmult_eq_reg_l a); [|done]. field_simplify; [|done]. lra. }
    assert (Hv' : v' = zeros k).
    { apply Hns; [lia|]. unfold in_kernel. rewrite Forall_map.
      rewrite Forall_forall in Hko, Hoth. apply Forall_forall. intros eq Hin.
      cbv beta. rewrite (eliminate_dot0 k pr' pb' eq v1 v' Hpr' (Hoth _ Hin) Hv1).
      by apply Hko. }
    subst v'. rewrite dot_zeros_r in Hv1. subst v1.
    change (zeros (S k)) with (0 :: zeros k). f_equal. lra.
Qed.

(** A system on which [gauss] gives up has a non-trivial kernel. *)
Lemma gauss_None_singular k rows :
  wf_rows k rows -> length rows = k -> gauss k rows = None ->
  exists v, length v = k /\ v <> zeros k /\ in_kernel rows v.
Proof.
  revert rows; induction k as [|k IH]; intros rows Hwf Hlen; simpl; [done|].
  destruct (find_pivot rows) as [[[[a pr] pb] others]|] eqn:Ep.
  - destruct (find_pivot_Some _ _ _ _ _ Ep) as [Ha Hperm].
    pose proof (wf_rows_perm _ _ _ Hperm Hwf) as Hwf'.
    apply Forall_cons in Hwf' as [Hpr Hoth]. simpl in Hpr.
    assert (Hlo : length others = k).
    { apply Permutation_length in Hperm. simpl in Hperm. lia. }
    set (pr' := map (fun x => x / a) pr). set (pb' := pb / a).
    assert (Hpr' : length pr' = k) by (unfold pr'; rewrite length_map; lia).
    destruct (gauss k _) as [xs|] eqn:E; [done|]. intros _.
    destruct (IH _ (eliminate_wf k pr' pb' others Hpr' Hoth)
                ltac:(by rewrite length_map) E) as (v' & Hl & Hnz & Hker).
    exists ((- dot pr' v') :: v'). split; [simpl; lia|]. split.
    + intros [= _ H]. done.
    + unfold in_kernel. rewrite Hperm. constructor.
      * simpl. unfold pr'. rewrite dot_div_l. field. done.
      * unfold in_kernel in Hker. rewrite Forall_map in Hker.
        rewrite Forall_forall in Hker, Hoth. apply Forall_forall. intros eq Hin.
        rewrite <- (eliminate_dot0 k pr' pb' eq _ v' Hpr' (Hoth _ Hin) eq_refl).
        by apply Hker.
  - intros _. pose proof (find_pivot_None _ _ Hwf Ep) as Hz.
    exists (1 :: zeros k). split; [simpl; by rewrite length_zeros|]. split.
    + intros [= H]. lra.
    + unfold in_kernel, wf_rows in *. rewrite Forall_forall in Hz, Hwf. apply Forall_forall.
      intros [r b] Hin. specialize (Hz _ Hin). specialize (Hwf _ Hin).
      simpl in *. destruct r as [|h t]; [done|]. simpl in *. subst h.
      rewrite dot_zeros_r. lra.
Qed.

Lemma vsub_eq_zeros u v :
  length u = length v -> vsub u v = zeros (length u) -> u = v.
Proof.
  revert v; induction u as [|a u IH]; intros [|b v] Hl; simpl in *; try done.
  intros [= Hab Hr]. f_equal; [lra|]. apply IH; [lia|done].
Qed.

Lemma dot_vsub_r u v w :
  length v = length w -> dot u (vsub v w) = dot u v - dot u w.
Proof.
  intros H. rewrite dot_comm, dot_vsub_l by done. rewrite (dot_comm v), (dot_comm w). done.
Qed.

Lemma sol_unique k rows x x' :
  nonsingular k rows -> length x = k -> length x' = k ->
  sol rows x -> sol rows x' -> x = x'.
Proof.
  intros Hns Hx Hx' Hs Hs'.
  apply vsub_eq_zeros; [lia|]. rewrite Hx. apply Hns.
  - rewrite length_vsub; lia.
  - unfold in_kernel, sol in *. rewrite Forall_forall in Hs, Hs'.
    apply Forall_forall. intros eq Hin.
    rewrite dot_vsub_r by lia. rewrite (Hs _ Hin), (Hs' _ Hin). lra.
Qed.

(** The solver is exact: on a non-singular square system it returns the
    solution, on a singular one it fails. *)
Lemma gauss_spec k rows x :
  wf_rows k rows -> length rows = k -> nonsingular k rows ->
  length x = k -> sol rows x -> gauss k rows = Some x.
Proof.
  intros Hwf Hlen Hns Hx Hs.
  destruct (gauss k rows) as [x'|] eqn:E.
  - f_equal. eapply sol_unique; eauto using gauss_length, gauss_sound.
  - destruct (gauss_None_singular _ _ Hwf Hlen E) as (v & Hl & Hnz & Hk).
    destruct Hnz. by apply Hns.
Qed.

Lemma gauss_singular k rows :
  wf_rows k rows -> length rows = k -> ~ nonsingular k rows ->
  gauss k rows = None.
Proof.
  intros Hwf Hlen Hns. destruct (gauss k rows) as [x|] eqn:E; [|done].
  destruct Hns. by eapply gauss_Some_nonsingular.
Qed.

End LinAlgFacts.

(** ** Centring against an explicit intercept column *)

Module CenteringFacts.
Import LinAlg Pandas Systems LinAlgFacts.
Local Open Scope R_scope.

Lemma total_cons x u : total (x :: u) = x + total u.
Proof. done. Qed.

Lemma total_zeros n : total (zeros n) = 0.
Proof. induction n as [|n IH]; simpl; [done|]. unfold zeros in IH. rewrite IH. lra. Qed.

Lemma total_ones n : total (ones n) = INR n.
Proof.
  induction n as [|n IH]; [done|]. rewrite S_INR. simpl. unfold ones in IH.
  rewrite IH. lra.
Qed.

Lemma total_scale a u : total (scale a u) = a * total u.
Proof. induction u as [|x u IH]; simpl; [lra|]. rewrite IH. lra. Qed.

Lemma total_vadd u v :
  length u = length v -> total (vadd u v) = total u + total v.
Proof.
  revert v; induction u as [|x u IH]; intros [|y v] H; simpl in *; try done; [lra|].
  rewrite IH by lia. lra.
Qed.

Lemma total_vsub u v :
  length u = length v -> total (vsub u v) = total u - total v.
Proof.
  revert v; induction u as [|x u IH]; intros [|y v] H; simpl in *; try done; [lra|].
  rewrite IH by lia. lra.
Qed.

Lemma total_shift a u : total (shift a u) = total u - INR (length u) * a.
Proof.
  induction u as [|x u IH]; [simpl; lra|].
  change (length (x :: u)) with (S (length u)). rewrite S_INR.
  change (shift a (x :: u)) with ((x - a) :: shift a u).
  rewrite !total_cons, IH. lra.
Qed.

Lemma length_shift a u : length (shift a u) = length u.
Proof. apply length_map. Qed.

Lemma length_mulv n cols v : cols_len n cols -> length (mulv n cols v) = n.
Proof.
  intros H; revert v; induction H as [|c cols Hc H IH]; intros [|b v]; simpl;
    rewrite ?length_zeros; try done.
  rewrite length_vadd; rewrite length_scale; [done|]. by rewrite IH.
Qed.

Lemma dot_vadd_r u v w :
  length v = length w -> dot u (vadd v w) = dot u v + dot u w.
Proof.
  intros H. rewrite dot_comm, dot_vadd_l by done.
  by rewrite (dot_comm v), (dot_comm w).
Qed.

Lemma dot_scale_r a u v : dot u (scale a v) = a * dot u v.
Proof. by rewrite dot_comm, dot_scale_l, dot_comm. Qed.

Lemma dot_ones_l n u : length u = n -> dot (ones n) u = total u.
Proof.
  revert n; induction u as [|x u IH]; intros [|n] H; simpl in *; try done.
  unfold ones in IH. rewrite IH by lia. lra.
Qed.

Lemma dot_shift_l a u v :
  length u = length v -> dot (shift a u) v = dot u v - a * total v.
Proof.
  revert v; induction u as [|x u IH]; intros [|y v] H; simpl in *; try done; [lra|].
  unfold shift in IH. rewrite IH by lia. lra.
Qed.

(** A row of the Gram matrix applied to [v] is the column against [X v]. *)
Lemma dot_gram_row n cols c v :
  cols_len n cols -> length c = n ->
  dot (map (fun d => dot c d) cols) v = dot c (mulv n cols v).
Proof.
  intros H Hc; revert v; induction H as [|d cols Hd H IH]; intros [|b v]; simpl;
    rewrite ?dot_zeros_r; try done.
  rewrite dot_vadd_r by (rewrite length_scale, length_mulv by done; done).
  rewrite dot_scale_r, IH. lra.
Qed.

Lemma total_mulv n cols v :
  cols_len n cols -> total (mulv n cols v) = dot (map total cols) v.
Proof.
  intros H; revert v; induction H as [|d cols Hd H IH]; intros [|b v]; simpl;
    rewrite ?total_zeros; try done.
  rewrite total_vadd by (rewrite length_scale, length_mulv by done; done).
  rewrite total_scale, IH. lra.
Qed.

Lemma shift_0 u : shift 0 u = u.
Proof. induction u as [|x u IH]; simpl; [done|]. rewrite IH. f_equal. lra. Qed.

Lemma shift_zeros_eq a n : shift a (zeros n) = scale (- a) (ones n).
Proof. induction n as [|n IH]; simpl; [done|]. unfold shift, zeros, scale, ones in *. rewrite IH. f_equal. lra. Qed.

Lemma vadd_scale_shift b a d c z :
  vadd (scale b (shift a c)) (shift d z)
  = shift (a * b + d) (vadd (scale b c) z).
Proof.
  revert z; induction c as [|x c IH]; intros [|y z]; simpl; try done.
  unfold vadd, scale, shift in *. rewrite IH. f_equal. lra.
Qed.

(** Centering the columns centres the product. *)
Lemma mulv_center n cols v :
  mulv n (map center cols) v
  = shift (dot (map mean cols) v) (mulv n cols v).
Proof.
  revert v; induction cols as [|c cols IH]; intros [|b v]; simpl;
    rewrite ?shift_0; try done.
  rewrite IH. unfold center. apply vadd_scale_shift.
Qed.

Lemma mean_mulv n cols v :
  cols_len n cols -> mean (mulv n cols v) = dot (map mean cols) v.
Proof.
  intros H. unfold mean at 1. rewrite length_mulv, total_mulv by done.
  replace (map mean cols) with (map (fun x => x / INR n) (map total cols)).
  - by rewrite dot_div_l.
  - rewrite map_map. apply map_ext_Forall. eapply Forall_impl; [exact H|].
    intros c Hc. simpl. unfold mean. by rewrite Hc.
Qed.

Lemma vsub_shift a b u v :
  vsub (shift a u) (shift b v) = shift (a - b) (vsub u v).
Proof.
  revert v; induction u as [|x u IH]; intros [|y v]; simpl; try done.
  unfold vsub, shift in *. rewrite IH. f_equal. lra.
Qed.

Lemma mean_vsub u v :
  length u = length v -> mean (vsub u v) = mean u - mean v.
Proof.
  intros H. unfold mean. rewrite length_vsub, total_vsub, <- H by done.
  unfold Rdiv. lra.
Qed.

Lemma total_center u : u <> [] -> total (center u) = 0.
Proof.
  intros Hu. unfold center. rewrite total_shift. unfold mean.
  assert (INR (length u) <> 0).
  { apply not_0_INR. destruct u; simpl; [done|lia]. }
  field. done.
Qed.


Lemma Forall_iff_on {A} (P Q : A -> Prop) (l : list A) :
  Forall (fun x => P x <-> Q x) l -> Forall P l <-> Forall Q l.
Proof.
  induction 1 as [|x l Hx H IH]; [done|]. rewrite !Forall_cons. tauto.
Qed.

Lemma zip_map_same {A B D} (f : A -> B) (g : A -> D) (l : list A) :
  zip (map f l) (map g l) = map (fun x => (f x, g x)) l.
Proof. induction l as [|x l IH]; simpl; [done|]. by rewrite IH. Qed.

Lemma vsub_zeros_r n u : length u = n -> vsub u (zeros n) = u.
Proof.
  revert n; induction u as [|x u IH]; intros [|n] H; simpl in *; try done.
  unfold vsub, zeros in IH. rewrite IH by lia. f_equal. lra.
Qed.

(** The normal equations, read on the residual [X v - y]. *)
Lemma sol_gram n cols y v :
  cols_len n cols -> length y = n ->
  sol (zip (gram cols) (xty cols y)) v
  <-> Forall (fun c => dot c (vsub (mulv n cols v) y) = 0) cols.
Proof.
  intros H Hy. unfold sol, gram, xty. rewrite zip_map_same, Forall_map.
  apply Forall_iff_on. eapply Forall_impl; [exact H|]. intros c Hc. simpl.
  rewrite (dot_gram_row n) by done.
  rewrite dot_vsub_r by (rewrite length_mulv; done). lra.
Qed.

Lemma in_kernel_gram n cols y v :
  cols_len n cols ->
  in_kernel (zip (gram cols) (xty cols y)) v
  <-> Forall (fun c => dot c (mulv n cols v) = 0) cols.
Proof.
  intros H. unfold in_kernel, gram, xty. rewrite zip_map_same, Forall_map.
  apply Forall_iff_on. eapply Forall_impl; [exact H|]. intros c Hc. simpl.
  by rewrite (dot_gram_row n).
Qed.

Lemma in_kernel_sol n cols y v :
  cols_len n cols ->
  in_kernel (zip (gram cols) (xty cols y)) v
  <-> sol (zip (gram cols) (xty cols (zeros n))) v.
Proof.
  intros H. rewrite in_kernel_gram, sol_gram by (done || apply length_zeros).
  by rewrite vsub_zeros_r by (by apply length_mulv).
Qed.


Lemma cols_len_center n cols : cols_len n cols -> cols_len n (map center cols).
Proof.
  intros H. unfold cols_len. rewrite Forall_map. eapply Forall_impl; [exact H|].
  intros c Hc. simpl. unfold center. by rewrite length_shift.
Qed.

Lemma length_center u : length (center u) = length u.
Proof. apply length_shift. Qed.

Lemma centered_residual n cols y v :
  cols_len n cols -> length y = n ->
  vsub (mulv n (map center cols) v) (center y)
  = center (vsub (mulv n cols v) y).
Proof.
  intros H Hy. rewrite mulv_center. unfold center at 1. rewrite vsub_shift.
  unfold center. f_equal.
  rewrite mean_vsub by (rewrite length_mulv; done).
  by rewrite (mean_mulv n).
Qed.

Lemma dot_center_l c w :
  length c = length w -> total w = 0 -> dot (center c) w = dot c w.
Proof.
  intros Hl Hw. unfold center. rewrite dot_shift_l by done. rewrite Hw. lra.
Qed.

(** The centred normal equations say that every original column is
    orthogonal to the centred residual. *)
Lemma sol_centered n cols y v :
  cols_len n cols -> length y = n -> n <> O ->
  sol (centered_rows cols y) v
  <-> Forall (fun c => dot c (center (vsub (mulv n cols v) y)) = 0) cols.
Proof.
  intros H Hy Hn. unfold centered_rows, normal_rows.
  rewrite (sol_gram n) by (by apply cols_len_center || by rewrite length_center).
  rewrite Forall_map. apply Forall_iff_on. eapply Forall_impl; [exact H|].
  intros c Hc. simpl. rewrite centered_residual by done.
  assert (Hr : length (vsub (mulv n cols v) y) = n).
  { rewrite length_vsub; rewrite length_mulv; done. }
  rewrite dot_center_l; [done| |].
  - rewrite length_center. congruence.
  - apply total_center. intros E. rewrite E in Hr. simpl in Hr. lia.
Qed.

Lemma vadd_scale_unshift b c0 c z :
  vadd (scale b c) (unshift c0 z) = unshift c0 (vadd (scale b c) z).
Proof.
  revert z; induction c as [|x c IH]; intros [|y z]; simpl; try done.
  unfold vadd, scale, unshift in *. rewrite IH. f_equal. lra.
Qed.

Lemma mulv_ones n c0 : mulv n [ones n] [c0] = unshift c0 (zeros n).
Proof.
  simpl. induction n as [|n IH]; simpl; [done|].
  unfold vadd, scale, ones, zeros, unshift in *. rewrite IH. f_equal. lra.
Qed.

(** The product with the all-ones column appended. *)
Lemma mulv_aug n cols v c0 :
  length v = length cols ->
  mulv n (cols ++ [ones n]) (v ++ [c0]) = unshift c0 (mulv n cols v).
Proof.
  revert v; induction cols as [|c cols IH]; intros [|b v] Hl; simpl in *; try done.
  - apply mulv_ones.
  - rewrite IH by lia. apply vadd_scale_unshift.
Qed.

Lemma vsub_unshift c0 u y : vsub (unshift c0 u) y = unshift c0 (vsub u y).
Proof.
  revert y; induction u as [|x u IH]; intros [|b y]; simpl; try done.
  unfold vsub, unshift in *. rewrite IH. f_equal. lra.
Qed.

Lemma total_unshift a u : total (unshift a u) = total u + INR (length u) * a.
Proof.
  induction u as [|x u IH]; [simpl; lra|].
  change (length (x :: u)) with (S (length u)). rewrite S_INR.
  change (unshift a (x :: u)) with ((x + a) :: unshift a u).
  rewrite !total_cons, IH. lra.
Qed.

Lemma unshift_opp a u : unshift (- a) u = shift a u.
Proof. unfold unshift, shift. apply map_ext. intros x. lra. Qed.

Lemma length_unshift a u : length (unshift a u) = length u.
Proof. apply length_map. Qed.

(** Lemma A: the normal equations with an explicit all-ones column hold
    for [v ++ [c0]] exactly when the centred ones hold for [v] and [c0] is
    minus the mean residual. *)
Lemma sol_aug_centered n cols y v c0 :
  cols_len n cols -> length y = n -> n <> O -> length v = length cols ->
  sol (aug_rows n cols y) (v ++ [c0])
  <-> c0 = - mean (vsub (mulv n cols v) y) /\ sol (centered_rows cols y) v.
Proof.
  intros H Hy Hn Hv. unfold aug_rows, normal_rows.
  assert (Ha : cols_len n (cols ++ [ones n])).
  { apply Forall_app; split; [done|]. constructor; [|done]. apply repeat_length. }
  rewrite (sol_gram n) by done. rewrite (sol_centered n) by done.
  rewrite mulv_aug by done. rewrite vsub_unshift.
  set (r := vsub (mulv n cols v) y).
  assert (Hr : length r = n).
  { unfold r. rewrite length_vsub; rewrite length_mulv; done. }
  rewrite Forall_app, Forall_singleton.
  rewrite dot_ones_l by (by rewrite length_unshift).
  rewrite total_unshift, Hr.
  assert (Hn' : INR n <> 0) by (by apply not_0_INR).
  assert (Hc0 : total r + INR n * c0 = 0 <-> c0 = - mean r).
  { unfold mean. rewrite Hr. split; intros E.
    - apply (Rmult_eq_reg_l (INR n)); [|done]. field_simplify; [lra|done].
    - rewrite E. field. done. }
  rewrite Hc0. split.
  - intros [Hf ->]. split; [done|]. unfold center. by rewrite <- unshift_opp.
  - intros [-> Hf]. split; [|done]. rewrite unshift_opp. exact Hf.
Qed.


Lemma center_zeros n : center (zeros n) = zeros n.
Proof.
  unfold center, mean. rewrite total_zeros. unfold Rdiv. rewrite Rmult_0_l.
  apply shift_0.
Qed.

Lemma mulv_zeros_r n cols k : cols_len n cols -> mulv n cols (zeros k) = zeros n.
Proof.
  intros H; revert k; induction H as [|c cols Hc H IH]; intros [|k]; simpl; try done.
  change (repeat 0 k) with (zeros k). rewrite IH.
  clear -Hc. revert n Hc; induction c as [|x c IHc]; intros [|n] Hc; simpl in *; try done.
  unfold vadd, scale, zeros in *. rewrite IHc by lia.
  change (repeat 0 (S n)) with (0 :: repeat 0 n). f_equal. lra.
Qed.

Lemma zeros_snoc k : zeros (S k) = zeros k ++ [0].
Proof. unfold zeros. induction k as [|k IH]; simpl in *; [done|]. by rewrite <- IH. Qed.

Lemma list_snoc_inv {A} (w : list A) k :
  length w = S k -> exists v c, w = v ++ [c] /\ length v = k.
Proof.
  intros H. destruct (exists_last (l := w)) as (v & c & ->).
  - intros ->. done.
  - exists v, c. split; [done|]. rewrite length_app in H. simpl in H. lia.
Qed.

Lemma in_kernel_centered n cols y v :
  cols_len n cols ->
  in_kernel (centered_rows cols y) v <-> sol (centered_rows cols (zeros n)) v.
Proof.
  intros H. unfold centered_rows, normal_rows. rewrite center_zeros.
  apply in_kernel_sol. by apply cols_len_center.
Qed.

Lemma cols_len_aug n cols : cols_len n cols -> cols_len n (cols ++ [ones n]).
Proof.
  intros H. apply Forall_app; split; [done|]. constructor; [|done]. apply repeat_length.
Qed.

Lemma in_kernel_aug n cols y v :
  cols_len n cols ->
  in_kernel (aug_rows n cols y) v <-> sol (aug_rows n cols (zeros n)) v.
Proof.
  intros H. unfold aug_rows, normal_rows. apply in_kernel_sol.
  by apply cols_len_aug.
Qed.

(** Lemma B: the two systems are singular together. *)
Lemma nonsingular_aug_centered n cols y y' :
  cols_len n cols -> n <> O ->
  nonsingular (S (length cols)) (aug_rows n cols y)
  <-> nonsingular (length cols) (centered_rows cols y').
Proof.
  intros H Hn. split; intros Hns.
  - intros v Hv Hk. apply (in_kernel_centered n) in Hk; [|done].
    set (c0 := - mean (vsub (mulv n cols v) (zeros n))).
    assert (Hs : sol (aug_rows n cols (zeros n)) (v ++ [c0])).
    { apply sol_aug_centered; auto using length_zeros. }
    apply (in_kernel_aug n cols y) in Hs; [|done].
    apply Hns in Hs; [|rewrite length_app; simpl; lia].
    rewrite zeros_snoc in Hs. by apply app_inj_tail in Hs as [-> _].
  - intros w Hw Hk. apply list_snoc_inv in Hw as (v & c0 & -> & Hv).
    apply (in_kernel_aug n) in Hk; [|done].
    apply sol_aug_centered in Hk as [Hc0 Hs]; auto using length_zeros.
    apply (in_kernel_centered n cols y') in Hs; [|done].
    apply Hns in Hs; [|done]. subst v.
    rewrite mulv_zeros_r in Hc0 by done.
    rewrite (vsub_zeros_r n) in Hc0 by apply length_zeros.
    unfold mean in Hc0. rewrite total_zeros in Hc0.
    rewrite zeros_snoc. f_equal. f_equal. rewrite Hc0. unfold Rdiv. lra.
Qed.

Lemma length_gram cols : length (gram cols) = length cols.
Proof. apply length_map. Qed.
Lemma length_xty cols y : length (xty cols y) = length cols.
Proof. apply length_map. Qed.

Lemma wf_rows_gram cols y :
  wf_rows (length cols) (zip (gram cols) (xty cols y)).
Proof.
  unfold wf_rows, gram, xty. rewrite zip_map_same, Forall_map.
  apply Forall_forall. intros c _. simpl. by rewrite length_map.
Qed.

Lemma length_rows_gram cols y :
  length (zip (gram cols) (xty cols y)) = length cols.
Proof. unfold gram, xty. by rewrite zip_map_same, length_map. Qed.

(** Solving on the centred data and recovering the intercept is the same
    as solving with the all-ones column in the matrix. *)
Lemma solve_centered_aug n cols y :
  cols_len n cols -> length y = n -> n <> O ->
  solve_vec (gram (cols ++ [ones n])) (xty (cols ++ [ones n]) y)
  = match solve_vec (gram (map center cols)) (xty (map center cols) (center y)) with
    | Return b => Return (b ++ [mean y - dot (map mean cols) b])
    | Raise e => Raise e
    end.
Proof.
  intros H Hy Hn. unfold solve_vec. rewrite !length_gram.
  rewrite length_app, length_map. simpl.
  replace (length cols + 1)%nat with (S (length cols)) by lia.
  pose proof (wf_rows_gram (map center cols) (center y)) as Hwc.
  pose proof (length_rows_gram (map center cols) (center y)) as Hlc.
  pose proof (wf_rows_gram (cols ++ [ones n]) y) as Hwa.
  pose proof (length_rows_gram (cols ++ [ones n]) y) as Hla.
  rewrite length_map in Hwc, Hlc. rewrite length_app in Hwa, Hla. simpl in Hwa, Hla.
  replace (length cols + 1)%nat with (S (length cols)) in Hwa, Hla by lia.
  change (zip (gram (map center cols)) (xty (map center cols) (center y)))
    with (centered_rows cols y) in *.
  change (zip (gram (cols ++ [ones n])) (xty (cols ++ [ones n]) y))
    with (aug_rows n cols y) in *.
  destruct (gauss (length cols) (centered_rows cols y)) as [b|] eqn:E.
  - pose proof (gauss_length _ _ _ E) as Hb.
    pose proof (gauss_sound _ _ _ Hwc Hlc E) as Hs.
    pose proof (gauss_Some_nonsingular _ _ _ Hwc Hlc E) as Hns.
    rewrite (gauss_spec _ _ (b ++ [mean y - dot (map mean cols) b])); auto.
    + by apply (nonsingular_aug_centered n cols y y).
    + rewrite length_app. simpl. lia.
    + apply sol_aug_centered; auto. split; [|done].
      rewrite mean_vsub by (rewrite length_mulv; done).
      rewrite (mean_mulv n) by done. lra.
  - rewrite gauss_singular; auto.
    intros Hns. apply (nonsingular_aug_centered n cols y y) in Hns; [|done..].
    destruct (gauss_None_singular _ _ Hwc Hlc E) as (v & Hv & Hnz & Hk).
    apply Hnz. by apply Hns.
Qed.

End CenteringFacts.

(** ** The solver on matrices *)

Module SolveFacts.
Import LinAlg LinAlgFacts.
Local Open Scope R_scope.

Lemma in_kernel_zip (a : list (list R)) (b : list R) v :
  (length a <= length b)%nat ->
  in_kernel (zip a b) v <-> Forall (fun r => dot r v = 0) a.
Proof.
  intros H. unfold in_kernel.
  rewrite <- (fst_zip a b) at 2 by done. by rewrite Forall_map.
Qed.

Lemma nonsingular_zip a b :
  length b = length a -> nonsingular (length a) (zip a b) <-> invertible a.
Proof.
  intros H. unfold nonsingular, invertible. split; intros Hn v Hv Hk.
  - apply Hn; [done|]. apply in_kernel_zip; [lia|done].
  - apply Hn; [done|]. apply in_kernel_zip in Hk; [done|lia].
Qed.

Lemma wf_rows_zip a b : square a -> wf_rows (length a) (zip a b).
Proof.
  intros H. unfold wf_rows, square in *. rewrite Forall_forall in H.
  apply Forall_forall. intros [r x] Hin. simpl.
  apply H. apply elem_of_zip_l in Hin. done.
Qed.

Lemma length_zip_eq {A B} (a : list A) (b : list B) :
  length b = length a -> length (zip a b) = length a.
Proof. intros H. rewrite length_zip_with. lia. Qed.

(** [solve_vec] returns the solution of an invertible system. *)
Lemma solve_vec_spec a b x :
  square a -> length b = length a -> invertible a ->
  length x = length a -> sol (zip a b) x -> solve_vec a b = Return x.
Proof.
  intros Hsq Hb Hinv Hx Hs. unfold solve_vec.
  rewrite (gauss_spec _ _ x); auto using wf_rows_zip, length_zip_eq.
  by apply nonsingular_zip.
Qed.

Lemma solve_vec_total a b :
  square a -> length b = length a -> invertible a ->
  exists x, solve_vec a b = Return x /\ length x = length a /\ sol (zip a b) x.
Proof.
  intros Hsq Hb Hinv. unfold solve_vec.
  destruct (gauss (length a) (zip a b)) as [x|] eqn:E.
  - exists x. split; [done|]. split; [by eapply gauss_length|].
    eapply gauss_sound; eauto using wf_rows_zip, length_zip_eq.
  - destruct (gauss_None_singular _ _ (wf_rows_zip a b Hsq)
                (length_zip_eq a b Hb) E) as (v & Hv & Hnz & Hk).
    destruct Hnz. apply Hinv; [done|]. apply in_kernel_zip in Hk; [done|lia].
Qed.

Lemma solve_vec_singular a b :
  square a -> length b = length a -> ~ invertible a ->
  solve_vec a b = Raise LinAlgError.
Proof.
  intros Hsq Hb Hinv. unfold solve_vec.
  rewrite gauss_singular; auto using wf_rows_zip, length_zip_eq.
  by rewrite nonsingular_zip.
Qed.

Lemma solve_vec_Return_invertible a b x :
  square a -> length b = length a -> solve_vec a b = Return x -> invertible a.
Proof.
  intros Hsq Hb. unfold solve_vec.
  destruct (gauss (length a) (zip a b)) as [x'|] eqn:E; [|done]. intros _.
  apply (nonsingular_zip a b Hb).
  eapply gauss_Some_nonsingular; eauto using wf_rows_zip, length_zip_eq.
Qed.

Lemma solve_columns_total a bs :
  square a -> invertible a -> Forall (fun b => length b = length a) bs ->
  exists xs, solve_columns a bs = Return xs.
Proof.
  intros Hsq Hinv H. induction H as [|b bs Hb H IH]; simpl; [by eexists|].
  destruct (solve_vec_total a b Hsq Hb Hinv) as (x & -> & _).
  destruct IH as (xs & ->). by eexists.
Qed.

Lemma transpose_lengths m (b : list (list R)) :
  Forall (fun c => length c = length b) (transpose m b).
Proof.
  unfold transpose. rewrite Forall_map. apply Forall_forall. intros j _.
  simpl. by rewrite length_map.
Qed.

(** With an invertible matrix, [solve] returns for every right-hand side
    that has as many rows. *)
Lemma solve_total a m b :
  square a -> invertible a -> length b = length a ->
  exists V, solve a m b = Return V.
Proof.
  intros Hsq Hinv Hb. unfold solve.
  destruct (solve_columns_total a (transpose m b) Hsq Hinv) as (xs & ->).
  - rewrite <- Hb. apply transpose_lengths.
  - by eexists.
Qed.

Lemma solve_Raise a m b e : solve a m b = Raise e -> e = LinAlgError.
Proof.
  unfold solve. generalize (transpose m b). intros bs.
  assert (H : forall e', solve_columns a bs = Raise e' -> e' = LinAlgError).
  { induction bs as [|c bs IH]; simpl; [done|]. intros e'.
    unfold solve_vec at 1. destruct (gauss _ _); [|by intros [= <-]].
    destruct (solve_columns a bs); [done|]. intros [= <-]. by apply IH. }
  destruct (solve_columns a bs) eqn:E; [done|]. intros [= <-]. by apply H.
Qed.

Lemma solve_vec_Raise a b e : solve_vec a b = Raise e -> e = LinAlgError.
Proof. unfold solve_vec. destruct (gauss _ _); [done|]. by intros [= <-]. Qed.

Lemma square_gram cols : square (gram cols).
Proof.
  unfold square, gram. rewrite Forall_map. apply Forall_forall. intros c _.
  simpl. by rewrite !length_map.
Qed.

End SolveFacts.

Module FitFacts.
Import LinAlg Pandas Systems Model LinAlgFacts CenteringFacts SolveFacts.
Local Open Scope R_scope.

(** Reduce the attribute reads and writes of [_fit]. *)
Ltac fit_cbn :=
  cbn [intercept given_ex given_re ex re bhat fitted residuals std_err_est
       std_err_vars var t_vals p_vals training_data training_x training_y
       training_x_means training_y_mean categorical_levels
       set_categorical_levels set_training_data set_ex set_re set_training_x
       set_training_x_means set_training_y set_training_y_mean set_bhat
       set_fitted set_residuals set_std_err_est set_std_err_vars set_var
       set_t_vals set_p_vals linalg_solve_vec linalg_solve exact_numpy
       fst snd] in *.


Lemma frame_eta X : mkDataFrame (index_len X) (cols X) = X.
Proof. by destruct X. Qed.

Lemma values_frame_sub_mean X :
  values (frame_sub X (frame_mean X)) = map center (values X).
Proof.
  unfold values, frame_sub, frame_mean. simpl.
  induction (cols X) as [|c cs IH]; simpl; [done|]. by rewrite IH.
Qed.

Lemma labels_frame_sub_mean X : labels (frame_sub X (frame_mean X)) = labels X.
Proof.
  unfold labels, frame_sub, frame_mean. simpl.
  induction (cols X) as [|c cs IH]; simpl; [done|]. by rewrite IH.
Qed.

Lemma unshift_shift a u : unshift a (shift a u) = u.
Proof.
  unfold unshift, shift. rewrite map_map. rewrite <- (map_id u) at 2.
  apply map_ext. intros x. lra.
Qed.

Lemma unshift_center u : unshift (mean u) (center u) = u.
Proof. apply unshift_shift. Qed.

Lemma frame_add_sub_mean X :
  frame_add (frame_sub X (frame_mean X)) (frame_mean X) = X.
Proof.
  rewrite <- (frame_eta X) at 4. unfold frame_add, frame_sub, frame_mean. simpl.
  f_equal. induction (cols X) as [|[l c] cs IH]; simpl; [done|].
  rewrite IH. by rewrite unshift_shift.
Qed.

Lemma map_snd_frame_mean X : map snd (frame_mean X) = map mean (values X).
Proof. unfold frame_mean, values. rewrite !map_map. done. Qed.

Lemma loc_set_fresh {A} (label : string) (v : A) s :
  label ∉ map fst s -> loc_set label v s = s ++ [(label, v)].
Proof.
  induction s as [|[l x] s IH]; simpl; [done|]. intros Hn.
  apply not_elem_of_cons in Hn as [Hne Hn].
  destruct (String.eqb_spec l label) as [->|_]; [done|]. by rewrite IH.
Qed.

Lemma setitem_scalar_fresh X label x :
  label ∉ labels X ->
  setitem_scalar X label x
  = mkDataFrame (index_len X) (cols X ++ [(label, repeat x (index_len X))]).
Proof. intros H. unfold setitem_scalar. by rewrite loc_set_fresh. Qed.

Lemma zip_snoc {A B} (l : list A) (k : list B) a b :
  length l = length k -> zip (l ++ [a]) (k ++ [b]) = zip l k ++ [(a, b)].
Proof.
  revert k; induction l as [|x l IH]; intros [|y k] H; simpl in *; try done.
  by rewrite IH by lia.
Qed.

Lemma fst_zip_eq {A B} (l : list A) (k : list B) :
  length l = length k -> map fst (zip l k) = l.
Proof. intros H. apply fst_zip. lia. Qed.

Lemma snd_zip_eq {A B} (l : list A) (k : list B) :
  length l = length k -> map snd (zip l k) = k.
Proof. intros H. apply snd_zip. lia. Qed.

Lemma values_snoc n cs l c :
  values (mkDataFrame n (cs ++ [(l, c)])) = map snd cs ++ [c].
Proof. unfold values. simpl. by rewrite map_app. Qed.

Lemma labels_snoc n cs (l : string) (c : list R) :
  labels (mkDataFrame n (cs ++ [(l, c)])) = map fst cs ++ [l].
Proof. unfold labels. simpl. by rewrite map_app. Qed.

Lemma cols_len_values X : wf_frame X -> cols_len (index_len X) (values X).
Proof. intros H. unfold cols_len, values. by rewrite Forall_map. Qed.

Lemma length_values X : length (values X) = length (cols X).
Proof. apply length_map. Qed.
Lemma length_labels X : length (labels X) = length (cols X).
Proof. apply length_map. Qed.

Section Fit.
Context (C : Collaborator) (Sci : Scipy).





Lemma solve_vec_length a b x : solve_vec a b = Return x -> length x = length a.
Proof.
  unfold solve_vec. destruct (gauss _ _) eqn:E; [|done]. intros [= <-].
  by eapply gauss_length.
Qed.

Lemma length_identity k : length (identity k) = k.
Proof. unfold identity. by rewrite length_map, length_seq. Qed.

Lemma length_mscale a m : length (mscale a m) = length m.
Proof. apply length_map. Qed.

Lemma invertible_aug n cols y :
  invertible (gram (cols ++ [ones n]))
  <-> nonsingular (S (length cols)) (aug_rows n cols y).
Proof.
  unfold aug_rows, normal_rows.
  rewrite <- (nonsingular_zip (gram (cols ++ [ones n])) (xty (cols ++ [ones n]) y))
    by (by rewrite length_gram, length_xty).
  rewrite length_gram, length_app. simpl.
  by replace (length cols + 1)%nat with (S (length cols)) by lia.
Qed.

(** The state and result of [_fit] with an intercept, on data whose
    normal equations (with the all-ones column) have the unique solution
    [b]. *)
Lemma fit_intercept_spec (data : Data C) (self : LinearModel C) X y b :
  intercept C self = true ->
  evaluate C (interpret C (copy C (given_ex C self)) data) data true = Return X ->
  evaluate_response C (interpret C (copy C (given_re C self)) data) data = Return y ->
  wf_frame X -> length (snd y) = index_len X -> index_len X <> O ->
  "Intercept" ∉ labels X ->
  invertible (gram (values X ++ [ones (index_len X)])) ->
  length b = S (length (cols X)) ->
  sol (aug_rows (index_len X) (values X) (snd y)) b ->
  let n := index_len X in
  let lab := labels X ++ ["Intercept"] in
  let fit_v := mulv n (values X ++ [ones n]) b in
  let res := vsub (snd y) fit_v in
  let df := (shape0 X - shape1 X - 1)%Z in
  let sigma := sqrt (sum_sq res / IZR df) in
  exists V summary self',
    solve (gram (values X ++ [ones n])) (S (length (cols X)))
      (mscale (sigma ^ 2) (identity (S (length (cols X))))) = Return V /\
    _fit C Sci data self = (Return summary, self') /\
    bhat C self' = Some (zip lab b) /\
    fitted C self' = Some fit_v /\
    residuals C self' = Some res /\
    std_err_est C self' = Some sigma /\
    var C self' = Some (lab, V) /\
    std_err_vars C self' = Some (zip lab (map sqrt (diagonal V))) /\
    t_vals C self'
      = Some (zip_with (fun b s => (fst b, snd b / snd s)) (zip lab b)
                (zip lab (map sqrt (diagonal V)))) /\
    p_vals C self'
      = Some (map (fun t => (fst t, 2 * t_cdf Sci (- Rabs (snd t)) df))
                (zip_with (fun b s => (fst b, snd b / snd s)) (zip lab b)
                   (zip lab (map sqrt (diagonal V))))) /\
    training_data C self' = Some data /\
    training_x C self' = Some X /\
    training_y C self' = Some y /\
    ex C self' = Some (interpret C (copy C (given_ex C self)) data) /\
    re C self' = Some (interpret C (copy C (given_re C self)) data) /\
    intercept C self' = true /\
    categorical_levels C self' = ∅.
Proof.
  intros Hi Hx Hy Hwf Hl Hn Hlab Hinv Hb Hs n lab fit_v res df sigma.
  pose proof (cols_len_values X Hwf) as Hcl.
  assert (Hsv : solve_vec (gram (values X ++ [ones n])) (xty (values X ++ [ones n]) (snd y))
                = Return b).
  { apply solve_vec_spec; auto using square_gram.
    - by rewrite length_gram, length_xty.
    - rewrite length_gram, length_app, length_values. simpl. lia. }
  rewrite (solve_centered_aug n) in Hsv by done.
  destruct (solve_vec (gram (map center (values X))) _) as [bc|] eqn:Ec; [|done].
  injection Hsv as Hbeq.
  pose proof (solve_vec_length _ _ _ Ec) as Hbc.
  rewrite length_gram, length_map, length_values in Hbc.
  destruct (solve_total (gram (values X ++ [ones n])) (S (length (cols X)))
              (mscale (sigma ^ 2) (identity (S (length (cols X))))))
    as (V & HV); auto using square_gram.
  { rewrite length_mscale, length_identity, length_gram, length_app, length_values.
    simpl. lia. }
  exists V.
  unfold _fit, _fit_with. fit_cbn.
  rewrite Hx, Hy. fit_cbn. rewrite Hi.
  rewrite values_frame_sub_mean, labels_frame_sub_mean, frame_add_sub_mean.
  rewrite map_snd_frame_mean.
  change (index_len (frame_sub X (frame_mean X))) with (index_len X).
  rewrite length_shift, Hl, Nat.eqb_refl. cbn [negb].
  rewrite (setitem_scalar_fresh X "Intercept" 1 Hlab).
  change (shift (mean y.2) y.2) with (center y.2).
  rewrite Ec.
  rewrite snd_zip_eq by (by rewrite length_labels).
  rewrite loc_set_fresh by (by rewrite fst_zip_eq by (by rewrite length_labels)).
  rewrite <- zip_snoc by (by rewrite length_labels).
  rewrite Hbeq. fold lab.
  cbn [cols index_len].
  rewrite length_app, length_zip_eq; cycle 1.
  { unfold lab. rewrite !length_app, length_labels. simpl. lia. }
  unfold lab at 1. rewrite length_app, length_labels. cbn [length].
  rewrite Nat.eqb_refl. cbn [negb].
  rewrite !unshift_center.
  rewrite !values_snoc, ?labels_snoc. fold (values X) (labels X). fold lab.
  change (repeat 1 (index_len X)) with (ones n).
  rewrite snd_zip_eq by (unfold lab; rewrite length_app, length_labels; simpl; lia).
  fold n fit_v res.
  replace (shape0 {| index_len := n; cols := cols X ++ [("Intercept", ones n)] |}
           - (shape1 {| index_len := n; cols := cols X ++ [("Intercept", ones n)] |} - 1) - 1)%Z
    with df.
  2:{ unfold df, shape0, shape1. cbn [cols index_len]. rewrite length_app. simpl. lia. }
  fold sigma.
  replace (length (cols X) + 1)%nat with (S (length (cols X))) by lia.
  rewrite HV.
  eexists _, _. split; [done|]. split; [reflexivity|]. fit_cbn.
  rewrite fst_zip_eq by (unfold lab; rewrite length_app, length_labels; simpl; lia).
  rewrite Hi. repeat split; reflexivity.
Qed.


(** Whatever the solver, when the first solve raises, [_fit] raises the
    same exception and leaves behind the state in which only the attributes
    assigned before the solve are new. *)
Lemma fit_first_solve_raises {T} (Np : Numpy) (reduce : Expr C -> result T)
    (data : Data C) (self : LinearModel C) X y e :
  is_Return (reduce (interpret C (copy C (given_ex C self)) data)) ->
  evaluate C (interpret C (copy C (given_ex C self)) data) data true = Return X ->
  evaluate_response C (interpret C (copy C (given_re C self)) data) data = Return y ->
  length (snd y) = index_len X ->
  linalg_solve_vec Np (gram (design_cols (intercept C self) X))
    (xty (design_cols (intercept C self) X)
       (if intercept C self then center (snd y) else snd y)) = Raise e ->
  _fit_with C Sci Np reduce data self
  = (Raise e,
     mkLinearModel C (given_ex C self) (given_re C self) (intercept C self)
       (Some (interpret C (copy C (given_ex C self)) data))
       (Some (interpret C (copy C (given_re C self)) data))
       (bhat C self) (fitted C self) (residuals C self) (std_err_est C self)
       (std_err_vars C self) (var C self) (t_vals C self) (p_vals C self)
       (Some data) (Some X) (Some y) (Some (frame_mean X))
       (Some (mean (snd y))) ∅).
Proof.
  intros Hred Hx Hy Hl E.
  unfold _fit_with. fit_cbn.
  destruct (reduce _) as [terms|]; [|done].
  rewrite Hx, Hy. fit_cbn.
  unfold design_cols in E.
  destruct (intercept C self) eqn:Hi.
  - rewrite values_frame_sub_mean.
    change (index_len (frame_sub X (frame_mean X))) with (index_len X).
    rewrite length_shift, Hl, Nat.eqb_refl. cbn [negb].
    change (shift (mean y.2) y.2) with (center y.2).
    rewrite E. unfold set_training_y_mean. fit_cbn. by rewrite Hi.
  - rewrite Hl, Nat.eqb_refl. cbn [negb].
    rewrite E. unfold set_training_y_mean. fit_cbn. by rewrite Hi.
Qed.

(** When the first solve fails, [_fit] raises and leaves behind the
    state in which only the attributes assigned before the solve are
    new. *)
Lemma fit_singular_spec (data : Data C) (self : LinearModel C) X y :
  evaluate C (interpret C (copy C (given_ex C self)) data) data true = Return X ->
  evaluate_response C (interpret C (copy C (given_re C self)) data) data = Return y ->
  length (snd y) = index_len X ->
  ~ invertible (gram (design_cols (intercept C self) X)) ->
  exists self',
    _fit C Sci data self = (Raise LinAlgError, self') /\
    (* left over from before the call *)
    bhat C self' = bhat C self /\
    fitted C self' = fitted C self /\
    residuals C self' = residuals C self /\
    std_err_est C self' = std_err_est C self /\
    var C self' = var C self /\
    std_err_vars C self' = std_err_vars C self /\
    t_vals C self' = t_vals C self /\
    p_vals C self' = p_vals C self /\
    (* already overwritten *)
    training_data C self' = Some data /\
    training_x C self' = Some X /\
    training_y C self' = Some y /\
    training_x_means C self' = Some (frame_mean X) /\
    training_y_mean C self' = Some (mean (snd y)) /\
    ex C self' = Some (interpret C (copy C (given_ex C self)) data) /\
    re C self' = Some (interpret C (copy C (given_re C self)) data) /\
    categorical_levels C self' = ∅.
Proof.
  intros Hx Hy Hl Hinv.
  unfold _fit, _fit_with. fit_cbn. rewrite Hx, Hy. fit_cbn.
  unfold design_cols in Hinv.
  destruct (intercept C self) eqn:Hi.
  - rewrite values_frame_sub_mean.
    change (index_len (frame_sub X (frame_mean X))) with (index_len X).
    rewrite length_shift, Hl, Nat.eqb_refl. cbn [negb].
    rewrite solve_vec_singular; auto using square_gram.
    + eexists. split; [reflexivity|]. fit_cbn. repeat split; reflexivity.
    + by rewrite length_gram, length_xty.
  - rewrite Hl, Nat.eqb_refl. cbn [negb].
    rewrite solve_vec_singular; auto using square_gram.
    + eexists. split; [reflexivity|]. fit_cbn. repeat split; reflexivity.
    + by rewrite length_gram, length_xty.
Qed.

Lemma values_setitem_intercept X :
  "Intercept" ∉ labels X ->
  values (setitem_scalar X "Intercept" 1) = values X ++ [ones (index_len X)].
Proof. intros H. rewrite setitem_scalar_fresh by done. apply values_snoc. Qed.

Lemma labels_setitem_intercept X :
  "Intercept" ∉ labels X ->
  labels (setitem_scalar X "Intercept" 1) = labels X ++ ["Intercept"].
Proof. intros H. rewrite setitem_scalar_fresh by done. apply labels_snoc. Qed.

(** C1.  With the intercept flag set, [_fit] (centre [X] and [y], solve
    the normal equations, recover the intercept as [y_mean - X_means . b])
    stores the coefficient vector that ordinary least squares on the
    uncentred [X] with an all-ones [Intercept] column appended gives,
    Intercept entry included, and fails exactly when that system is
    singular; the fitted values are the product of that uncentred, extended
    matrix with the coefficients. *)
Theorem C1_centering_refines_explicit_intercept
    (data : Data C) (self : LinearModel C) X y :
  intercept C self = true ->
  evaluate C (interpret C (copy C (given_ex C self)) data) data true = Return X ->
  evaluate_response C (interpret C (copy C (given_re C self)) data) data = Return y ->
  wf_frame X -> length (snd y) = index_len X -> index_len X <> O ->
  "Intercept" ∉ labels X ->
  match ols_explicit_intercept X (snd y) with
  | Return b =>
      is_Return (fst (_fit C Sci data self)) /\
      bhat C (snd (_fit C Sci data self)) = Some b /\
      fitted C (snd (_fit C Sci data self))
      = Some (mulv (index_len X) (values (setitem_scalar X "Intercept" 1)) (map snd b))
  | Raise e => fst (_fit C Sci data self) = Raise e
  end.
Proof.
  intros Hi Hx Hy Hwf Hl Hn Hlab.
  pose proof (cols_len_values X Hwf) as Hcl.
  unfold ols_explicit_intercept.
  rewrite values_setitem_intercept, labels_setitem_intercept by done.
  set (n := index_len X).
  assert (Hlen : length (xty (values X ++ [ones n]) (snd y))
                 = length (gram (values X ++ [ones n]))).
  { by rewrite length_gram, length_xty. }
  destruct (solve_vec (gram (values X ++ [ones n])) _) as [b|e] eqn:E.
  - pose proof (solve_vec_Return_invertible _ _ _ (square_gram _) Hlen E) as Hinv.
    destruct (solve_vec_total _ _ (square_gram _) Hlen Hinv) as (b' & E' & Hb & Hs).
    rewrite E in E'. injection E' as <-.
    rewrite length_gram, length_app, length_values in Hb. simpl in Hb.
    destruct (fit_intercept_spec data self X y b) as
      (V & summ & self' & _ & Hfit & Hbhat & Hfitted & _); auto; [lia|].
    rewrite Hfit. cbn [fst snd]. split; [done|]. split; [done|].
    rewrite Hfitted. f_equal. f_equal.
    rewrite snd_zip_eq; [done|]. rewrite length_app, length_labels. simpl. lia.
  - rewrite (solve_centered_aug n) in E by done.
    destruct (solve_vec (gram (map center (values X))) _) as [bc|e'] eqn:Ec; [done|].
    injection E as <-.
    pose proof (solve_vec_Raise _ _ _ Ec) as ->.
    destruct (fit_singular_spec data self X y Hx Hy Hl) as (self' & -> & _); [|done].
    rewrite Hi. unfold design_cols. intros Hinv.
    destruct (solve_vec_total (gram (map center (values X)))
                (xty (map center (values X)) (center (snd y)))) as (x & Hx' & _);
      auto using square_gram.
    + by rewrite length_gram, length_xty.
    + congruence.
Qed.

End Fit.
End FitFacts.

(** ** The model on concrete data *)

Module ExampleFacts.
Import LinAlg Pandas Systems Model Examples LinAlgFacts CenteringFacts SolveFacts FitFacts.
Local Open Scope R_scope.

Lemma wf_X4 : wf_frame X4.
Proof. repeat constructor. Qed.

Lemma intercept_fresh_x : "Intercept" ∉ labels X4.
Proof. intros H%list_elem_of_singleton. discriminate. Qed.

(** C1, at the four-point data. *)
Lemma C1_witness :
  match ols_explicit_intercept X4 (snd y4) with
  | Return b =>
      is_Return (fst (_fit table_collaborator scipy_2df data4 model_xy)) /\
      bhat _ (snd (_fit table_collaborator scipy_2df data4 model_xy)) = Some b /\
      fitted _ (snd (_fit table_collaborator scipy_2df data4 model_xy))
      = Some (mulv (index_len X4) (values (setitem_scalar X4 "Intercept" 1)) (map snd b))
  | Raise e => fst (_fit table_collaborator scipy_2df data4 model_xy) = Raise e
  end.
Proof.
  apply (C1_centering_refines_explicit_intercept table_collaborator scipy_2df
           data4 model_xy X4 y4).
  - reflexivity.
  - reflexivity.
  - reflexivity.
  - exact wf_X4.
  - reflexivity.
  - discriminate.
  - exact intercept_fresh_x.
Defined.


Ltac la_cbn :=
  cbn [gram xty dot map app values labels cols index_len snd fst ones zeros repeat
       mulv vadd vsub scale zip_with length total fold_right sum_sq
       aug_rows normal_rows X4 y4 shape0 shape1 Z.of_nat Pos.of_succ_nat Pos.succ] in *.

Lemma invertible_X4 : invertible (gram (values X4 ++ [ones (index_len X4)])).
Proof.
  intros v Hv Hk. la_cbn.
  destruct v as [|a [|c [|]]]; try discriminate.
  apply Forall_cons in Hk as [H1 Hk]. apply Forall_cons in Hk as [H2 _].
  la_cbn. f_equal; [lra|]. f_equal. lra.
Qed.

Lemma sol_X4 : sol (aug_rows (index_len X4) (values X4) (snd y4)) [1; 0].
Proof. la_cbn. repeat constructor; la_cbn; lra. Qed.


Lemma sigma_data4 :
  sqrt (sum_sq (vsub (snd y4) (mulv 4 (values X4 ++ [ones 4]) [1; 0]))
        / IZR (shape0 X4 - shape1 X4 - 1)) = sqrt 2.
Proof.
  f_equal. change (shape0 X4 - shape1 X4 - 1)%Z with 2%Z. la_cbn. lra.
Qed.

Lemma solve_data4 :
  solve (gram (values X4 ++ [ones 4])) 2 (mscale (sqrt 2 ^ 2) (identity 2))
  = Return [[2 / 5; -1]; [-1; 3]].
Proof.
  rewrite pow2_sqrt by lra.
  unfold solve.
  change (transpose 2 (mscale 2 (identity 2))) with [[2 * 1; 2 * 0]; [2 * 0; 2 * 1]].
  cbn [solve_columns].
  rewrite (solve_vec_spec _ _ [2 / 5; -1]);
    [|auto using square_gram, invertible_X4; la_cbn; repeat constructor; la_cbn; lra..].
  rewrite (solve_vec_spec _ _ [-1; 3]);
    [|auto using square_gram, invertible_X4; la_cbn; repeat constructor; la_cbn; lra..].
  reflexivity.
Qed.

Section AnyScipy.
Context (Sci : Scipy).

Lemma fit_data4 :
  is_Return (fst (_fit table_collaborator Sci data4 model_xy)) /\
  bhat _ (fitted4 Sci) = Some [("x", 1); ("Intercept", 0)] /\
  fitted _ (fitted4 Sci) = Some (mulv 4 (values X4 ++ [ones 4]) [1; 0]) /\
  std_err_est _ (fitted4 Sci) = Some (sqrt 2) /\
  var _ (fitted4 Sci) = Some (["x"; "Intercept"], [[2 / 5; -1]; [-1; 3]]) /\
  training_data _ (fitted4 Sci) = Some data4 /\
  training_x _ (fitted4 Sci) = Some X4 /\
  training_y _ (fitted4 Sci) = Some y4 /\
  ex _ (fitted4 Sci) = Some ["x"] /\
  re _ (fitted4 Sci) = Some ["y"] /\
  intercept _ (fitted4 Sci) = true.
Proof.
  destruct (fit_intercept_spec table_collaborator Sci data4 model_xy X4 y4 [1; 0])
    as (V & summ & self' & HV & Hfit & Hb & Hf & Hr & Hs & Hv & _ & _ & _ & Htd & Htx & Hty & Hex & Hre & Hi & _);
    auto using wf_X4, intercept_fresh_x, invertible_X4, sol_X4.
  unfold fitted4. rewrite Hfit. cbn [fst snd].
  change (index_len X4) with 4%nat in *.
  rewrite sigma_data4 in *.
  change (S (length (cols X4))) with 2%nat in HV.
  rewrite solve_data4 in HV. injection HV as <-.
  repeat split; assumption.
Qed.


Lemma get_sse_fitted4 : get_sse _ (fitted4 Sci) = Return 4.
Proof.
  destruct fit_data4 as (_ & _ & Hf & _ & _ & _ & _ & Hy & _).
  unfold get_sse. rewrite Hy, Hf. f_equal. unfold iloc_col0. la_cbn. lra.
Qed.

Lemma quad_form_X_new4 :
  quad_form X_new4 ["x"; "Intercept"] [[2 / 5; -1]; [-1; 3]] = Return [7 / 5].
Proof.
  unfold quad_form.
  change (aligned (labels X_new4) ["x"; "Intercept"]) with true. cbv iota.
  change (reindex ["x"; "Intercept"] (cols X_new4)) with (Some [[4]; [1]]). cbv iota.
  change (transpose (length ["x"; "Intercept"]) [[2 / 5; -1]; [-1; 3]])
    with [[2 / 5; -1]; [-1; 3]].
  unfold hadamard. change (index_len X_new4) with 1%nat. la_cbn. do 2 f_equal. lra.
Qed.

Lemma prediction_width_fitted4 alpha :
  _prediction_interval_width _ Sci (fitted4 Sci) X_new4 alpha
  = Return [t_ppf Sci (1 - alpha / 2) 2 * sqrt (2 + 7 / 5)].
Proof.
  destruct fit_data4 as (_ & _ & _ & _ & Hv & _ & Hx & _).
  unfold _prediction_interval_width. rewrite Hx, get_sse_fitted4, Hv, quad_form_X_new4.
  change (shape0 X4 - shape1 X_new4)%Z with 2%Z. cbn [map].
  do 4 f_equal. lra.
Qed.

Lemma confidence_width_fitted4 alpha :
  _confidence_interval_width _ Sci (fitted4 Sci) X_new4 alpha
  = Return [sqrt (2 * f_ppf Sci (1 - alpha / 2) 2 2) * sqrt (7 / 5)].
Proof.
  destruct fit_data4 as (_ & _ & _ & _ & Hv & _ & Hx & _).
  unfold _confidence_interval_width. rewrite Hx, Hv, quad_form_X_new4.
  change (shape0 X4 - shape1 X_new4)%Z with 2%Z.
  change (shape1 X_new4) with 2%Z. reflexivity.
Qed.

End AnyScipy.

(** At 2 degrees of freedom and [alpha = 0.05] the prediction half-width
    is about 7.93 and the confidence-band half-width about 10.45. *)
Lemma widths_data4_order :
  t_ppf scipy_2df (1 - 5 / 100 / 2) 2 * sqrt (2 + 7 / 5)
  < sqrt (2 * f_ppf scipy_2df (1 - 5 / 100 / 2) 2 2) * sqrt (7 / 5).
Proof.
  cbn [t_ppf f_ppf scipy_2df].
  replace (2 * (1 - 5 / 100 / 2) - 1) with (19 / 20) by lra.
  replace (2 * (1 - 5 / 100 / 2) * (1 - (1 - 5 / 100 / 2))) with (39 / 800) by lra.
  replace (2 * ((1 - 5 / 100 / 2) / (1 - (1 - 5 / 100 / 2)))) with 78 by (field; lra).
  replace (2 + 7 / 5) with (17 / 5) by lra.
  rewrite <- sqrt_mult by lra.
  assert (Hu : 0 < sqrt (39 / 800)) by (apply sqrt_lt_R0; lra).
  assert (Hu2 : sqrt (39 / 800) * sqrt (39 / 800) = 39 / 800) by (apply sqrt_sqrt; lra).
  assert (Hv : 0 <= sqrt (17 / 5)) by apply sqrt_pos.
  assert (Hv2 : sqrt (17 / 5) * sqrt (17 / 5) = 17 / 5) by (apply sqrt_sqrt; lra).
  apply Rsqr_incrst_0.
  - rewrite Rsqr_sqrt by lra. unfold Rsqr.
    replace (19 / 20 / sqrt (39 / 800) * sqrt (17 / 5) *
             (19 / 20 / sqrt (39 / 800) * sqrt (17 / 5)))
      with ((19 / 20) * (19 / 20) * (sqrt (17 / 5) * sqrt (17 / 5))
            / (sqrt (39 / 800) * sqrt (39 / 800))) by (field; lra).
    rewrite Hu2, Hv2. lra.
  - apply Rmult_le_pos; [|done]. apply Rlt_le, Rdiv_lt_0_compat; lra.
  - apply sqrt_pos.
Qed.

End ExampleFacts.

(** ** Interval half-widths *)

Module IntervalFacts.
Import LinAlg Pandas Systems Model Examples FitFacts ExampleFacts.
Local Open Scope R_scope.

Lemma width_compare t W2 mse s :
  0 <= t -> 0 <= W2 -> 0 <= mse -> 0 <= s ->
  sqrt W2 * sqrt s <= t * sqrt (mse + s) <-> W2 * s <= t ^ 2 * (mse + s).
Proof.
  intros Ht HW Hm Hs.
  rewrite <- sqrt_mult by lra.
  rewrite <- (sqrt_pow2 t) at 1 by done.
  rewrite <- sqrt_mult by (try apply pow2_ge_0; lra).
  assert (0 <= W2 * s) by (apply Rmult_le_pos; lra).
  assert (0 <= t ^ 2 * (mse + s)).
  { apply Rmult_le_pos; [apply pow2_ge_0|lra]. }
  split; [by apply sqrt_le_0|by apply sqrt_le_1].
Qed.

Lemma width_pointwise t mse s :
  0 <= t -> 0 <= mse -> 0 <= s -> t * sqrt s <= t * sqrt (mse + s).
Proof.
  intros Ht Hm Hs. apply Rmult_le_compat_l; [done|]. apply sqrt_le_1; lra.
Qed.

Section Intervals.
Context (C : Collaborator) (Sci : Scipy).

(** C7 (amended).  The two half-widths are computed from the same
    quadratic form [s = x V x^T]: the prediction half-width is
    [t_crit * sqrt (MSE + s)], the confidence-band half-width
    [sqrt (p * F_crit) * sqrt s].  With non-negative critical values, MSE and
    [s], the prediction half-width is at least the confidence-band half-width
    exactly when [p * F_crit * s <= t_crit^2 * (MSE + s)]; it is always at
    least [t_crit * sqrt s], the pointwise half-width with the same t
    critical value. *)
Theorem C7_prediction_vs_confidence_width
    (self : LinearModel C) (X_new : DataFrame) (alpha : R) (pw cw : list R) :
  _prediction_interval_width C Sci self X_new alpha = Return pw ->
  _confidence_interval_width C Sci self X_new alpha = Return cw ->
  exists tx sse vl V s,
    training_x C self = Some tx /\ get_sse C self = Return sse /\
    var C self = Some (vl, V) /\ quad_form X_new vl V = Return s /\
    let df := (shape0 tx - shape1 X_new)%Z in
    let mse := sse / IZR df in
    let t := t_ppf Sci (1 - alpha / 2) df in
    let W2 := IZR (shape1 X_new) * f_ppf Sci (1 - alpha / 2) (shape1 X_new) df in
    pw = map (fun si => t * sqrt (mse + si)) s /\
    cw = map (fun si => sqrt W2 * sqrt si) s /\
    (0 <= t -> 0 <= W2 -> 0 <= mse ->
     forall i p c si,
       pw !! i = Some p -> cw !! i = Some c -> s !! i = Some si -> 0 <= si ->
       (c <= p <-> W2 * si <= t ^ 2 * (mse + si)) /\ t * sqrt si <= p).
Proof.
  unfold _prediction_interval_width, _confidence_interval_width.
  destruct (training_x C self) as [tx|] eqn:Etx; [|done].
  destruct (get_sse C self) as [sse|] eqn:Esse; [|done].
  destruct (var C self) as [[vl V]|] eqn:Evar; [|done].
  destruct (quad_form X_new vl V) as [s|] eqn:Eq; [|done].
  intros [= <-] [= <-]. rewrite !map_map. exists tx, sse, vl, V, s.
  do 4 (split; [done|]). cbv zeta.
  split; [reflexivity|]. split; [reflexivity|].
  intros Ht HW Hm i p c si Hp Hc Hs Hsi.
  rewrite list_lookup_fmap, Hs in Hp, Hc. simpl in Hp, Hc.
  injection Hp as <-. injection Hc as <-.
  split; [by apply width_compare|by apply width_pointwise].
Qed.

End Intervals.

(** C7 as stated fails: on the model fitted to four points
    ([x = 1, 2, 3, 4], [y = 2, 1, 2, 5]), at the new point [x = 4] and
    [alpha = 0.05], the prediction half-width is smaller than the
    confidence-band half-width. *)
Lemma C7_counterexample :
  is_Return (fst (_fit table_collaborator scipy_2df data4 model_xy)) /\
  exists pw cw,
    _prediction_interval_width table_collaborator scipy_2df (fitted4 scipy_2df)
      X_new4 (5 / 100) = Return [pw] /\
    _confidence_interval_width table_collaborator scipy_2df (fitted4 scipy_2df)
      X_new4 (5 / 100) = Return [cw] /\
    pw < cw.
Proof.
  split; [apply fit_data4|].
  eexists _, _. split; [apply prediction_width_fitted4|].
  split; [apply confidence_width_fitted4|]. apply widths_data4_order.
Qed.

(** C7 (amended), at the model fitted to [data4] and the new point [x = 4]. *)
Lemma C7_witness :
  exists tx sse vl V s,
    training_x _ (fitted4 scipy_2df) = Some tx /\
    get_sse _ (fitted4 scipy_2df) = Return sse /\
    var _ (fitted4 scipy_2df) = Some (vl, V) /\
    quad_form X_new4 vl V = Return s /\
    let df := (shape0 tx - shape1 X_new4)%Z in
    let mse := sse / IZR df in
    let t := t_ppf scipy_2df (1 - 5 / 100 / 2) df in
    let W2 := IZR (shape1 X_new4) * f_ppf scipy_2df (1 - 5 / 100 / 2) (shape1 X_new4) df in
    [t_ppf scipy_2df (1 - 5 / 100 / 2) 2 * sqrt (2 + 7 / 5)]
      = map (fun si => t * sqrt (mse + si)) s /\
    [sqrt (2 * f_ppf scipy_2df (1 - 5 / 100 / 2) 2 2) * sqrt (7 / 5)]
      = map (fun si => sqrt W2 * sqrt si) s /\
    (0 <= t -> 0 <= W2 -> 0 <= mse ->
     forall i p c si,
       [t_ppf scipy_2df (1 - 5 / 100 / 2) 2 * sqrt (2 + 7 / 5)] !! i = Some p ->
       [sqrt (2 * f_ppf scipy_2df (1 - 5 / 100 / 2) 2 2) * sqrt (7 / 5)] !! i = Some c ->
       s !! i = Some si -> 0 <= si ->
       (c <= p <-> W2 * si <= t ^ 2 * (mse + si)) /\ t * sqrt si <= p).
Proof.
  apply (C7_prediction_vs_confidence_width table_collaborator scipy_2df
           (fitted4 scipy_2df) X_new4 (5 / 100)).
  - apply prediction_width_fitted4.
  - apply confidence_width_fitted4.
Defined.

End IntervalFacts.

(** ** The stored state across [fit] calls *)

Module StateFacts.
Import LinAlg Pandas Systems Model Examples LinAlgFacts CenteringFacts SolveFacts FitFacts ExampleFacts.
Local Open Scope R_scope.

Ltac fit_cases :=
  repeat match goal with
         | |- context [match ?x with _ => _ end] => destruct x eqn:?
         end.

Section State.
Context (C : Collaborator) (Sci : Scipy).

(** [_fit] never assigns the formula or the intercept flag. *)
Lemma fit_preserves_formula (data : Data C) (self : LinearModel C) :
  given_ex C (snd (_fit C Sci data self)) = given_ex C self /\
  given_re C (snd (_fit C Sci data self)) = given_re C self /\
  intercept C (snd (_fit C Sci data self)) = intercept C self.
Proof.
  unfold _fit, _fit_with. fit_cbn.
  destruct (evaluate C _ data true) as [X|]; [|done].
  destruct (evaluate_response C _ data) as [y|]; [|done]. fit_cbn.
  destruct (negb _); [done|].
  destruct (solve_vec _ _) as [b|]; [|done]. fit_cbn.
  destruct (negb _); [done|].
  destruct (solve _ _ _) as [V|]; done.
Qed.

(** C8 (amended).  [_fit] assigns the stored attributes one after
    another.  Whatever [numpy.linalg.solve] does on the matrix, when the
    statements before it have returned and its first call raises, [_fit]
    raises that exception; the estimates of the previous fit (coefficients,
    fitted values, residuals, residual standard error, covariance matrix,
    standard errors, t-statistics, p-values) are unchanged, while the
    training data, the training X and y with their means, the interpreted
    expressions and the categorical level registry already hold the values
    of the failed call. *)
Theorem C8_failed_solve_leaves_partial_state
    {T} (Np : Numpy) (reduce : Expr C -> result T)
    (data : Data C) (self : LinearModel C) X y e :
  is_Return (reduce (interpret C (copy C (given_ex C self)) data)) ->
  evaluate C (interpret C (copy C (given_ex C self)) data) data true = Return X ->
  evaluate_response C (interpret C (copy C (given_re C self)) data) data = Return y ->
  length (snd y) = index_len X ->
  linalg_solve_vec Np (gram (design_cols (intercept C self) X))
    (xty (design_cols (intercept C self) X)
       (if intercept C self then center (snd y) else snd y)) = Raise e ->
  let self' := snd (_fit_with C Sci Np reduce data self) in
  fst (_fit_with C Sci Np reduce data self) = Raise e /\
  (bhat C self' = bhat C self /\
   fitted C self' = fitted C self /\
   residuals C self' = residuals C self /\
   std_err_est C self' = std_err_est C self /\
   var C self' = var C self /\
   std_err_vars C self' = std_err_vars C self /\
   t_vals C self' = t_vals C self /\
   p_vals C self' = p_vals C self) /\
  (training_data C self' = Some data /\
   training_x C self' = Some X /\
   training_y C self' = Some y /\
   training_x_means C self' = Some (frame_mean X) /\
   training_y_mean C self' = Some (mean (snd y)) /\
   ex C self' = Some (interpret C (copy C (given_ex C self)) data) /\
   re C self' = Some (interpret C (copy C (given_re C self)) data) /\
   categorical_levels C self' = ∅).
Proof.
  intros Hred Hx Hy Hl E self'. subst self'.
  rewrite (fit_first_solve_raises C Sci Np reduce data self X y e Hred Hx Hy Hl E).
  cbn [fst snd]. fit_cbn. repeat split; reflexivity.
Qed.

End State.


Lemma fitted4_formula Sci :
  given_ex table_collaborator (fitted4 Sci) = ["x"] /\
  given_re table_collaborator (fitted4 Sci) = ["y"] /\
  intercept table_collaborator (fitted4 Sci) = true.
Proof.
  unfold fitted4.
  destruct (fit_preserves_formula table_collaborator Sci data4 model_xy)
    as (-> & -> & ->).
  repeat split.
Qed.

Lemma singular_constant :
  ~ invertible (gram (design_cols true X_constant)).
Proof.
  intros H. specialize (H [1] eq_refl).
  assert (E : [1] = zeros 1); [|injection E; lra].
  apply H. repeat constructor.
  cbn [design_cols X_constant values cols map snd gram dot center shift mean
       total fold_right length].
  assert (Hm : mean [1; 1; 1; 1] = 1).
  { unfold mean. cbn [total fold_right length].
    replace (INR 4) with 4 by (simpl; lra). lra. }
  rewrite Hm. lra.
Qed.

(** C8 (amended), at a fit on [data_constant] after the fit on [data4]. *)
Lemma C8_witness :
  let self' := refit_constant scipy_2df in
  fst (_fit table_collaborator scipy_2df data_constant (fitted4 scipy_2df))
  = Raise LinAlgError /\
  (bhat table_collaborator self' = bhat table_collaborator (fitted4 scipy_2df) /\
   fitted table_collaborator self' = fitted table_collaborator (fitted4 scipy_2df) /\
   residuals table_collaborator self' = residuals table_collaborator (fitted4 scipy_2df) /\
   std_err_est table_collaborator self' = std_err_est table_collaborator (fitted4 scipy_2df) /\
   var table_collaborator self' = var table_collaborator (fitted4 scipy_2df) /\
   std_err_vars table_collaborator self' = std_err_vars table_collaborator (fitted4 scipy_2df) /\
   t_vals table_collaborator self' = t_vals table_collaborator (fitted4 scipy_2df) /\
   p_vals table_collaborator self' = p_vals table_collaborator (fitted4 scipy_2df)) /\
  (training_data table_collaborator self' = Some data_constant /\
   training_x table_collaborator self' = Some X_constant /\
   training_y table_collaborator self' = Some y4 /\
   training_x_means table_collaborator self' = Some (frame_mean X_constant) /\
   training_y_mean table_collaborator self' = Some (mean (snd y4)) /\
   ex table_collaborator self'
   = Some (interpret table_collaborator
             (copy table_collaborator (given_ex table_collaborator (fitted4 scipy_2df)))
             data_constant) /\
   re table_collaborator self'
   = Some (interpret table_collaborator
             (copy table_collaborator (given_re table_collaborator (fitted4 scipy_2df)))
             data_constant) /\
   categorical_levels table_collaborator self' = ∅).
Proof.
  destruct (fitted4_formula scipy_2df) as (Hex & Hre & Hi).
  apply (C8_failed_solve_leaves_partial_state table_collaborator scipy_2df
           exact_numpy (fun _ => Return tt) data_constant (fitted4 scipy_2df)
           X_constant y4 LinAlgError).
  - exact I.
  - rewrite Hex. reflexivity.
  - rewrite Hre. reflexivity.
  - reflexivity.
  - rewrite Hi. cbn [linalg_solve_vec exact_numpy].
    apply solve_vec_singular; [apply square_gram| |exact singular_constant].
    by rewrite length_gram, length_xty.
Defined.

(** C8 as stated fails: after a successful fit on [data4], a fit on data
    whose regressor is constant raises the singular-system error and leaves
    a state that differs from the one of the successful fit: the training
    data is already that of the failed call. *)
Lemma C8_counterexample :
  is_Return (fst (_fit table_collaborator scipy_2df data4 model_xy)) /\
  fst (_fit table_collaborator scipy_2df data_constant (fitted4 scipy_2df))
  = Raise LinAlgError /\
  training_data _ (fitted4 scipy_2df) = Some data4 /\
  training_data _ (snd (_fit table_collaborator scipy_2df data_constant
                          (fitted4 scipy_2df))) = Some data_constant /\
  snd (_fit table_collaborator scipy_2df data_constant (fitted4 scipy_2df))
  <> fitted4 scipy_2df.
Proof.
  destruct (fit_data4 scipy_2df) as (Hr & _ & _ & _ & _ & Htd & _).
  destruct (fitted4_formula scipy_2df) as (Hex & Hre & Hi).
  destruct (fit_singular_spec table_collaborator scipy_2df data_constant
              (fitted4 scipy_2df) X_constant y4)
    as (s' & Hfit & H).
  { rewrite Hex. reflexivity. }
  { rewrite Hre. reflexivity. }
  { reflexivity. }
  { rewrite Hi. exact singular_constant. }
  destruct H as (_ & _ & _ & _ & _ & _ & _ & _ & Htd' & _).
  rewrite Hfit. cbn [fst snd].
  split; [exact Hr|]. split; [reflexivity|]. split; [exact Htd|].
  split; [exact Htd'|].
  intros E. rewrite E, Htd in Htd'. injection Htd' as E'. lra.
Qed.

End StateFacts.

(** ** The facade: [predict], [r_squared], the sums of squares *)

Module FacadeFacts.
Import LinAlg Pandas Systems Model Examples LinAlgFacts CenteringFacts SolveFacts FitFacts ExampleFacts.
Local Open Scope R_scope.

Lemma quad_form_aligned X vl V :
  aligned (labels X) vl = true -> is_Return (quad_form X vl V).
Proof.
  intros Ha. unfold quad_form. rewrite Ha.
  assert (H : forall ls, forallb (fun l => mem_label l (labels X)) ls = true ->
                         exists xs, reindex ls (cols X) = Some xs).
  { induction ls as [|l ls IH]; simpl; [by eexists|].
    intros [Hl Hls]%andb_true_iff. destruct (IH Hls) as (xs & ->).
    assert (Hx : exists x, lookup_label l (cols X) = Some x).
    { clear -Hl. unfold labels, mem_label in Hl.
      induction (cols X) as [|[l' c] cs IHc]; simpl in *; [done|].
      rewrite String.eqb_sym.
      destruct (String.eqb l l'); [by eexists|]. by apply IHc. }
    destruct Hx as (x & ->). by eexists. }
  unfold aligned in Ha. apply andb_true_iff in Ha as [_ Ha].
  destruct (H vl Ha) as (xs & ->). done.
Qed.

Section Facade.
Context (C : Collaborator) (Sci : Scipy).

Lemma predict_interval_raises (self : LinearModel C) (data : Data C)
    (ci pi : bool) (alpha : R) :
  ci || pi = true -> ~ is_Return (predict C Sci self data ci pi alpha).
Proof.
  intros Hf. unfold predict.
  destruct (ex C self); [|by intros []].
  destruct (evaluate C _ data false); [|by intros []].
  destruct (bhat C self); [|by intros []].
  destruct (frame_dot _ _); [|by intros []].
  rewrite Hf.
  destruct (if ci then _ else _); by intros [].
Qed.

(** What [get_sst] does on any model object. *)
Lemma get_sst_raises (self : LinearModel C) :
  get_sst C self
  = Raise (match training_y C self with Some _ => TypeError | None => AttributeError end).
Proof. unfold get_sst. by destruct (training_y C self). Qed.

End Facade.

Ltac ex_cbn :=
  cbn [gram xty dot map app values labels cols index_len snd fst ones zeros repeat
       mulv vadd vsub scale zip_with length total fold_right sum_sq shift
       aug_rows normal_rows X5 y5 X4 y4 iloc_col0] in *.

Lemma wf_X5 : wf_frame X5.
Proof. repeat constructor. Qed.

Lemma intercept_fresh_X5 : "Intercept" ∉ labels X5.
Proof. intros H%list_elem_of_singleton. discriminate. Qed.

Lemma invertible_X5 : invertible (gram (values X5 ++ [ones (index_len X5)])).
Proof.
  intros v Hv Hk. ex_cbn.
  destruct v as [|a [|c [|]]]; try discriminate.
  apply Forall_cons in Hk as [H1 Hk]. apply Forall_cons in Hk as [H2 _].
  ex_cbn. f_equal; [lra|]. f_equal. lra.
Qed.

Lemma sol_X5 : sol (aug_rows (index_len X5) (values X5) (snd y5)) [3 / 5; 11 / 5].
Proof. ex_cbn. repeat constructor; ex_cbn; lra. Qed.

Section AnyScipy.
Context (Sci : Scipy).

Lemma fit_example :
  is_Return (fst (_fit table_collaborator Sci example_data model_xy)) /\
  bhat _ (fitted5 Sci) = Some [("x", 3 / 5); ("Intercept", 11 / 5)] /\
  fitted _ (fitted5 Sci) = Some (mulv 5 (values X5 ++ [ones 5]) [3 / 5; 11 / 5]) /\
  training_data _ (fitted5 Sci) = Some example_data /\
  training_x _ (fitted5 Sci) = Some X5 /\
  training_y _ (fitted5 Sci) = Some y5 /\
  ex _ (fitted5 Sci) = Some ["x"] /\
  re _ (fitted5 Sci) = Some ["y"] /\
  intercept _ (fitted5 Sci) = true.
Proof.
  destruct (fit_intercept_spec table_collaborator Sci example_data model_xy X5 y5
              [3 / 5; 11 / 5])
    as (V & summ & self' & HV & Hfit & Hb & Hf & Hr & Hs & Hv & _ & _ & _ & Htd & Htx & Hty & Hex & Hre & Hi & _);
    auto using wf_X5, intercept_fresh_X5, invertible_X5, sol_X5.
  unfold fitted5. rewrite Hfit. cbn [fst snd].
  repeat split; assumption.
Qed.

Lemma predict_example alpha :
  predict table_collaborator Sci (fitted5 Sci) example_data false false alpha
  = Return (mkDataFrame 5
              [("Predicted y", mulv 5 (values X5 ++ [ones 5]) [3 / 5; 11 / 5])]).
Proof.
  destruct fit_example as (_ & Hb & _ & _ & _ & _ & Hex & Hre & Hi).
  unfold predict. rewrite Hex, Hi, Hb, Hre.
  change (evaluate table_collaborator ["x"] example_data false) with (Return X5).
  cbv iota.
  change (setitem_scalar X5 "Intercept" 1) with X5_intercept.
  unfold frame_dot.
  change (aligned (labels X5_intercept) (map fst [("x", 3 / 5); ("Intercept", 11 / 5)]))
    with true. cbv iota.
  change (reindex (map fst [("x", 3 / 5); ("Intercept", 11 / 5)]) (cols X5_intercept))
    with (Some (values X5 ++ [ones 5])). cbv iota.
  reflexivity.
Qed.


Lemma mean_y5 : mean (snd y5) = 4.
Proof.
  unfold mean. ex_cbn. replace (INR 5) with 5 by (simpl; lra). lra.
Qed.

Lemma sse_example :
  sum_sq (vsub (snd y5) (mulv 5 (values X5 ++ [ones 5]) [3 / 5; 11 / 5])) = 12 / 5.
Proof. ex_cbn. lra. Qed.

Lemma sst_example : sum_sq (shift (mean (snd y5)) (snd y5)) = 6.
Proof. rewrite mean_y5. ex_cbn. lra. Qed.

Lemma r_squared_example adjusted :
  r_squared table_collaborator Sci (fitted5 Sci) None None adjusted
  = Return (if adjusted then 3 / 5 else 1 / 5).
Proof.
  destruct fit_example as (_ & _ & _ & Htd & Htx & Hty & _).
  unfold r_squared. rewrite Htd, Hty, predict_example, Htx.
  cbn [cols]. unfold iloc_col0.
  rewrite sse_example, sst_example.
  change (Z.of_nat (length (snd y5)) - shape1 X5 - 2)%Z with 2%Z.
  change (Z.of_nat (length (snd y5)) - 1)%Z with 4%Z.
  destruct adjusted; f_equal; lra.
Qed.

Lemma get_sse_example : get_sse _ (fitted5 Sci) = Return (12 / 5).
Proof.
  destruct fit_example as (_ & _ & Hf & _ & _ & Hy & _).
  unfold get_sse. rewrite Hy, Hf. unfold iloc_col0. by rewrite sse_example.
Qed.


(** On the model fitted to [data4], a request for interval bounds gets as
    far as the half-widths and then stops at the unbound [y_vals]. *)
Lemma predict_interval_fitted4 ci pi alpha :
  ci || pi = true ->
  predict table_collaborator Sci (fitted4 Sci) data4 ci pi alpha
  = Raise (NameError "y_vals").
Proof.
  intros Hf.
  destruct (fit_data4 Sci) as (_ & Hb & _ & _ & Hv & _ & Htx & _ & Hex & Hre & Hi).
  unfold predict. rewrite Hex, Hi, Hb, Hre, Hf.
  change (evaluate table_collaborator ["x"] data4 false) with (Return X4).
  cbv iota.
  change (setitem_scalar X4 "Intercept" 1) with X4_intercept.
  unfold frame_dot.
  change (aligned (labels X4_intercept) (map fst [("x", 1); ("Intercept", 0)]))
    with true. cbv iota.
  change (reindex (map fst [("x", 1); ("Intercept", 0)]) (cols X4_intercept))
    with (Some (values X4 ++ [ones 4])). cbv iota.
  pose proof (quad_form_aligned X4_intercept ["x"; "Intercept"]
                [[2 / 5; -1]; [-1; 3]] eq_refl) as Hq.
  destruct (quad_form X4_intercept _ _) as [s|] eqn:Es; [|done].
  unfold _confidence_interval_width, _prediction_interval_width.
  rewrite Htx, Hv, Es, get_sse_fitted4.
  by destruct ci.
Qed.

End AnyScipy.

Section Claims.
Context (C : Collaborator) (Sci : Scipy).

(** C2 (the code departs from it).  On the example dataset
    ([x = 1..5], [y = 2, 4, 5, 4, 5], intercept), [SSE = 12/5] and
    [SST = 6], so [1 - SSE/SST = 3/5]; [r_squared(adjusted = False)] returns
    [1/5], the ratio of the sums divided by [n - k - 2] and [n - 1], and it
    is [adjusted = True] that returns [3/5]: the two branches are
    exchanged. *)
Theorem C2_r_squared_branches_exchanged :
  r_squared table_collaborator Sci (fitted5 Sci) None None false = Return (1 / 5) /\
  r_squared table_collaborator Sci (fitted5 Sci) None None true = Return (3 / 5) /\
  get_sse table_collaborator (fitted5 Sci) = Return (12 / 5) /\
  sum_sq (shift (mean (snd y5)) (snd y5)) = 6 /\
  1 - (12 / 5) / 6 = 3 / 5.
Proof.
  split; [apply (r_squared_example Sci false)|].
  split; [apply (r_squared_example Sci true)|].
  split; [apply get_sse_example|]. split; [apply sst_example|]. lra.
Qed.

(** C3 (the code departs from it).  [predict] never returns when an
    interval is requested, whichever flags are set: no test rejects the two
    flags together, and the bounds are computed from an unbound local.  On
    the model fitted to [data4] the exception is [NameError] for every
    combination of flags. *)
Theorem C3_predict_intervals_raise
    (self : LinearModel C) (data : Data C) (alpha : R) (b : bool) :
  ~ is_Return (predict C Sci self data true b alpha) /\
  ~ is_Return (predict C Sci self data b true alpha) /\
  predict table_collaborator Sci (fitted4 Sci) data4 true true alpha
  = Raise (NameError "y_vals") /\
  predict table_collaborator Sci (fitted4 Sci) data4 true false alpha
  = Raise (NameError "y_vals") /\
  predict table_collaborator Sci (fitted4 Sci) data4 false true alpha
  = Raise (NameError "y_vals").
Proof.
  split; [by apply predict_interval_raises|].
  split; [apply predict_interval_raises; by destruct b|].
  repeat split; by apply predict_interval_fitted4.
Qed.

(** C4 (the code departs from it).  [get_sst] subscripts the training
    frame with [[:, 0]] instead of [.iloc[:, 0]] and raises on every model
    object, fitted or not; [get_ssr], which calls it first, never returns
    either. *)
Theorem C4_get_sst_raises (self : LinearModel C) :
  get_sst C self
  = Raise (match training_y C self with
           | Some _ => TypeError
           | None => AttributeError
           end) /\
  ~ is_Return (get_ssr C self) /\
  get_sst table_collaborator (fitted4 Sci) = Raise TypeError.
Proof.
  split; [apply get_sst_raises|]. split.
  - unfold get_ssr. rewrite get_sst_raises. by intros [].
  - rewrite get_sst_raises.
    destruct (fit_data4 Sci) as (_ & _ & _ & _ & _ & _ & _ & -> & _). done.
Qed.

End Claims.
End FacadeFacts.

(** ** The categorical encoder *)

Module EncoderFacts.
Import LinAlg Pandas Encoder FitFacts.
Local Open Scope R_scope.

Lemma elem_here {A} (x : A) l : x ∈ x :: l.
Proof. apply elem_of_cons. by left. Qed.
Lemma elem_further {A} (x y : A) l : x ∈ l -> x ∈ y :: l.
Proof. intros H. apply elem_of_cons. by right. Qed.

(** *** Levels *)

Lemma elem_of_unique x l : x ∈ unique l <-> x ∈ l.
Proof.
  induction l as [|y l IH]; simpl; [done|].
  rewrite !elem_of_cons, list_elem_of_filter, IH.
  destruct (decide (x = y)); tauto.
Qed.

Lemma NoDup_unique l : NoDup (unique l).
Proof.
  induction l as [|y l IH]; simpl; [constructor|].
  constructor.
  - rewrite list_elem_of_filter. tauto.
  - by apply NoDup_filter.
Qed.

Lemma unique_NoDup l : NoDup l -> unique l = l.
Proof.
  induction 1 as [|x l Hx Hl IH]; simpl; [done|]. rewrite IH. f_equal.
  clear -Hx. induction l as [|y l IH]; [done|].
  apply not_elem_of_cons in Hx as [Hne Hx].
  rewrite filter_cons_True by done. by rewrite IH.
Qed.

#[local] Instance str_le_total : Total str_le.
Proof. intros a b. apply String.leb_total. Qed.

Lemma sort_Sorted l : Sorted str_le (sort l).
Proof. apply Sorted_merge_sort, _. Qed.

Lemma sort_Permutation l : sort l ≡ₚ l.
Proof. apply merge_sort_Permutation. Qed.

Lemma NoDup_sort_unique l : NoDup (sort (unique l)).
Proof. rewrite sort_Permutation. apply NoDup_unique. Qed.

Lemma elem_of_sort_unique x l : x ∈ sort (unique l) <-> x ∈ l.
Proof. by rewrite sort_Permutation, elem_of_unique. Qed.

Lemma mem_true x l : mem x l = true <-> x ∈ l.
Proof. unfold mem. apply bool_decide_eq_true. Qed.

Lemma mem_false x l : mem x l = false <-> x ∉ l.
Proof. unfold mem. apply bool_decide_eq_false. Qed.

(** *** The removal loop *)

Lemma list_remove_first x pre post :
  x ∉ pre -> list_remove x (pre ++ x :: post) = Some (pre ++ post).
Proof.
  induction pre as [|y pre IH]; simpl; intros Hx.
  - by rewrite String.eqb_refl.
  - apply not_elem_of_cons in Hx as [Hne Hx].
    destruct (String.eqb_spec y x) as [->|_]; [done|]. by rewrite IH.
Qed.

(** Running over a copy of the list, the loop removes exactly the
    entries that do not occur in the data. *)
Lemma remove_absent_filter d pre todo :
  remove_absent d todo (filter (fun x => x ∈ d) pre ++ todo)
  = Some (filter (fun x => x ∈ d) (pre ++ todo)).
Proof.
  revert pre; induction todo as [|x todo IH]; intros pre; simpl.
  - by rewrite !app_nil_r.
  - destruct (mem x d) eqn:E.
    + apply mem_true in E.
      replace (filter (fun x => x ∈ d) pre ++ x :: todo)
        with (filter (fun x => x ∈ d) (pre ++ [x]) ++ todo).
      * rewrite IH. by rewrite <- app_assoc.
      * rewrite filter_app, filter_cons_True by done. by rewrite <- app_assoc.
    + apply mem_false in E.
      rewrite list_remove_first.
      * replace (filter (fun x => x ∈ d) pre)
          with (filter (fun x => x ∈ d) (pre ++ [x])).
        -- rewrite IH. by rewrite <- app_assoc.
        -- rewrite filter_app, filter_cons_False by done. by rewrite app_nil_r.
      * rewrite list_elem_of_filter. tauto.
Qed.

Lemma remove_absent_spec d lv :
  remove_absent d lv lv = Some (filter (fun x => x ∈ d) lv).
Proof. apply (remove_absent_filter d [] lv). Qed.


(** *** Column names and the dict of indicator columns *)

Lemma column_name_inj e : Inj (=) (=) (column_name e).
Proof.
  intros a b H. unfold column_name in H.
  apply String.app_inj in H. by apply String.app_inj in H.
Qed.

Section Dict.
Context {A : Type} (f : string -> string) (g : string -> A).
Context (f_inj : Inj (=) (=) f).

Local Abbreviation mk := (entry f g).

Lemma loc_set_present x (acc : list string) :
  x ∈ acc -> loc_set (f x) (g x) (map mk acc) = map mk acc.
Proof.
  induction acc as [|y acc IH]; simpl; [by intros ?%elem_of_nil|].
  intros Hx. destruct (String.eqb_spec (f y) (f x)) as [E|E].
  - apply f_inj in E. by subst.
  - apply elem_of_cons in Hx as [->|Hx]; [done|]. by rewrite IH.
Qed.

Lemma loc_set_absent x (acc : list string) :
  x ∉ acc -> loc_set (f x) (g x) (map mk acc) = map mk (acc ++ [x]).
Proof.
  induction acc as [|y acc IH]; simpl; [done|].
  intros [Hne Hx]%not_elem_of_cons.
  destruct (String.eqb_spec (f y) (f x)) as [E|E].
  - apply f_inj in E. by subst.
  - by rewrite IH.
Qed.

Lemma filter_filter_ne (x : string) (acc l : list string) :
  x ∈ acc ->
  filter (fun y => y ∉ acc) (filter (fun y => y <> x) l)
  = filter (fun y => y ∉ acc) l.
Proof.
  intros Hx. induction l as [|y l IH]; [done|].
  destruct (decide (y = x)) as [->|Hne].
  - rewrite (filter_cons_False (fun y => y <> x)) by tauto.
    rewrite (filter_cons_False (fun y => y ∉ acc)) by tauto. done.
  - rewrite (filter_cons_True (fun y => y <> x)) by done.
    destruct (decide (y ∈ acc)).
    + rewrite !(filter_cons_False (fun y => y ∉ acc)) by tauto. done.
    + rewrite !(filter_cons_True (fun y => y ∉ acc)) by done. by rewrite IH.
Qed.

Lemma filter_snoc_ne (x : string) (acc l : list string) :
  filter (fun y => y ∉ acc ++ [x]) l
  = filter (fun y => y ∉ acc) (filter (fun y => y <> x) l).
Proof.
  induction l as [|y l IH]; [done|].
  destruct (decide (y = x)) as [->|Hne].
  - rewrite (filter_cons_False (fun y => y <> x)) by tauto.
    rewrite filter_cons_False; [done|]. rewrite elem_of_app, list_elem_of_singleton. tauto.
  - rewrite (filter_cons_True (fun y => y <> x)) by done.
    destruct (decide (y ∈ acc)).
    + rewrite (filter_cons_False (fun y => y ∉ acc)) by tauto.
      rewrite filter_cons_False; [done|]. rewrite elem_of_app. tauto.
    + rewrite (filter_cons_True (fun y => y ∉ acc)) by done.
      rewrite filter_cons_True; [by rewrite IH|].
      rewrite elem_of_app, list_elem_of_singleton. tauto.
Qed.

(** A dict comprehension over [ls] keeps one entry per distinct level,
    in order of first appearance. *)
Lemma dict_fold (ls acc : list string) :
  fold_left (fun d kv => loc_set (fst kv) (snd kv) d) (map mk ls) (map mk acc)
  = map mk (acc ++ filter (fun y => y ∉ acc) (unique ls)).
Proof.
  revert acc; induction ls as [|x ls IH]; intros acc; simpl.
  - by rewrite app_nil_r.
  - destruct (decide (x ∈ acc)) as [Hx|Hx].
    + rewrite loc_set_present by done. rewrite IH.
      rewrite filter_cons_False by tauto. by rewrite filter_filter_ne.
    + rewrite loc_set_absent by done. rewrite IH.
      rewrite filter_cons_True by done.
      rewrite <- app_assoc. simpl. by rewrite filter_snoc_ne.
Qed.

Lemma dict_of_map ls :
  fold_left (fun d kv => loc_set (fst kv) (snd kv) d) (map mk ls) []
  = map mk (unique ls).
Proof.
  change (@nil (string * A)) with (map mk []) at 1.
  rewrite (dict_fold ls []). simpl. f_equal.
  induction (unique ls) as [|y l IH]; [done|].
  rewrite filter_cons_True by apply not_elem_of_nil. by rewrite IH.
Qed.

End Dict.

(** *** Selecting and dropping columns *)

Lemma filter_label_nonempty (cs : list (string * list R)) l :
  l ∈ map fst cs -> filter (fun c => fst c = l) cs <> [].
Proof.
  intros (c & -> & Hc)%list_elem_of_fmap Hnil.
  assert (H : c ∈ filter (fun c' => fst c' = fst c) cs).
  { by apply list_elem_of_filter. }
  rewrite Hnil in H. by apply elem_of_nil in H.
Qed.

Lemma select_spec df ls :
  Forall (fun l => l ∈ labels df) ls ->
  select df ls
  = Return (flat_map (fun l => filter (fun c => fst c = l) (cols df)) ls).
Proof.
  induction 1 as [|l ls Hl H IH]; simpl; [done|].
  pose proof (filter_label_nonempty (cols df) l Hl) as Hne.
  destruct (filter (fun c => fst c = l) (cols df)) as [|c cs'] eqn:E; [done|].
  by rewrite IH.
Qed.

Lemma filter_flat_map {A B} (P : B -> Prop) `{!forall x, Decision (P x)}
    (h : A -> list B) (ls : list A) :
  filter P (flat_map h ls) = flat_map (fun x => filter P (h x)) ls.
Proof.
  induction ls as [|x ls IH]; simpl; [done|]. by rewrite filter_app, IH.
Qed.

Lemma flat_map_nil_on {A B} (h : A -> list B) (ls : list A) :
  Forall (fun x => h x = []) ls -> flat_map h ls = [].
Proof. induction 1 as [|x ls Hx H IH]; simpl; [done|]. by rewrite Hx, IH. Qed.

Lemma drop_spec df label :
  label ∈ labels df ->
  drop df label
  = Return (mkDataFrame (index_len df) (filter (fun c => fst c <> label) (cols df))).
Proof.
  intros H. unfold drop.
  replace (mem_label label (labels df)) with true; [done|].
  symmetry. unfold mem_label. apply existsb_exists. exists label.
  split; [by apply list_elem_of_In|apply String.eqb_refl].
Qed.

Section Indicators.
Context (e : Categorical) (column : list string).

Local Abbreviation mk := (entry (column_name e) (indicator column)).

Lemma filter_label_mk ks l :
  filter (fun c => fst c = column_name e l) (map mk ks)
  = map mk (filter (fun k => k = l) ks).
Proof.
  induction ks as [|k ks IH]; [done|]. simpl map.
  destruct (decide (k = l)) as [->|Hne].
  - rewrite !filter_cons_True by done. simpl. by rewrite IH.
  - rewrite (filter_cons_False (fun k => k = l)) by done.
    rewrite filter_cons_False; [done|].
    simpl. intros E. by apply column_name_inj in E.
Qed.

Lemma filter_eq_NoDup (ks : list string) l :
  NoDup ks -> l ∈ ks -> filter (fun k => k = l) ks = [l].
Proof.
  induction 1 as [|k ks Hk Hnd IH]; [by intros ?%elem_of_nil|].
  intros [->|Hl]%elem_of_cons.
  - rewrite filter_cons_True by done. f_equal.
    clear -Hk. induction ks as [|k' ks IH]; [done|].
    apply not_elem_of_cons in Hk as [Hne Hk].
    rewrite filter_cons_False by congruence. by apply IH.
  - rewrite filter_cons_False; [by apply IH|]. intros ->. done.
Qed.

Lemma filter_eq_absent (ks : list string) l :
  l ∉ ks -> filter (fun k => k = l) ks = [].
Proof.
  induction ks as [|k ks IH]; [done|].
  intros [Hne Hl]%not_elem_of_cons.
  rewrite filter_cons_False by congruence. by apply IH.
Qed.

(** With distinct levels, selecting the columns of some of them gives
    exactly their columns. *)
Lemma select_NoDup ks ls :
  NoDup ks -> ls ⊆ ks ->
  flat_map (fun l => filter (fun c => fst c = l) (map mk ks)) (map (column_name e) ls)
  = map mk ls.
Proof.
  intros Hnd. induction ls as [|l ls IH]; intros Hsub; simpl; [done|].
  rewrite filter_label_mk, filter_eq_NoDup by (done || set_solver).
  simpl. f_equal. apply IH. set_solver.
Qed.

Lemma filter_ne_head ks l :
  NoDup (l :: ks) ->
  filter (fun c => fst c <> column_name e l) (map mk (l :: ks)) = map mk ks.
Proof.
  intros [Hl Hnd]%NoDup_cons. simpl map.
  rewrite filter_cons_False by (simpl; tauto).
  induction ks as [|k ks IH]; [done|]. simpl map.
  apply not_elem_of_cons in Hl as [Hne Hl]. apply NoDup_cons in Hnd as [_ Hnd].
  rewrite filter_cons_True.
  - by rewrite IH.
  - simpl. intros E. apply column_name_inj in E. congruence.
Qed.

(** *** Row sums of indicator columns *)

Lemma zeros_map_const {A} (l : list A) : zeros (length l) = map (fun _ => 0) l.
Proof. unfold zeros. induction l as [|x l IH]; simpl; [done|]. by rewrite IH. Qed.

Lemma vadd_map {A} (F G : A -> R) (l : list A) :
  vadd (map F l) (map G l) = map (fun v => F v + G v) l.
Proof. unfold vadd. induction l as [|x l IH]; simpl; [done|]. by rewrite IH. Qed.

Lemma row_sums_indicators ks :
  row_sums (mkDataFrame (length column) (map mk ks))
  = map (fun v => hits v ks) column.
Proof.
  unfold row_sums, values. cbn [index_len cols].
  induction ks as [|k ks IH]; simpl.
  - apply zeros_map_const.
  - rewrite IH. unfold indicator. rewrite vadd_map. done.
Qed.

Lemma hits_nonneg v ks : 0 <= hits v ks.
Proof.
  unfold hits. induction ks as [|k ks IH]; simpl; [lra|].
  destruct (String.eqb v k); lra.
Qed.

Lemma hits_zero v ks : hits v ks = 0 <-> v ∉ ks.
Proof.
  unfold hits. induction ks as [|k ks IH]; simpl.
  - split; [intros _; apply not_elem_of_nil|done].
  - pose proof (hits_nonneg v ks) as Hn. unfold hits in Hn.
    rewrite not_elem_of_cons.
    destruct (String.eqb_spec v k) as [->|Hne].
    + split; [intros; lra|tauto].
    + rewrite <- IH. split; [intros; split; [done|lra]|intros [_ ?]; lra].
Qed.

Lemma hits_NoDup v ks : NoDup ks -> hits v ks <= 1.
Proof.
  unfold hits. induction 1 as [|k ks Hk Hnd IH]; simpl; [lra|].
  destruct (String.eqb_spec v k) as [->|Hne]; [|lra].
  apply hits_zero in Hk. unfold hits in Hk. lra.
Qed.

(** *** The encoded columns *)

Lemma frame_of_dict_indicators ls :
  frame_of_dict (length column) (map mk ls)
  = mkDataFrame (match ls with [] => O | _ => length column end) (map mk (unique ls)).
Proof.
  unfold frame_of_dict.
  rewrite (dict_of_map (column_name e) (indicator column) (column_name_inj e)).
  by destruct ls.
Qed.

Lemma labels_mk ks : map fst (map mk ks) = map (column_name e) ks.
Proof. by rewrite map_map. Qed.

(** Without a catch-all and with distinct levels: one column per level,
    in the order of the levels, the first one dropped on request. *)
Lemma encode_columns_NoDup lv drop_dummy :
  method e = "one-hot" -> NoDup lv ->
  encode_columns e column lv false drop_dummy
  = match lv with
    | [] =>
        if drop_dummy then Raise IndexError
        else Return (Some (mkDataFrame O []))
    | l0 :: rest =>
        Return (Some (mkDataFrame (length column)
                        (map mk (if drop_dummy then rest else lv))))
    end.
Proof.
  intros Hm Hnd. unfold encode_columns. rewrite Hm. cbn [String.eqb].
  change (("one-hot" =? "one-hot")%string) with true. cbv iota.
  rewrite firstn_all. fold mk. rewrite frame_of_dict_indicators.
  rewrite unique_NoDup by done.
  rewrite select_spec; cycle 1.
  { unfold labels. cbn [cols]. rewrite labels_mk. by apply Forall_forall. }
  cbn [cols index_len]. rewrite select_NoDup by done.
  destruct lv as [|l0 rest]; [by destruct drop_dummy|].
  destruct drop_dummy; [|done].
  rewrite drop_spec.
  - cbn [cols index_len]. by rewrite filter_ne_head.
  - unfold labels. cbn [cols]. rewrite labels_mk. simpl. apply elem_here.
Qed.

Lemma filter_filter_disjoint {A} (P Q : A -> Prop)
    `{!forall x, Decision (P x)} `{!forall x, Decision (Q x)} (l : list A) :
  (forall x, P x -> Q x -> False) -> filter P (filter Q l) = [].
Proof.
  intros Hdis. induction l as [|x l IH]; [done|].
  destruct (decide (Q x)).
  - rewrite (filter_cons_True Q) by done.
    rewrite filter_cons_False; [done|]. intros HP. eauto.
  - by rewrite (filter_cons_False Q).
Qed.

Lemma filter_idemp {A} (P : A -> Prop) `{!forall x, Decision (P x)} (l : list A) :
  filter P (filter P l) = filter P l.
Proof. by apply list_filter_filter_l. Qed.

Lemma filter_comm {A} (P Q : A -> Prop)
    `{!forall x, Decision (P x)} `{!forall x, Decision (Q x)} (l : list A) :
  filter P (filter Q l) = filter Q (filter P l).
Proof. rewrite !list_filter_filter. apply list_filter_iff. tauto. Qed.

Lemma labels_filter_subset (cs : list (string * list R)) (P : string * list R -> Prop)
    `{!forall x, Decision (P x)} lab :
  lab ∈ map fst (filter P cs) -> lab ∈ map fst cs.
Proof.
  intros (c & -> & Hc)%list_elem_of_fmap. apply list_elem_of_filter in Hc as [_ Hc].
  apply list_elem_of_fmap. eauto.
Qed.

Lemma labels_select (cs : list (string * list R)) ls lab :
  lab ∈ map fst (flat_map (fun l => filter (fun c => fst c = l) cs) ls) ->
  lab ∈ ls.
Proof.
  induction ls as [|l ls IH]; simpl; [done|].
  rewrite map_app, elem_of_app. intros [Hin|Hin].
  - apply list_elem_of_fmap in Hin as (c & -> & Hc).
    apply list_elem_of_filter in Hc as [-> _]. apply elem_here.
  - apply elem_further. by apply IH.
Qed.

Lemma select_covers (cs : list (string * list R)) ls l :
  l ∈ ls -> l ∈ map fst cs ->
  l ∈ map fst (flat_map (fun l => filter (fun c => fst c = l) cs) ls).
Proof.
  intros Hl (c & -> & Hc)%list_elem_of_fmap.
  apply list_elem_of_fmap. exists c. split; [done|].
  apply list_elem_of_In, in_flat_map. exists (fst c).
  split; [by apply list_elem_of_In|]. apply list_elem_of_In.
  by apply list_elem_of_filter.
Qed.

Lemma other_column_spec kept :
  map (fun s => if Req_dec_T s 0 then 1 else 0)
    (row_sums (mkDataFrame (length column) (map mk (unique kept))))
  = other_column column kept.
Proof.
  rewrite row_sums_indicators, map_map. unfold other_column.
  apply map_ext. intros v.
  destruct (Req_dec_T (hits v (unique kept)) 0) as [E|E].
  - apply hits_zero in E. rewrite elem_of_unique in E.
    by rewrite bool_decide_eq_false_2.
  - rewrite hits_zero, elem_of_unique in E.
    rewrite bool_decide_eq_true_2; [done|]. by destruct (decide (v ∈ kept)).
Qed.

(** With a catch-all appended to the levels [kept]: the result has exactly
    one column named for [~other~], and it is [other_column column kept]. *)
Lemma encode_columns_other kept drop_dummy :
  method e = "one-hot" -> kept <> [] -> other ∉ kept ->
  exists df,
    encode_columns e column (kept ++ [other]) true drop_dummy = Return (Some df) /\
    index_len df = length column /\
    filter (fun c => fst c = column_name e other) (cols df)
    = [(column_name e other, other_column column kept)] /\
    (forall lab, lab ∈ labels df -> lab ∈ map (column_name e) (kept ++ [other])).
Proof.
  intros Hm Hne Hoth. unfold encode_columns. rewrite Hm.
  change (("one-hot" =? "one-hot")%string) with true. cbv iota.
  rewrite length_app. cbn [length].
  replace (length kept + 1 - 1)%nat with (length kept) by lia.
  rewrite take_app_length. fold mk. rewrite frame_of_dict_indicators.
  destruct kept as [|k0 kept']; [done|]. set (kept := k0 :: kept') in *.
  cbv iota.
  assert (Hou : other ∉ unique kept) by (by rewrite elem_of_unique).
  unfold setitem. cbn [cols index_len].
  rewrite other_column_spec.
  assert (Hun : unique kept <> []) by done.
  replace (match map mk (unique kept) with
           | [] => length (other_column column kept)
           | _ :: _ => length column
           end) with (length column) by (by destruct (unique kept)).
  rewrite loc_set_fresh; cycle 1.
  { rewrite labels_mk. intros (x & E & Hx)%list_elem_of_fmap.
    apply column_name_inj in E. by subst. }
  set (cols1 := map mk (unique kept) ++ [(column_name e other, other_column column kept)]).
  assert (Hlab1 : map fst cols1 = map (column_name e) (unique kept ++ [other])).
  { unfold cols1. rewrite !map_app, labels_mk. done. }
  rewrite select_spec; cycle 1.
  { unfold labels. cbn [cols]. rewrite Hlab1. apply Forall_forall.
    intros lab (x & -> & Hx)%list_elem_of_fmap. apply list_elem_of_fmap.
    exists x. split; [done|].
    rewrite elem_of_app in Hx |- *. rewrite elem_of_unique. done. }
  cbn [cols index_len].
  set (sel := flat_map (fun l => filter (fun c => fst c = l) cols1)
                (map (column_name e) (kept ++ [other]))).
  assert (Hsel : filter (fun c => fst c = column_name e other) sel
                 = [(column_name e other, other_column column kept)]).
  { unfold sel. rewrite filter_flat_map, map_app, flat_map_app.
    rewrite flat_map_nil_on; cycle 1.
    { apply Forall_forall. intros lab (x & -> & Hx)%list_elem_of_fmap.
      apply filter_filter_disjoint. intros c E1 E2. rewrite E1 in E2.
      apply column_name_inj in E2. by subst. }
    simpl. rewrite app_nil_r, filter_idemp. unfold cols1.
    rewrite filter_app, filter_label_mk, filter_eq_absent by done.
    simpl. by rewrite filter_cons_True. }
  assert (Hlabs : forall lab, lab ∈ map fst sel ->
                              lab ∈ map (column_name e) (kept ++ [other])).
  { intros lab. apply labels_select. }
  destruct drop_dummy.
  - cbn [app kept]. rewrite drop_spec; cycle 1.
    { unfold labels. cbn [cols]. apply select_covers.
      - cbn [map app]. apply elem_here.
      - rewrite Hlab1. apply list_elem_of_fmap. exists k0. split; [done|].
        apply elem_of_app. left. apply elem_of_unique. apply elem_here. }
    eexists. split; [reflexivity|]. cbn [cols index_len]. split; [done|]. split.
    + rewrite filter_comm, Hsel. rewrite filter_cons_True; [done|].
      simpl. intros E. apply column_name_inj in E.
      apply Hoth. rewrite E. apply elem_here.
    + intros lab Hl. apply Hlabs. unfold labels in Hl. cbn [cols] in Hl.
      by eapply labels_filter_subset.
  - eexists. split; [reflexivity|]. cbn [cols index_len]. done.
Qed.

(** Without a catch-all, for any level list: every column is named for
    one of the levels. *)
Lemma encode_columns_plain lv drop_dummy :
  method e = "one-hot" -> lv <> [] ->
  exists df,
    encode_columns e column lv false drop_dummy = Return (Some df) /\
    index_len df = length column /\
    (forall lab, lab ∈ labels df -> lab ∈ map (column_name e) lv).
Proof.
  intros Hm Hne. unfold encode_columns. rewrite Hm.
  change (("one-hot" =? "one-hot")%string) with true. cbv iota.
  rewrite firstn_all. fold mk. rewrite frame_of_dict_indicators.
  destruct lv as [|l0 lv']; [done|]. set (lv := l0 :: lv') in *. cbv iota.
  rewrite select_spec; cycle 1.
  { unfold labels. cbn [cols]. rewrite labels_mk. apply Forall_forall.
    intros lab (x & -> & Hx)%list_elem_of_fmap. apply list_elem_of_fmap.
    exists x. by rewrite elem_of_unique. }
  cbn [cols index_len].
  destruct drop_dummy.
  - rewrite drop_spec; cycle 1.
    { unfold labels. cbn [cols]. apply select_covers.
      - cbn [map]. apply elem_here.
      - rewrite labels_mk. apply list_elem_of_fmap. exists l0. split; [done|].
        apply elem_of_unique. apply elem_here. }
    eexists. split; [reflexivity|]. cbn [cols index_len]. split; [done|].
    intros lab Hl. unfold labels in Hl. cbn [cols] in Hl.
    apply labels_filter_subset in Hl. by apply labels_select in Hl.
  - eexists. split; [reflexivity|]. cbn [cols index_len]. split; [done|].
    intros lab Hl. by apply labels_select in Hl.
Qed.

End Indicators.

(** *** Settling the levels *)

Lemma resolve_fresh e column st :
  categorical_levels st !! name e = None -> levels e = None ->
  resolve_levels e column st
  = (Return (fresh (dom (heap st)), false),
     mkState (categorical_levels st)
       (<[fresh (dom (heap st)) := sort (unique column)]> (heap st))).
Proof. intros Hr Hl. unfold resolve_levels. by rewrite Hr, Hl. Qed.

Lemma kept_unique (column lv0 : list string) :
  filter (fun x => x ∈ unique column) lv0 = filter (fun x => x ∈ column) lv0.
Proof. apply list_filter_iff. intros x. apply elem_of_unique. Qed.

Lemma has_other_unlisted (column lv0 : list string) :
  has_other (unique column) (filter (fun x => x ∈ column) lv0)
  = has_unlisted column lv0.
Proof.
  unfold has_other, has_unlisted. apply eq_true_iff_eq.
  rewrite !existsb_exists. split.
  - intros (v & Hv & Hn). exists v.
    rewrite <- list_elem_of_In, elem_of_unique in Hv.
    split; [by apply list_elem_of_In|].
    apply negb_true_iff, mem_false in Hn. apply negb_true_iff, mem_false.
    intros Hv0. apply Hn. by apply list_elem_of_filter.
  - intros (v & Hv & Hn). exists v. rewrite <- list_elem_of_In in Hv.
    split; [by rewrite <- list_elem_of_In, elem_of_unique|].
    apply negb_true_iff, mem_false in Hn. apply negb_true_iff, mem_false.
    intros [_ Hv0]%list_elem_of_filter. done.
Qed.

Lemma resolve_explicit e column st l lv0 :
  categorical_levels st !! name e = None -> levels e = Some l ->
  heap st !! l = Some lv0 ->
  resolve_levels e column st
  = (Return (l, has_unlisted column lv0),
     mkState (categorical_levels st) (<[l := reconciled column lv0]> (heap st))).
Proof.
  intros Hr Hl Hh. unfold resolve_levels, deref. rewrite Hr, Hl, Hh. simpl.
  rewrite remove_absent_spec, kept_unique, has_other_unlisted.
  unfold reconciled. destruct (has_unlisted column lv0); [done|].
  by rewrite app_nil_r.
Qed.

Lemma deref_insert st r l lv :
  deref (mkState r (<[l := lv]> (heap st))) l = lv.
Proof. unfold deref. cbn [heap]. by rewrite lookup_insert_eq. Qed.

(** An explicit level list is updated in place, whatever the flags. *)
Lemma extract_explicit_state e table column drop_dummy update_levels st l lv0 :
  categorical_levels st !! name e = None -> levels e = Some l ->
  heap st !! l = Some lv0 ->
  lookup_label (name e) table = Some column ->
  snd (extract_columns e (PDataFrame table) drop_dummy update_levels st)
  = encoded_state e update_levels l (reconciled column lv0) st.
Proof.
  intros Hr Hl Hh Hc. unfold extract_columns. rewrite Hc.
  rewrite (resolve_explicit e column st l lv0) by done.
  by destruct update_levels.
Qed.


(** *** Rows of the encoded frame *)

Lemma row_indicators e column ks n i v :
  column !! i = Some v ->
  row (mkDataFrame n (map (fun l => (column_name e l, indicator column l)) ks)) i
  = map (fun l => if String.eqb v l then 1 else 0) ks.
Proof.
  intros Hi. unfold row. cbn [cols]. rewrite map_map. apply map_ext.
  intros l. cbn [snd]. unfold indicator.
  rewrite nth_lookup, list_lookup_fmap, Hi. done.
Qed.

(** C5.  A categorical term with no registry entry and no explicit level
    list gets the sorted distinct values of its column as levels (written
    to a new list, which the registry receives when [update_levels] is set);
    the frame has one indicator column per level in that order, all of them
    when [drop_dummy] is false and all but the first when it is true.  With
    the first level dropped, the entries of a row sum to at most 1 and are
    all 0 on a row of the first level; in particular three observed levels
    A, B, C give exactly 2 columns. *)
Theorem C5_default_levels_one_hot
    (e : Categorical) (table : list (string * list string)) (column : list string)
    (drop_dummy update_levels : bool) (self : state) :
  categorical_levels self !! name e = None ->
  levels e = None ->
  lookup_label (name e) table = Some column ->
  method e = "one-hot" ->
  let lv := sort (unique column) in
  let encode := fun drop =>
    extract_columns e (PDataFrame table) drop update_levels self in
  (Sorted str_le lv /\ NoDup lv /\ forall x, x ∈ lv <-> x ∈ column) /\
  snd (encode drop_dummy)
  = encoded_state e update_levels (fresh (dom (heap self))) lv self /\
  (forall l0 rest, lv = l0 :: rest ->
     fst (encode drop_dummy)
     = Return (Some (mkDataFrame (length column)
                       (map (fun l => (column_name e l, indicator column l))
                          (if drop_dummy then rest else lv)))) /\
     exists df,
       fst (encode true) = Return (Some df) /\
       length (cols df) = length rest /\
       (forall i v, column !! i = Some v ->
          total (row df i) <= 1 /\
          (v = l0 -> Forall (fun x => x = 0) (row df i)))) /\
  (lv = ["A"; "B"; "C"] ->
   exists df, fst (encode true) = Return (Some df) /\ length (cols df) = 2%nat).
Proof.
  intros Hr Hl Hc Hm lv encode.
  assert (Hnd : NoDup lv) by apply NoDup_sort_unique.
  split.
  { split; [apply sort_Sorted|]. split; [done|]. intros x. apply elem_of_sort_unique. }
  assert (Henc : forall drop,
    encode drop
    = (encode_columns e column lv false drop,
       encoded_state e update_levels (fresh (dom (heap self))) lv self)).
  { intros drop. unfold encode, extract_columns. rewrite Hc.
    rewrite (resolve_fresh e column self) by done.
    unfold encoded_state. destruct update_levels; cbn [categorical_levels heap];
      by rewrite deref_insert. }
  split; [by rewrite Henc|].
  assert (Hrows : forall l0 rest, lv = l0 :: rest ->
    exists df,
       fst (encode true) = Return (Some df) /\
       length (cols df) = length rest /\
       (forall i v, column !! i = Some v ->
          total (row df i) <= 1 /\
          (v = l0 -> Forall (fun x => x = 0) (row df i)))).
  { intros l0 rest Hlv. rewrite Henc. cbn [fst].
    rewrite encode_columns_NoDup by done. rewrite Hlv.
    eexists. split; [reflexivity|]. cbn [cols]. split; [by rewrite length_map|].
    intros i v Hi. rewrite (row_indicators e column rest _ i v Hi).
    rewrite Hlv in Hnd. apply NoDup_cons in Hnd as [Hl0 Hrest].
    split; [by apply hits_NoDup|].
    intros ->. apply Forall_forall. intros x (l & -> & Hin)%list_elem_of_fmap.
    destruct (String.eqb_spec l0 l) as [->|_]; done. }
  split.
  - intros l0 rest Hlv. split; [|by apply Hrows].
    rewrite Henc. cbn [fst]. rewrite encode_columns_NoDup by done.
    by rewrite Hlv.
  - intros Hlv. destruct (Hrows "A" ["B"; "C"] Hlv) as (df & Hdf & Hlen & _).
    by exists df.
Qed.

(** X21.  The first encoding of a categorical term with an explicit
    level list (no registry entry under its name), when at least one listed
    level occurs in the data and no listed level is spelled [~other~]: the
    listed levels that are absent from the data are removed from the list
    and no column is made for them; if the data has a value that is not
    listed, the list ends with [~other~] and the frame has exactly one
    column named for it, which is 1 on the rows whose value is not in the
    explicit list and 0 elsewhere; otherwise there is no such column. *)
Theorem X21_first_encoding_catch_all
    (e : Categorical) (l : loc) (lv0 : list string)
    (table : list (string * list string)) (column : list string)
    (drop_dummy update_levels : bool) (self : state) :
  categorical_levels self !! name e = None ->
  levels e = Some l ->
  heap self !! l = Some lv0 ->
  lookup_label (name e) table = Some column ->
  method e = "one-hot" ->
  other ∉ lv0 ->
  (exists x, x ∈ lv0 /\ x ∈ column) ->
  let lv := reconciled column lv0 in
  exists df,
    extract_columns e (PDataFrame table) drop_dummy update_levels self
    = (Return (Some df), encoded_state e update_levels l lv self) /\
    (forall lab, lab ∈ labels df -> exists x, x ∈ lv /\ lab = column_name e x) /\
    (forall x, x ∈ lv0 -> x ∉ column ->
               (x ∉ lv) /\ (column_name e x ∉ labels df)) /\
    (if has_unlisted column lv0
     then filter (fun c => fst c = column_name e other) (cols df)
          = [(column_name e other,
              map (fun v => if mem v lv0 then 0 else 1) column)]
     else column_name e other ∉ labels df).
Proof.
  intros Hr Hl Hh Hc Hm Hoth (x0 & Hx0 & Hx0c) lv.
  set (kept := filter (fun x => x ∈ column) lv0).
  assert (Hkept : kept <> []).
  { intros E. assert (H : x0 ∈ kept) by (by apply list_elem_of_filter).
    rewrite E in H. by apply elem_of_nil in H. }
  assert (Hok : other ∉ kept).
  { intros [_ H]%list_elem_of_filter. done. }
  assert (Habs : forall x, x ∈ lv0 -> x ∉ column -> x ∉ lv).
  { intros x Hx Hxc. unfold lv, reconciled. rewrite elem_of_app.
    intros [[? _]%list_elem_of_filter|H]; [done|].
    destruct (has_unlisted column lv0); [|by apply elem_of_nil in H].
    apply list_elem_of_singleton in H. by subst. }
  assert (Hst :
    extract_columns e (PDataFrame table) drop_dummy update_levels self
    = (encode_columns e column lv (has_unlisted column lv0) drop_dummy,
       encoded_state e update_levels l lv self)).
  { unfold extract_columns. rewrite Hc.
    rewrite (resolve_explicit e column self l lv0) by done.
    unfold encoded_state. destruct update_levels; cbn [categorical_levels heap];
      by rewrite deref_insert. }
  rewrite Hst.
  assert (Hnames : forall df,
    (forall lab, lab ∈ labels df -> lab ∈ map (column_name e) lv) ->
    (forall lab, lab ∈ labels df -> exists x, x ∈ lv /\ lab = column_name e x) /\
    (forall x, x ∈ lv0 -> x ∉ column -> (x ∉ lv) /\ (column_name e x ∉ labels df))).
  { intros df Hsub. split.
    - intros lab (x & -> & Hx)%Hsub%list_elem_of_fmap. eauto.
    - intros x Hx Hxc. split; [by apply Habs|].
      intros (x' & E & Hx')%Hsub%list_elem_of_fmap.
      apply column_name_inj in E. subst x'. by apply (Habs x). }
  unfold lv, reconciled in *. fold kept in Hnames |- *.
  destruct (has_unlisted column lv0) eqn:Hex.
  - destruct (encode_columns_other e column kept drop_dummy Hm Hkept Hok)
      as (df & -> & _ & Hcol & Hlab).
    exists df. split; [done|]. destruct (Hnames df Hlab) as [H1 H2].
    split; [done|]. split; [done|].
    rewrite Hcol. do 2 f_equal. unfold other_column.
    apply map_ext_in. intros v Hv%list_elem_of_In. unfold mem.
    destruct (decide (v ∈ lv0)) as [Hin|Hin].
    + rewrite bool_decide_eq_true_2 by (by apply list_elem_of_filter).
      by rewrite bool_decide_eq_true_2.
    + rewrite bool_decide_eq_false_2.
      * by rewrite bool_decide_eq_false_2.
      * intros [_ ?]%list_elem_of_filter. done.
  - rewrite app_nil_r in *.
    destruct (encode_columns_plain e column kept drop_dummy Hm Hkept)
      as (df & -> & _ & Hlab).
    exists df. split; [done|]. destruct (Hnames df Hlab) as [H1 H2].
    split; [done|]. split; [done|].
    intros (x & E & Hx)%Hlab%list_elem_of_fmap.
    apply column_name_inj in E. by subst.
Qed.


Lemma other_not_in_AB : other ∉ ["A"; "B"].
Proof.
  intros H. repeat (apply elem_of_cons in H as [H|H]; [discriminate|]).
  by apply elem_of_nil in H.
Qed.

(** C5, at a column with the values B, A, C, A. *)
Lemma C5_witness :
  let e := term_c None in
  let column := ["B"; "A"; "C"; "A"] in
  let lv := sort (unique column) in
  let encode := fun drop =>
    extract_columns e data_baca drop true state_empty in
  (Sorted str_le lv /\ NoDup lv /\ forall x, x ∈ lv <-> x ∈ column) /\
  snd (encode true)
  = encoded_state e true (fresh (dom (heap state_empty))) lv state_empty /\
  (forall l0 rest, lv = l0 :: rest ->
     fst (encode true)
     = Return (Some (mkDataFrame (length column)
                       (map (fun l => (column_name e l, indicator column l))
                          (if true then rest else lv)))) /\
     exists df,
       fst (encode true) = Return (Some df) /\
       length (cols df) = length rest /\
       (forall i v, column !! i = Some v ->
          total (row df i) <= 1 /\
          (v = l0 -> Forall (fun x => x = 0) (row df i)))) /\
  (lv = ["A"; "B"; "C"] ->
   exists df, fst (encode true) = Return (Some df) /\ length (cols df) = 2%nat).
Proof.
  apply (C5_default_levels_one_hot (term_c None)
           [("c", ["B"; "A"; "C"; "A"])] ["B"; "A"; "C"; "A"] true true state_empty).
  - apply lookup_empty.
  - reflexivity.
  - reflexivity.
  - reflexivity.
Defined.

(** X21, at the explicit list [A, B] against data with A, B, C. *)
Lemma X21_witness :
  let e := term_c (Some 1%positive) in
  let column := ["A"; "B"; "C"] in
  let lv0 := ["A"; "B"] in
  let lv := reconciled column lv0 in
  exists df,
    extract_columns e data_abc false true state_ab
    = (Return (Some df), encoded_state e true 1%positive lv state_ab) /\
    (forall lab, lab ∈ labels df -> exists x, x ∈ lv /\ lab = column_name e x) /\
    (forall x, x ∈ lv0 -> x ∉ column ->
               (x ∉ lv) /\ (column_name e x ∉ labels df)) /\
    (if has_unlisted column lv0
     then filter (fun c => fst c = column_name e other) (cols df)
          = [(column_name e other,
              map (fun v => if mem v lv0 then 0 else 1) column)]
     else column_name e other ∉ labels df).
Proof.
  apply (X21_first_encoding_catch_all (term_c (Some 1%positive)) 1%positive
           ["A"; "B"] [("c", ["A"; "B"; "C"])] ["A"; "B"; "C"] false true state_ab).
  - apply lookup_empty.
  - reflexivity.
  - apply lookup_singleton_eq.
  - reflexivity.
  - reflexivity.
  - exact other_not_in_AB.
  - exists "A". split; apply elem_here.
Defined.

(** C9 (the code departs from it).  The encoder takes the term's own
    list object as its working list and edits it in place: encoding the
    term with levels [A, B, Z] on data with A, B, C leaves the term's list
    as [A, B, ~other~], whether or not the registry is to be updated and
    whether or not the reference level is dropped; with [update_levels]
    unset the registry is untouched and the term's list is the only thing
    written. *)
Theorem C9_encoding_edits_the_terms_levels (drop_dummy update_levels : bool) :
  levels (term_c (Some 1%positive)) = Some 1%positive /\
  heap state_abz !! 1%positive = Some ["A"; "B"; "Z"] /\
  heap (snd (extract_columns (term_c (Some 1%positive)) data_abc
               drop_dummy update_levels state_abz)) !! 1%positive
  = Some ["A"; "B"; "~other~"] /\
  categorical_levels (snd (extract_columns (term_c (Some 1%positive)) data_abc
                             drop_dummy false state_abz))
  = categorical_levels state_abz /\
  is_Return (fst (extract_columns (term_c (Some 1%positive)) data_abc
                    drop_dummy update_levels state_abz)).
Proof.
  assert (Hh : heap state_abz !! 1%positive = Some ["A"; "B"; "Z"]).
  { apply lookup_singleton_eq. }
  split; [reflexivity|]. split; [exact Hh|].
  unfold data_abc.
  rewrite !(extract_explicit_state (term_c (Some 1%positive)) _ ["A"; "B"; "C"]
              _ _ state_abz 1%positive ["A"; "B"; "Z"])
    by (apply lookup_empty || reflexivity || exact Hh).
  split.
  { unfold encoded_state. cbn [heap]. rewrite lookup_insert_eq. reflexivity. }
  split; [reflexivity|].
  unfold extract_columns.
  change (lookup_label (name (term_c (Some 1%positive))) [("c", ["A"; "B"; "C"])])
    with (Some ["A"; "B"; "C"]).
  cbv iota.
  rewrite (resolve_explicit (term_c (Some 1%positive)) ["A"; "B"; "C"] state_abz
             1%positive ["A"; "B"; "Z"])
    by (apply lookup_empty || reflexivity || exact Hh).
  change (has_unlisted ["A"; "B"; "C"] ["A"; "B"; "Z"]) with true. cbv iota.
  change (reconciled ["A"; "B"; "C"] ["A"; "B"; "Z"]) with (["A"; "B"] ++ [other]).
  destruct (encode_columns_other (term_c (Some 1%positive)) ["A"; "B"; "C"]
              ["A"; "B"] drop_dummy eq_refl ltac:(done) other_not_in_AB)
    as (df & Hdf & _).
  destruct update_levels; cbn [fst categorical_levels heap];
    rewrite deref_insert, Hdf; done.
Qed.

(** Once the first encoding has written [~other~] into the shared list,
    a second encoding of the same term on the same data (what [predict]
    does, through the registry) treats it as an ordinary level: the
    [~other~] column is then 0 on every row, the rows of C included. *)
Lemma second_encoding_loses_catch_all :
  let e := term_c (Some 1%positive) in
  let st := snd (extract_columns e data_abc false true state_ab) in
  categorical_levels st !! "c" = Some 1%positive /\
  heap st !! 1%positive = Some ["A"; "B"; "~other~"] /\
  fst (extract_columns e data_abc false false st)
  = Return (Some (mkDataFrame 3
              [("c::A", [1; 0; 0]); ("c::B", [0; 1; 0]); ("c::~other~", [0; 0; 0])])).
Proof.
  intros e st.
  assert (Hst : st = encoded_state e true 1%positive ["A"; "B"; "~other~"] state_ab).
  { unfold st, data_abc.
    rewrite (extract_explicit_state e _ ["A"; "B"; "C"] _ _ state_ab 1%positive ["A"; "B"])
      by (apply lookup_empty || reflexivity || apply lookup_singleton_eq).
    reflexivity. }
  rewrite Hst. unfold encoded_state. cbn [categorical_levels heap].
  split; [apply lookup_insert_eq|]. split; [apply lookup_insert_eq|].
  unfold extract_columns, data_abc.
  change (lookup_label (name e) [("c", ["A"; "B"; "C"])]) with (Some ["A"; "B"; "C"]).
  cbv iota. unfold resolve_levels. cbn [categorical_levels].
  replace (<[display e := 1%positive]> (categorical_levels state_ab) !! name e)
    with (Some 1%positive) by (symmetry; apply lookup_insert_eq).
  cbn [fst]. rewrite deref_insert.
  rewrite encode_columns_NoDup; [reflexivity|reflexivity|].
  repeat (apply NoDup_cons; split;
          [intros H; repeat (apply elem_of_cons in H as [H|H]; [discriminate|]);
           by apply elem_of_nil in H|]).
  apply NoDup_nil_2.
Qed.

(** C6 (the code departs from it).  On data with the values A, B, C and
    an empty registry, the catch-all column does not absorb the rows whose
    value is not listed in two cases.  With the explicit list [Z], no
    listed level occurs in the data: the list becomes [~other~], the frame is
    built from an empty dict and has no rows, so the [~other~] column is
    empty instead of 1 on all three rows.  With the explicit list [A, B],
    the first encoding gives the [~other~] column 0, 0, 1 and writes
    [~other~] into the term's list and the registry; the second encoding of
    the same term on the same data reads the levels from the registry,
    takes [~other~] for an ordinary level, and gives 0 on the row of C as
    well. *)
Theorem C6_catch_all_column_lost :
  let e := term_c (Some 1%positive) in
  (heap state_z !! 1%positive = Some ["Z"] /\
   fst (extract_columns e data_abc false false state_z)
   = Return (Some (mkDataFrame 0 [("c::~other~", [])]))) /\
  (heap state_ab !! 1%positive = Some ["A"; "B"] /\
   (exists df,
      fst (extract_columns e data_abc false true state_ab) = Return (Some df) /\
      filter (fun c => fst c = "c::~other~") (cols df)
      = [("c::~other~", [0; 0; 1])]) /\
   fst (extract_columns e data_abc false false
          (snd (extract_columns e data_abc false true state_ab)))
   = Return (Some (mkDataFrame 3
               [("c::A", [1; 0; 0]); ("c::B", [0; 1; 0]);
                ("c::~other~", [0; 0; 0])]))).
Proof.
  intros e. split; [|split; [|split]].
  - split; [apply lookup_singleton_eq|].
    unfold extract_columns, data_abc.
    change (lookup_label (name e) [("c", ["A"; "B"; "C"])]) with (Some ["A"; "B"; "C"]).
    cbv iota.
    rewrite (resolve_explicit e ["A"; "B"; "C"] state_z 1%positive ["Z"])
      by (apply lookup_empty || reflexivity || apply lookup_singleton_eq).
    change (has_unlisted ["A"; "B"; "C"] ["Z"]) with true.
    change (reconciled ["A"; "B"; "C"] ["Z"]) with [other].
    cbn [fst]. rewrite deref_insert. reflexivity.
  - apply lookup_singleton_eq.
  - unfold extract_columns, data_abc.
    change (lookup_label (name e) [("c", ["A"; "B"; "C"])]) with (Some ["A"; "B"; "C"]).
    cbv iota.
    rewrite (resolve_explicit e ["A"; "B"; "C"] state_ab 1%positive ["A"; "B"])
      by (apply lookup_empty || reflexivity || apply lookup_singleton_eq).
    change (has_unlisted ["A"; "B"; "C"] ["A"; "B"]) with true.
    change (reconciled ["A"; "B"; "C"] ["A"; "B"]) with (["A"; "B"] ++ [other]).
    destruct (encode_columns_other e ["A"; "B"; "C"] ["A"; "B"] false eq_refl
                ltac:(done) other_not_in_AB)
      as (df & Hdf & _ & Hcol & _).
    exists df. cbn [fst categorical_levels heap]. rewrite deref_insert.
    split; [exact Hdf|]. exact Hcol.
  - exact (proj2 (proj2 second_encoding_loses_catch_all)).
Qed.

End EncoderFacts.

(** * Further properties *)

(** ** What a fit that returns has stored *)

Module FitSpecFacts.
Import LinAlg Pandas Systems Model Design LinAlgFacts CenteringFacts SolveFacts FitFacts.
Local Open Scope R_scope.

(** Expose the record built by the last assignment of [_fit]. *)
Ltac fit_unfold := unfold set_p_vals; fit_cbn.

Lemma design_values icpt X :
  (icpt = true -> "Intercept" ∉ labels X) ->
  values (design icpt X)
  = if icpt then values X ++ [ones (index_len X)] else values X.
Proof.
  intros H. destruct icpt; [|done]. unfold design.
  by rewrite values_setitem_intercept by auto.
Qed.

Lemma design_labels icpt X :
  (icpt = true -> "Intercept" ∉ labels X) ->
  labels (design icpt X)
  = if icpt then labels X ++ ["Intercept"] else labels X.
Proof.
  intros H. destruct icpt; [|done]. unfold design.
  by rewrite labels_setitem_intercept by auto.
Qed.

Lemma design_index_len icpt X : index_len (design icpt X) = index_len X.
Proof. by destruct icpt. Qed.

Lemma design_wf icpt X :
  wf_frame X -> (icpt = true -> "Intercept" ∉ labels X) ->
  cols_len (index_len X) (values (design icpt X)).
Proof.
  intros Hwf H. rewrite design_values by done.
  destruct icpt; [|by apply cols_len_values].
  apply cols_len_aug. by apply cols_len_values.
Qed.

Section FitSpec.
Context (C : Collaborator) (Sci : Scipy).

(** The object a returning [_fit] leaves behind and the table it
    returns, in terms of the evaluated [X] and [y]: once the first solve
    has returned, every attribute is assigned, from the unique solution [b]
    of the normal equations of the design matrix. *)
Lemma fit_solved_spec (data : Data C) (self : LinearModel C) X y bc :
  evaluate C (interpret C (copy C (given_ex C self)) data) data true = Return X ->
  evaluate_response C (interpret C (copy C (given_re C self)) data) data = Return y ->
  wf_frame X -> length (snd y) = index_len X ->
  (intercept C self = true -> ("Intercept" ∉ labels X) /\ index_len X <> O) ->
  solve_vec (gram (design_cols (intercept C self) X))
    (xty (design_cols (intercept C self) X)
       (if intercept C self then center (snd y) else snd y)) = Return bc ->
  let D := design (intercept C self) X in
  let n := index_len X in
  let df := (shape0 X - shape1 X - 1)%Z in
  exists b V,
    let fit_v := mulv n (values D) b in
    let res := vsub (snd y) fit_v in
    let sigma := sqrt (sum_sq res / IZR df) in
    let se := zip (labels D) (map sqrt (diagonal V)) in
    let t := zip_with (fun b s => (fst b, snd b / snd s)) (zip (labels D) b) se in
    let pv := map (fun t => (fst t, 2 * t_cdf Sci (- Rabs (snd t)) df)) t in
    length b = length (cols D) /\
    invertible (gram (values D)) /\
    sol (normal_rows (values D) (snd y)) b /\
    solve (gram (values D)) (length (cols D))
      (mscale (sigma ^ 2) (identity (length (cols D)))) = Return V /\
    _fit C Sci data self
    = (Return (concat4 (zip (labels D) b) se t pv),
       mkLinearModel C (given_ex C self) (given_re C self) (intercept C self)
         (Some (interpret C (copy C (given_ex C self)) data))
         (Some (interpret C (copy C (given_re C self)) data))
         (Some (zip (labels D) b)) (Some fit_v) (Some res) (Some sigma)
         (Some se) (Some (labels D, V)) (Some t) (Some pv)
         (Some data) (Some X) (Some y) (Some (frame_mean X))
         (Some (mean (snd y))) ∅).
Proof.
  intros Hx Hy Hwf Hl Hlab Ec D n df.
  pose proof (cols_len_values X Hwf) as Hcl.
  unfold _fit, _fit_with. fit_cbn. rewrite Hx, Hy. fit_cbn.
  subst D. unfold design_cols in Ec. destruct (intercept C self) eqn:Hi.
  - destruct (Hlab eq_refl) as [Hfresh Hn].
    rewrite values_frame_sub_mean, labels_frame_sub_mean, frame_add_sub_mean.
    rewrite map_snd_frame_mean.
    change (index_len (frame_sub X (frame_mean X))) with (index_len X).
    rewrite length_shift, Hl, Nat.eqb_refl. cbn [negb].
    change (shift (mean y.2) y.2) with (center y.2).
    rewrite Ec.
    pose proof (solve_vec_length _ _ _ Ec) as Hbc.
    rewrite length_gram, length_map, length_values in Hbc.
    set (b := bc ++ [mean (snd y) - dot (map mean (values X)) bc]).
    assert (Hsv : solve_vec (gram (values X ++ [ones n])) (xty (values X ++ [ones n]) (snd y))
                  = Return b).
    { rewrite (solve_centered_aug n) by done. by rewrite Ec. }
    assert (Hlen : length (xty (values X ++ [ones n]) (snd y))
                   = length (gram (values X ++ [ones n]))).
    { by rewrite length_gram, length_xty. }
    pose proof (solve_vec_Return_invertible _ _ _ (square_gram _) Hlen Hsv) as Hinv.
    destruct (solve_vec_total _ _ (square_gram _) Hlen Hinv) as (b' & E' & Hb & Hs).
    rewrite Hsv in E'. injection E' as <-.
    rewrite length_gram, length_app, length_values in Hb. simpl in Hb.
    unfold design.
    rewrite (setitem_scalar_fresh X "Intercept" 1 Hfresh).
    rewrite snd_zip_eq by (by rewrite length_labels).
    rewrite loc_set_fresh by (by rewrite fst_zip_eq by (by rewrite length_labels)).
    rewrite <- zip_snoc by (by rewrite length_labels).
    fold b.
    cbn [cols index_len].
    rewrite !values_snoc, ?labels_snoc. fold (values X) (labels X).
    set (lab := labels X ++ ["Intercept"]).
    assert (Hlablen : length lab = length b).
    { unfold lab. rewrite length_app, length_labels, Hb. simpl. lia. }
    rewrite length_app, length_zip_eq by done. cbn [length].
    rewrite Hlablen, Hb.
    replace (length (cols X) + 1)%nat with (S (length (cols X))) by lia.
    rewrite Nat.eqb_refl. cbn [negb].
    rewrite !unshift_center.
    change (repeat 1 (index_len X)) with (ones n).
    rewrite snd_zip_eq by done.
    replace (shape0 {| index_len := index_len X; cols := cols X ++ [("Intercept", ones n)] |}
             - (shape1 {| index_len := index_len X; cols := cols X ++ [("Intercept", ones n)] |} - 1) - 1)%Z
      with df.
    2:{ unfold df, shape0, shape1. cbn [cols index_len]. rewrite length_app. simpl. lia. }
    fold n.
    set (res := vsub (snd y) (mulv n (values X ++ [ones n]) b)).
    set (sigma := sqrt (sum_sq res / IZR df)).
    destruct (solve_total (gram (values X ++ [ones n])) (S (length (cols X)))
                (mscale (sigma ^ 2) (identity (S (length (cols X))))))
      as (V & EV); auto using square_gram.
    { rewrite length_mscale, length_identity, length_gram, length_app, length_values.
      simpl. lia. }
    rewrite EV.
    subst sigma res. exists b, V. cbv zeta.
    split; [lia|]. split; [done|]. split; [exact Hs|].
    split; [exact EV|].
    rewrite ?fst_zip_eq by done. fit_unfold. rewrite ?Hi. reflexivity.
  - rewrite Hl, Nat.eqb_refl. cbn [negb]. rewrite Ec.
    pose proof (solve_vec_length _ _ _ Ec) as Hb.
    rewrite length_gram, length_values in Hb.
    assert (Hlen : length (xty (values X) (snd y)) = length (gram (values X))).
    { by rewrite length_gram, length_xty. }
    pose proof (solve_vec_Return_invertible _ _ _ (square_gram _) Hlen Ec) as Hinv.
    destruct (solve_vec_total _ _ (square_gram _) Hlen Hinv) as (b' & E' & _ & Hs).
    rewrite Ec in E'. injection E' as <-.
    unfold design.
    assert (Hlablen : length (labels X) = length bc).
    { by rewrite length_labels. }
    rewrite length_zip_eq by done. rewrite length_labels, Nat.eqb_refl. cbn [negb].
    rewrite snd_zip_eq by done.
    replace (shape0 X - (shape1 X - 0) - 1)%Z with df by (unfold df; lia).
    fold n.
    set (res := vsub (snd y) (mulv n (values X) bc)).
    set (sigma := sqrt (sum_sq res / IZR df)).
    destruct (solve_total (gram (values X)) (length (cols X))
                (mscale (sigma ^ 2) (identity (length (cols X)))))
      as (V & EV); auto using square_gram.
    { by rewrite length_mscale, length_identity, length_gram, length_values. }
    rewrite EV.
    subst sigma res. exists bc, V. cbv zeta.
    split; [done|]. split; [done|]. split; [exact Hs|].
    split; [exact EV|].
    rewrite ?fst_zip_eq by done. fit_unfold. rewrite ?Hi. reflexivity.
Qed.

(** A fit that returns has passed the first solve. *)
Lemma fit_Return_solved (data : Data C) (self : LinearModel C) X y :
  evaluate C (interpret C (copy C (given_ex C self)) data) data true = Return X ->
  evaluate_response C (interpret C (copy C (given_re C self)) data) data = Return y ->
  is_Return (fst (_fit C Sci data self)) ->
  length (snd y) = index_len X /\
  exists bc,
    solve_vec (gram (design_cols (intercept C self) X))
      (xty (design_cols (intercept C self) X)
         (if intercept C self then center (snd y) else snd y)) = Return bc.
Proof.
  intros Hx Hy. unfold _fit, _fit_with. fit_cbn. rewrite Hx, Hy. fit_cbn.
  unfold design_cols. destruct (intercept C self) eqn:Hi.
  - rewrite values_frame_sub_mean.
    change (index_len (frame_sub X (frame_mean X))) with (index_len X).
    rewrite length_shift.
    destruct (Nat.eqb_spec (index_len X) (length (snd y))) as [Hl|Hl]; [|by intros []].
    cbn [negb]. change (shift (mean y.2) y.2) with (center y.2).
    destruct (solve_vec _ _) as [bc|]; [|by intros []]. intros _. eauto.
  - destruct (Nat.eqb_spec (index_len X) (length (snd y))) as [Hl|Hl]; [|by intros []].
    cbn [negb].
    destruct (solve_vec _ _) as [bc|]; [|by intros []]. intros _. eauto.
Qed.

Lemma fit_Return_spec (data : Data C) (self : LinearModel C) X y :
  evaluate C (interpret C (copy C (given_ex C self)) data) data true = Return X ->
  evaluate_response C (interpret C (copy C (given_re C self)) data) data = Return y ->
  wf_frame X ->
  (intercept C self = true -> ("Intercept" ∉ labels X) /\ index_len X <> O) ->
  is_Return (fst (_fit C Sci data self)) ->
  let D := design (intercept C self) X in
  let n := index_len X in
  let df := (shape0 X - shape1 X - 1)%Z in
  length (snd y) = n /\
  exists b V,
    let fit_v := mulv n (values D) b in
    let res := vsub (snd y) fit_v in
    let sigma := sqrt (sum_sq res / IZR df) in
    let se := zip (labels D) (map sqrt (diagonal V)) in
    let t := zip_with (fun b s => (fst b, snd b / snd s)) (zip (labels D) b) se in
    let pv := map (fun t => (fst t, 2 * t_cdf Sci (- Rabs (snd t)) df)) t in
    length b = length (cols D) /\
    invertible (gram (values D)) /\
    sol (normal_rows (values D) (snd y)) b /\
    solve (gram (values D)) (length (cols D))
      (mscale (sigma ^ 2) (identity (length (cols D)))) = Return V /\
    _fit C Sci data self
    = (Return (concat4 (zip (labels D) b) se t pv),
       mkLinearModel C (given_ex C self) (given_re C self) (intercept C self)
         (Some (interpret C (copy C (given_ex C self)) data))
         (Some (interpret C (copy C (given_re C self)) data))
         (Some (zip (labels D) b)) (Some fit_v) (Some res) (Some sigma)
         (Some se) (Some (labels D, V)) (Some t) (Some pv)
         (Some data) (Some X) (Some y) (Some (frame_mean X))
         (Some (mean (snd y))) ∅).
Proof.
  intros Hx Hy Hwf Hlab Hret.
  destruct (fit_Return_solved data self X y Hx Hy Hret) as (Hl & bc & Ec).
  split; [done|]. by eapply fit_solved_spec.
Qed.

(** Whatever the solver: once its first call has returned a vector with
    one entry per column, [_fit] has stored the coefficients, the fitted
    values, the residuals and the residual standard error when it makes the
    second call, and what it leaves depends on that call alone. *)
Lemma fit_with_solved {T} (Np : Numpy) (reduce : Expr C -> result T)
    (data : Data C) (self : LinearModel C) X y bc :
  is_Return (reduce (interpret C (copy C (given_ex C self)) data)) ->
  evaluate C (interpret C (copy C (given_ex C self)) data) data true = Return X ->
  evaluate_response C (interpret C (copy C (given_re C self)) data) data = Return y ->
  length (snd y) = index_len X ->
  (intercept C self = true -> "Intercept" ∉ labels X) ->
  linalg_solve_vec Np (gram (design_cols (intercept C self) X))
    (xty (design_cols (intercept C self) X)
       (if intercept C self then center (snd y) else snd y)) = Return bc ->
  length bc = length (cols X) ->
  let D := design (intercept C self) X in
  let n := index_len X in
  let df := (shape0 X - shape1 X - 1)%Z in
  let b := if intercept C self
           then bc ++ [mean (snd y) - dot (map mean (values X)) bc] else bc in
  let fit_v := mulv n (values D) b in
  let res := vsub (snd y) fit_v in
  let sigma := sqrt (sum_sq res / IZR df) in
  _fit_with C Sci Np reduce data self
  = match linalg_solve Np (gram (values D)) (length (cols D))
            (mscale (sigma ^ 2) (identity (length (cols D)))) with
    | Raise e =>
        (Raise e,
         mkLinearModel C (given_ex C self) (given_re C self) (intercept C self)
           (Some (interpret C (copy C (given_ex C self)) data))
           (Some (interpret C (copy C (given_re C self)) data))
           (Some (zip (labels D) b)) (Some fit_v) (Some res) (Some sigma)
           (std_err_vars C self) (var C self) (t_vals C self) (p_vals C self)
           (Some data) (Some X) (Some y) (Some (frame_mean X))
           (Some (mean (snd y))) ∅)
    | Return V =>
        let se := zip (labels D) (map sqrt (diagonal V)) in
        let t := zip_with (fun b s => (fst b, snd b / snd s)) (zip (labels D) b) se in
        let pv := map (fun t => (fst t, 2 * t_cdf Sci (- Rabs (snd t)) df)) t in
        (Return (concat4 (zip (labels D) b) se t pv),
         mkLinearModel C (given_ex C self) (given_re C self) (intercept C self)
           (Some (interpret C (copy C (given_ex C self)) data))
           (Some (interpret C (copy C (given_re C self)) data))
           (Some (zip (labels D) b)) (Some fit_v) (Some res) (Some sigma)
           (Some se) (Some (labels D, V)) (Some t) (Some pv)
           (Some data) (Some X) (Some y) (Some (frame_mean X))
           (Some (mean (snd y))) ∅)
    end.
Proof.
  intros Hred Hx Hy Hl Hlab Ec Hbc D n df b.
  unfold _fit_with. fit_cbn.
  destruct (reduce _) as [terms|]; [|done].
  rewrite Hx, Hy. fit_cbn.
  subst D b. unfold design_cols in Ec. destruct (intercept C self) eqn:Hi.
  - specialize (Hlab eq_refl).
    rewrite values_frame_sub_mean, labels_frame_sub_mean, frame_add_sub_mean.
    rewrite map_snd_frame_mean.
    change (index_len (frame_sub X (frame_mean X))) with (index_len X).
    rewrite length_shift, Hl, Nat.eqb_refl. cbn [negb].
    change (shift (mean y.2) y.2) with (center y.2).
    rewrite Ec.
    set (b := bc ++ [mean (snd y) - dot (map mean (values X)) bc]).
    assert (Hb : length b = S (length (cols X))).
    { unfold b. rewrite length_app, Hbc. simpl. lia. }
    unfold design.
    rewrite (setitem_scalar_fresh X "Intercept" 1 Hlab).
    rewrite snd_zip_eq by (by rewrite length_labels).
    rewrite loc_set_fresh by (by rewrite fst_zip_eq by (by rewrite length_labels)).
    rewrite <- zip_snoc by (by rewrite length_labels).
    fold b.
    cbn [cols index_len].
    rewrite !values_snoc, ?labels_snoc. fold (values X) (labels X).
    set (lab := labels X ++ ["Intercept"]).
    assert (Hlablen : length lab = length b).
    { unfold lab. rewrite length_app, length_labels, Hb. simpl. lia. }
    rewrite length_app, length_zip_eq by done. cbn [length].
    rewrite Hlablen, Hb.
    replace (length (cols X) + 1)%nat with (S (length (cols X))) by lia.
    rewrite Nat.eqb_refl. cbn [negb].
    rewrite !unshift_center.
    change (repeat 1 (index_len X)) with (ones n).
    rewrite snd_zip_eq by done.
    replace (shape0 {| index_len := index_len X; cols := cols X ++ [("Intercept", ones n)] |}
             - (shape1 {| index_len := index_len X; cols := cols X ++ [("Intercept", ones n)] |} - 1) - 1)%Z
      with df.
    2:{ unfold df, shape0, shape1. cbn [cols index_len]. rewrite length_app. simpl. lia. }
    fold n. cbv zeta.
    destruct (linalg_solve Np _ _ _) as [V|e].
    + rewrite ?fst_zip_eq by done. fit_unfold. rewrite ?Hi. reflexivity.
    + unfold set_std_err_est. fit_cbn. rewrite ?Hi. reflexivity.
  - rewrite Hl, Nat.eqb_refl. cbn [negb]. rewrite Ec.
    unfold design.
    assert (Hlablen : length (labels X) = length bc).
    { by rewrite length_labels. }
    rewrite length_zip_eq by done. rewrite length_labels, Nat.eqb_refl. cbn [negb].
    rewrite snd_zip_eq by done.
    replace (shape0 X - (shape1 X - 0) - 1)%Z with df by (unfold df; lia).
    fold n. cbv zeta.
    destruct (linalg_solve Np _ _ _) as [V|e].
    + rewrite ?fst_zip_eq by done. fit_unfold. rewrite ?Hi. reflexivity.
    + unfold set_std_err_est. fit_cbn. rewrite ?Hi. reflexivity.
Qed.

End FitSpec.
End FitSpecFacts.

(** ** The stored coefficients are a least-squares solution *)

Module LeastSquaresFacts.
Import LinAlg Pandas Systems Model Design Examples.
Import LinAlgFacts CenteringFacts SolveFacts FitFacts ExampleFacts FitSpecFacts.
Local Open Scope R_scope.

(** *** Sums of squares *)

Lemma sum_sq_dot u : sum_sq u = dot u u.
Proof.
  unfold sum_sq. induction u as [|x u IH]; [done|].
  cbn [map dot]. rewrite total_cons, IH. lra.
Qed.

Lemma sum_sq_nonneg u : 0 <= sum_sq u.
Proof.
  unfold sum_sq. induction u as [|x u IH]; [simpl; lra|].
  cbn [map]. rewrite total_cons. pose proof (pow2_ge_0 x). lra.
Qed.

Lemma vsub_split y f g :
  length y = length f -> length f = length g ->
  vsub y g = vadd (vsub y f) (vsub f g).
Proof.
  revert f g; induction y as [|a y IH]; intros [|b f] [|c g] H1 H2;
    simpl in *; try done.
  unfold vsub, vadd in *. rewrite (IH f g) by lia. f_equal. lra.
Qed.

Lemma vsub_anti u v : vsub u v = scale (-1) (vsub v u).
Proof.
  revert v; induction u as [|a u IH]; intros [|b v]; simpl; try done.
  unfold vsub, scale in *. rewrite IH. f_equal. lra.
Qed.

Lemma sum_sq_vadd u v :
  length u = length v -> sum_sq (vadd u v) = sum_sq u + 2 * dot u v + sum_sq v.
Proof.
  rewrite !sum_sq_dot.
  revert v; induction u as [|a u IH]; intros [|b v] H; simpl in *; try done; [lra|].
  unfold vadd in *. rewrite IH by lia. lra.
Qed.

(** *** The product is linear in the coefficients *)

Lemma vadd_scale_vsub a b c u v :
  vsub (vadd (scale a c) u) (vadd (scale b c) v)
  = vadd (scale (a - b) c) (vsub u v).
Proof.
  revert u v; induction c as [|x c IH]; intros [|p u] [|q v]; simpl; try done.
  unfold vsub, vadd, scale in *. rewrite IH. f_equal. lra.
Qed.

Lemma vsub_zeros_zeros n : vsub (zeros n) (zeros n) = zeros n.
Proof. rewrite vsub_zeros_r; [done|apply length_zeros]. Qed.

Lemma mulv_vsub n cs b b' :
  length b = length b' ->
  vsub (mulv n cs b) (mulv n cs b') = mulv n cs (vsub b b').
Proof.
  revert b b'; induction cs as [|c cs IH]; intros [|x b] [|x' b'] H;
    simpl in *; try done; try apply vsub_zeros_zeros.
  rewrite vadd_scale_vsub. f_equal. apply IH. lia.
Qed.

(** A vector orthogonal to every column is orthogonal to every product. *)
Lemma dot_mulv_orthogonal n cs r d :
  cols_len n cs -> length r = n ->
  Forall (fun c => dot c r = 0) cs -> dot r (mulv n cs d) = 0.
Proof.
  intros Hcl Hr Ho. revert d. induction Hcl as [|c cs Hc Hcl IH]; intros [|x d];
    simpl; rewrite ?dot_zeros_r; try done.
  apply Forall_cons in Ho as [Hc0 Ho].
  rewrite dot_vadd_r by (rewrite length_scale, length_mulv by done; done).
  rewrite dot_scale_r, (dot_comm r c), Hc0, IH by done. lra.
Qed.

(** The normal equations, read on the residual [y - X b]. *)
Lemma sol_normal_residual n cs y b :
  cols_len n cs -> length y = n ->
  sol (normal_rows cs y) b
  <-> Forall (fun c => dot c (vsub y (mulv n cs b)) = 0) cs.
Proof.
  intros Hcl Hy. unfold normal_rows. rewrite (sol_gram n) by done.
  apply Forall_iff_on. apply Forall_forall. intros c _.
  rewrite (vsub_anti y), dot_scale_r. split; intros; lra.
Qed.

(** Least squares: a solution of the normal equations has the smallest sum of
    squared residuals. *)
Lemma normal_minimal n cs y b b' :
  cols_len n cs -> length y = n -> length b' = length b ->
  sol (normal_rows cs y) b ->
  sse_of n cs y b <= sse_of n cs y b'.
Proof.
  intros Hcl Hy Hb Hs. unfold sse_of.
  apply (sol_normal_residual n) in Hs; [|done..].
  set (r := vsub y (mulv n cs b)) in *.
  assert (Hr : length r = n).
  { unfold r. rewrite length_vsub; rewrite ?length_mulv; done. }
  rewrite (vsub_split y (mulv n cs b) (mulv n cs b'))
    by (rewrite !length_mulv by done; done).
  fold r. rewrite mulv_vsub by done.
  rewrite sum_sq_vadd by (rewrite length_mulv by done; done).
  rewrite (dot_mulv_orthogonal n) by done.
  pose proof (sum_sq_nonneg (mulv n cs (vsub b b'))). lra.
Qed.

Section LeastSquares.
Context (C : Collaborator) (Sci : Scipy).

(** X1.  After a fit that returns, the stored residuals are orthogonal to
    every column of the training design matrix, and with an intercept they
    sum to zero: the stored coefficients satisfy the normal equations of the
    uncentred data. *)
Theorem X1_fit_residuals_orthogonal
    (data : Data C) (self : LinearModel C) X y :
  evaluate C (interpret C (copy C (given_ex C self)) data) data true = Return X ->
  evaluate_response C (interpret C (copy C (given_re C self)) data) data = Return y ->
  wf_frame X ->
  (intercept C self = true -> ("Intercept" ∉ labels X) /\ index_len X <> O) ->
  is_Return (fst (_fit C Sci data self)) ->
  exists f res,
    fitted C (snd (_fit C Sci data self)) = Some f /\
    residuals C (snd (_fit C Sci data self)) = Some res /\
    res = vsub (snd y) f /\
    length res = index_len X /\
    Forall (fun c => dot c res = 0) (values X) /\
    (intercept C self = true -> total res = 0).
Proof.
  intros Hx Hy Hwf Hlab Hret.
  destruct (fit_Return_spec C Sci data self X y Hx Hy Hwf Hlab Hret)
    as (Hl & b & V & Hb & _ & Hs & _ & Hfit).
  cbv zeta in Hfit. rewrite Hfit. cbn [snd fitted residuals].
  eexists _, _. split; [reflexivity|]. split; [reflexivity|]. split; [reflexivity|].
  assert (Hfresh : intercept C self = true -> "Intercept" ∉ labels X).
  { intros Hi. by apply Hlab. }
  pose proof (design_wf (intercept C self) X Hwf Hfresh) as Hcl.
  apply (sol_normal_residual (index_len X)) in Hs; [|done..].
  split.
  { rewrite length_vsub; rewrite ?length_mulv; done. }
  rewrite design_values in Hs, Hcl |- * by done.
  destruct (intercept C self); cbv iota in Hs, Hcl |- *.
  - apply Forall_app in Hs as [Hs H1]. split; [done|]. intros _.
    apply Forall_cons in H1 as [H1 _].
    rewrite (dot_ones_l (index_len X)) in H1; [done|].
    rewrite length_vsub; rewrite ?length_mulv; done.
  - split; [done|]. discriminate.
Qed.

(** X2.  After a fit that returns, no coefficient vector of the same
    length gives a smaller sum of squared residuals on the training design
    matrix than the stored one. *)
Theorem X2_fit_minimises_sse
    (data : Data C) (self : LinearModel C) X y :
  evaluate C (interpret C (copy C (given_ex C self)) data) data true = Return X ->
  evaluate_response C (interpret C (copy C (given_re C self)) data) data = Return y ->
  wf_frame X ->
  (intercept C self = true -> ("Intercept" ∉ labels X) /\ index_len X <> O) ->
  is_Return (fst (_fit C Sci data self)) ->
  let D := design (intercept C self) X in
  exists bh res,
    bhat C (snd (_fit C Sci data self)) = Some bh /\
    residuals C (snd (_fit C Sci data self)) = Some res /\
    map fst bh = labels D /\
    sum_sq res = sse_of (index_len X) (values D) (snd y) (map snd bh) /\
    forall b', length b' = length bh ->
      sum_sq res <= sse_of (index_len X) (values D) (snd y) b'.
Proof.
  intros Hx Hy Hwf Hlab Hret D.
  destruct (fit_Return_spec C Sci data self X y Hx Hy Hwf Hlab Hret)
    as (Hl & b & V & Hb & _ & Hs & _ & Hfit).
  cbv zeta in Hfit. rewrite Hfit. cbn [snd bhat residuals]. fold D in Hb, Hs |- *.
  assert (Hlb : length (labels D) = length b) by (by rewrite length_labels).
  eexists _, _. split; [reflexivity|]. split; [reflexivity|].
  rewrite fst_zip_eq, snd_zip_eq by done.
  split; [done|]. split; [done|].
  intros b' Hb'. rewrite length_zip_eq in Hb' by done.
  assert (Hfresh : intercept C self = true -> "Intercept" ∉ labels X).
  { intros Hi. by apply Hlab. }
  apply (normal_minimal (index_len X) (values D) (snd y) b b'); auto.
  - by apply design_wf.
  - congruence.
Qed.

End LeastSquares.

(** X1, at the fit on [data4]. *)
Lemma X1_witness :
  exists f res,
    fitted table_collaborator (fitted4 scipy_2df) = Some f /\
    residuals table_collaborator (fitted4 scipy_2df) = Some res /\
    res = vsub (snd y4) f /\
    length res = index_len X4 /\
    Forall (fun c => dot c res = 0) (values X4) /\
    (intercept table_collaborator model_xy = true -> total res = 0).
Proof.
  apply (X1_fit_residuals_orthogonal table_collaborator scipy_2df data4 model_xy X4 y4).
  - reflexivity.
  - reflexivity.
  - exact wf_X4.
  - intros _. split; [exact intercept_fresh_x|discriminate].
  - apply fit_data4.
Defined.

(** X2, at the fit on [data4]. *)
Lemma X2_witness :
  exists bh res,
    bhat table_collaborator (fitted4 scipy_2df) = Some bh /\
    residuals table_collaborator (fitted4 scipy_2df) = Some res /\
    map fst bh = labels (design (intercept table_collaborator model_xy) X4) /\
    sum_sq res
    = sse_of (index_len X4)
        (values (design (intercept table_collaborator model_xy) X4))
        (snd y4) (map snd bh) /\
    forall b', length b' = length bh ->
      sum_sq res
      <= sse_of (index_len X4)
           (values (design (intercept table_collaborator model_xy) X4))
           (snd y4) b'.
Proof.
  apply (X2_fit_minimises_sse table_collaborator scipy_2df data4 model_xy X4 y4).
  - reflexivity.
  - reflexivity.
  - exact wf_X4.
  - intros _. split; [exact intercept_fresh_x|discriminate].
  - apply fit_data4.
Defined.

End LeastSquaresFacts.

(** ** The covariance matrix and the coefficient table *)

Module FitTableFacts.
Import LinAlg Pandas Systems Model Design Examples.
Import LinAlgFacts CenteringFacts SolveFacts FitFacts ExampleFacts StateFacts FitSpecFacts.
Local Open Scope R_scope.

(** *** The matrix solve is sound *)

Lemma sol_zip_map a (c x : list R) :
  length c = length a -> sol (zip a c) x -> map (fun row => dot row x) a = c.
Proof.
  unfold sol. revert c; induction a as [|r a IH]; intros [|ci c] Hl Hs;
    simpl in *; try done.
  apply Forall_cons in Hs as [H1 Hs]. simpl in H1. rewrite H1. f_equal.
  apply IH; [lia|done].
Qed.

Lemma solve_columns_sound a bs xs :
  square a -> Forall (fun b => length b = length a) bs ->
  solve_columns a bs = Return xs ->
  Forall2 (fun b x => length x = length a /\ sol (zip a b) x) bs xs.
Proof.
  intros Hsq Hbs. revert xs. induction Hbs as [|b bs Hb Hbs IH]; intros xs; simpl.
  - intros [= <-]. constructor.
  - destruct (solve_vec a b) as [x|] eqn:E; [|done].
    destruct (solve_columns a bs) as [xs'|]; [|done]. intros [= <-].
    constructor; [|by apply IH].
    pose proof (solve_vec_Return_invertible a b x Hsq Hb E) as Hinv.
    destruct (solve_vec_total a b Hsq Hb Hinv) as (x' & E' & Hx & Hs).
    rewrite E in E'. by injection E' as <-.
Qed.

Lemma map_nth_seq_id (x : list R) k :
  length x = k -> map (fun i => nth i x 0) (seq 0 k) = x.
Proof.
  intros <-. apply list_eq. intros i. rewrite list_lookup_fmap.
  destruct (decide (i < length x)%nat) as [Hi|Hi].
  - rewrite lookup_seq_lt by done. cbn.
    destruct (lookup_lt_is_Some_2 x i Hi) as [v Hv].
    by rewrite (nth_lookup_Some _ _ _ _ Hv), Hv.
  - rewrite lookup_seq_ge by lia. cbn. symmetry. apply lookup_ge_None. lia.
Qed.

Lemma column_transpose k (xs : list (list R)) j x :
  xs !! j = Some x -> length x = k -> column j (transpose k xs) = x.
Proof.
  intros Hj Hx. unfold column, transpose. rewrite map_map.
  transitivity (map (fun i => nth i x 0) (seq 0 k)); [|by apply map_nth_seq_id].
  apply map_ext. intros i.
  by rewrite nth_lookup, list_lookup_fmap, Hj.
Qed.

Lemma transpose_lookup m (b : list (list R)) j :
  (j < m)%nat -> transpose m b !! j = Some (column j b).
Proof.
  intros Hj. unfold transpose, column. rewrite list_lookup_fmap.
  rewrite lookup_seq_lt by done. done.
Qed.

Lemma length_transpose m (b : list (list R)) : length (transpose m b) = m.
Proof. unfold transpose. by rewrite length_map, length_seq. Qed.

(** Every column of the matrix [solve] returns solves the system with the
    matching column of the right-hand side. *)
Lemma solve_sound a m b V :
  square a -> length b = length a -> solve a m b = Return V ->
  length V = length a /\
  forall j, (j < m)%nat ->
    map (fun row => dot row (column j V)) a = column j b.
Proof.
  intros Hsq Hb. unfold solve.
  destruct (solve_columns a (transpose m b)) as [xs|] eqn:E; [|done].
  intros [= <-]. split; [apply length_transpose|].
  intros j Hj.
  apply solve_columns_sound in E; [|done|].
  2:{ rewrite <- Hb. apply transpose_lengths. }
  pose proof (Forall2_length _ _ _ E) as Hlen. rewrite length_transpose in Hlen.
  destruct (lookup_lt_is_Some_2 xs j) as [x Hx]; [lia|].
  pose proof (Forall2_lookup_lr _ _ _ _ _ _ E (transpose_lookup m b j Hj) Hx)
    as [Hxl Hs].
  rewrite (column_transpose _ xs j x) by done.
  apply sol_zip_map; [|done].
  unfold column. by rewrite length_map.
Qed.

Lemma column_scaled_identity s k j :
  (j < k)%nat ->
  column j (mscale s (identity k))
  = map (fun i => if Nat.eqb i j then s else 0) (seq 0 k).
Proof.
  intros Hj. unfold column, mscale, identity. rewrite !map_map.
  apply map_ext. intros i. unfold scale.
  rewrite nth_lookup, !list_lookup_fmap, lookup_seq_lt by done. cbn.
  destruct (Nat.eqb i j); lra.
Qed.

Lemma length_diagonal (V : list (list R)) : length (diagonal V) = length V.
Proof. unfold diagonal. by rewrite length_map, length_seq. Qed.

Lemma fst_zip_with_l {A B D} (g : string * A -> B -> D)
    (l : list (string * A)) (k : list B) :
  length l = length k ->
  map fst (zip_with (fun x y => (fst x, g x y)) l k) = map fst l.
Proof.
  revert k; induction l as [|x l IH]; intros [|y k] H; simpl in *; try done.
  f_equal. apply IH. lia.
Qed.

Section FitTable.
Context (C : Collaborator) (Sci : Scipy).

(** X3.  After a fit that returns with positive residual degrees of
    freedom [n - k - 1], the stored covariance matrix [V] satisfies
    [(X^T X) V = sigma^2 I] column by column, for the training design
    matrix [X] (with its [Intercept] column) and the stored residual
    standard error [sigma]; the stored standard errors are the square roots
    of its diagonal. *)
Theorem X3_fit_covariance_matrix
    (data : Data C) (self : LinearModel C) X y :
  evaluate C (interpret C (copy C (given_ex C self)) data) data true = Return X ->
  evaluate_response C (interpret C (copy C (given_re C self)) data) data = Return y ->
  wf_frame X ->
  (intercept C self = true -> ("Intercept" ∉ labels X) /\ index_len X <> O) ->
  is_Return (fst (_fit C Sci data self)) ->
  (0 < shape0 X - shape1 X - 1)%Z ->
  let D := design (intercept C self) X in
  let k := length (cols D) in
  exists V sigma,
    var C (snd (_fit C Sci data self)) = Some (labels D, V) /\
    std_err_est C (snd (_fit C Sci data self)) = Some sigma /\
    std_err_vars C (snd (_fit C Sci data self))
    = Some (zip (labels D) (map sqrt (diagonal V))) /\
    length V = k /\
    forall j, (j < k)%nat ->
      map (fun row => dot row (column j V)) (gram (values D))
      = map (fun i => if Nat.eqb i j then sigma ^ 2 else 0) (seq 0 k).
Proof.
  intros Hx Hy Hwf Hlab Hret _ D k.
  destruct (fit_Return_spec C Sci data self X y Hx Hy Hwf Hlab Hret)
    as (Hl & b & V & Hb & _ & _ & HV & Hfit).
  cbv zeta in Hfit, HV. rewrite Hfit. cbn [snd var std_err_est std_err_vars].
  fold D in HV |- *. fold k in HV.
  eexists V, _. split; [reflexivity|]. split; [reflexivity|]. split; [reflexivity|].
  apply solve_sound in HV; [|apply square_gram|].
  2:{ by rewrite length_mscale, length_identity, length_gram, length_values. }
  destruct HV as [HlV Hcols]. rewrite length_gram, length_values in HlV.
  split; [done|]. intros j Hj. rewrite (Hcols j Hj).
  by apply column_scaled_identity.
Qed.

(** X4.  With positive residual degrees of freedom [n - k - 1], the
    table a fit returns has one row per column of the design matrix,
    labelled by the columns of [X] in order with [Intercept] last when an
    intercept is fitted; the stored coefficients, standard errors, t
    statistics and p-values carry the same labels, and row [i] of the table
    holds entry [i] of each of them, with [t = b / se] and
    [p = 2 T_cdf(-|t|, n - k - 1)] wherever the standard error is not
    zero. *)
Theorem X4_fit_table_rows
    (data : Data C) (self : LinearModel C) X y :
  evaluate C (interpret C (copy C (given_ex C self)) data) data true = Return X ->
  evaluate_response C (interpret C (copy C (given_re C self)) data) data = Return y ->
  wf_frame X ->
  (intercept C self = true -> ("Intercept" ∉ labels X) /\ index_len X <> O) ->
  is_Return (fst (_fit C Sci data self)) ->
  (0 < shape0 X - shape1 X - 1)%Z ->
  let lab := if intercept C self then labels X ++ ["Intercept"] else labels X in
  let df := (shape0 X - shape1 X - 1)%Z in
  exists table bh se tv pv,
    fst (_fit C Sci data self) = Return table /\
    bhat C (snd (_fit C Sci data self)) = Some bh /\
    std_err_vars C (snd (_fit C Sci data self)) = Some se /\
    t_vals C (snd (_fit C Sci data self)) = Some tv /\
    p_vals C (snd (_fit C Sci data self)) = Some pv /\
    map fst table = lab /\ map fst bh = lab /\ map fst se = lab /\
    map fst tv = lab /\ map fst pv = lab /\
    forall i l b s t p, table !! i = Some (l, (b, s, t, p)) ->
      bh !! i = Some (l, b) /\ se !! i = Some (l, s) /\
      tv !! i = Some (l, t) /\ pv !! i = Some (l, p) /\
      (s <> 0 -> t = b / s /\ p = 2 * t_cdf Sci (- Rabs t) df).
Proof.
  intros Hx Hy Hwf Hlab Hret _ lab df.
  destruct (fit_Return_spec C Sci data self X y Hx Hy Hwf Hlab Hret)
    as (Hl & b & V & Hb & _ & _ & HV & Hfit).
  cbv zeta in Hfit, HV. rewrite Hfit.
  cbn [fst snd bhat std_err_vars t_vals p_vals].
  assert (Hfresh : intercept C self = true -> "Intercept" ∉ labels X).
  { intros Hi. by apply Hlab. }
  rewrite design_labels in * by done. fold lab in Hfit, HV |- *. fold df.
  apply solve_sound in HV; [|apply square_gram|].
  2:{ by rewrite length_mscale, length_identity, length_gram, length_values. }
  destruct HV as [HlV _]. rewrite length_gram, length_values in HlV.
  assert (Hlab_len : length lab = length b).
  { rewrite Hb. unfold lab. rewrite <- design_labels by done. apply length_labels. }
  set (se := map sqrt (diagonal V)).
  assert (Hse : length lab = length se).
  { unfold se. rewrite length_map, length_diagonal, HlV, <- Hb. done. }
  set (bh := zip lab b). set (sev := zip lab se).
  set (tv := zip_with (fun b s : string * R => (fst b, snd b / snd s)) bh sev).
  set (pv := map (fun t : string * R => (fst t, 2 * t_cdf Sci (- Rabs (snd t)) df)) tv).
  assert (Hbh : map fst bh = lab) by (by apply fst_zip_eq).
  assert (Hsev : map fst sev = lab) by (by apply fst_zip_eq).
  assert (Hlbh : length bh = length lab) by (by rewrite <- Hbh, length_map).
  assert (Hlsev : length sev = length lab) by (by rewrite <- Hsev, length_map).
  assert (Htv : map fst tv = lab).
  { transitivity (map fst bh); [|exact Hbh]. unfold tv.
    apply (fst_zip_with_l (fun b s => snd b / snd s)). congruence. }
  assert (Hpv : map fst pv = lab).
  { unfold pv. rewrite map_map. cbn [fst]. exact Htv. }
  assert (Hltv : length tv = length lab) by (by rewrite <- Htv, length_map).
  eexists _, bh, sev, tv, pv.
  split; [reflexivity|]. do 4 (split; [reflexivity|]).
  assert (Hrows : forall i l b0 s t p,
            concat4 bh sev tv pv !! i = Some (l, (b0, s, t, p)) ->
            bh !! i = Some (l, b0) /\ sev !! i = Some (l, s) /\
            tv !! i = Some (l, t) /\ pv !! i = Some (l, p) /\
            (s <> 0 -> t = b0 / s /\ p = 2 * t_cdf Sci (- Rabs t) df)).
  { intros i l b0 s t p. unfold concat4.
    rewrite lookup_zip_with_Some.
    intros ([lb vb] & ([ls vs] & [lt vt] & [lp vp]) & [= -> -> -> -> ->] & Hi1 & Hi2).
    cbn [fst snd].
    apply lookup_zip_with_Some in Hi2 as (? & ? & [= <- <-] & Hi2 & Hi3).
    apply lookup_zip_with_Some in Hi3 as (? & ? & [= <- <-] & Hi3 & Hi4).
    assert (Hls : ls = lb).
    { assert (H1 : map fst sev !! i = Some ls) by (by rewrite list_lookup_fmap, Hi2).
      assert (H2 : map fst bh !! i = Some lb) by (by rewrite list_lookup_fmap, Hi1).
      rewrite Hsev in H1. rewrite Hbh in H2. congruence. }
    subst ls.
    assert (Ht : (lt, vt) = (lb, vb / vs)).
    { unfold tv in Hi3. apply lookup_zip_with_Some in Hi3 as (x1 & x2 & E & H1 & H2).
      rewrite Hi1 in H1. rewrite Hi2 in H2. injection H1 as <-. injection H2 as <-.
      exact E. }
    injection Ht as -> ->.
    assert (Hp : (lp, vp) = (lb, 2 * t_cdf Sci (- Rabs (vb / vs)) df)).
    { unfold pv in Hi4. rewrite list_lookup_fmap, Hi3 in Hi4. cbn in Hi4.
      by injection Hi4 as <- <-. }
    injection Hp as -> ->.
    repeat split; done. }
  split.
  { unfold concat4. transitivity (map fst bh); [|exact Hbh].
    apply (fst_zip_with_l
             (fun x y => (snd x, snd (fst y), snd (fst (snd y)), snd (snd (snd y))))).
    rewrite !length_zip_with. unfold pv. rewrite length_map. lia. }
  do 4 (split; [done|]). exact Hrows.
Qed.

(** The outcome of a returning fit depends on the model only through its
    formula and intercept flag. *)
Lemma fit_history_independent (data : Data C) (self1 self2 : LinearModel C) :
  given_ex C self2 = given_ex C self1 ->
  given_re C self2 = given_re C self1 ->
  intercept C self2 = intercept C self1 ->
  is_Return (fst (_fit C Sci data self1)) ->
  _fit C Sci data self2 = _fit C Sci data self1.
Proof.
  intros He Hr Hi. unfold _fit, _fit_with. fit_cbn. rewrite ?He, ?Hr, ?Hi.
  destruct (evaluate C _ data true) as [X|]; [|by intros []].
  destruct (evaluate_response C _ data) as [y|]; [|by intros []]. fit_cbn.
  rewrite ?Hi.
  destruct (negb _); [by intros []|].
  destruct (solve_vec _ _) as [b|]; [|by intros []]. fit_cbn. rewrite ?Hi.
  destruct (negb _); [by intros []|].
  destruct (solve _ _ _) as [V|]; [|by intros []].
  intros _. f_equal. unfold set_p_vals. fit_cbn. rewrite ?He, ?Hr, ?Hi. reflexivity.
Qed.

(** X5.  A fit that returns overwrites every stored attribute: its result
    and the object it leaves do not depend on what earlier fits stored, only
    on the formula, the intercept flag and the data; in particular fitting
    the same data again changes nothing. *)
Theorem X5_fit_forgets_earlier_fits
    (data : Data C) (self1 self2 : LinearModel C) :
  given_ex C self2 = given_ex C self1 ->
  given_re C self2 = given_re C self1 ->
  intercept C self2 = intercept C self1 ->
  is_Return (fst (_fit C Sci data self1)) ->
  _fit C Sci data self2 = _fit C Sci data self1 /\
  _fit C Sci data (snd (_fit C Sci data self1)) = _fit C Sci data self1.
Proof.
  intros He Hr Hi Hret. split; [by apply fit_history_independent|].
  destruct (fit_preserves_formula C Sci data self1) as (H1 & H2 & H3).
  by apply fit_history_independent.
Qed.


(** X6.  A fit can stop between two estimates.  Whatever
    [numpy.linalg.solve] does on the matrix: when the statements before it
    have returned, its first call returns
    (one coefficient per column of [X]) and its second call, the one for
    the covariance matrix, raises, [_fit] raises that exception and leaves
    the coefficients, fitted values, residuals and residual standard error
    of this call beside the covariance matrix, standard errors, t statistics
    and p-values of the earlier fit. *)
Theorem X6_second_solve_leaves_mixed_estimates
    {T} (Np : Numpy) (reduce : Expr C -> result T)
    (data : Data C) (self : LinearModel C) X y bc e :
  is_Return (reduce (interpret C (copy C (given_ex C self)) data)) ->
  evaluate C (interpret C (copy C (given_ex C self)) data) data true = Return X ->
  evaluate_response C (interpret C (copy C (given_re C self)) data) data = Return y ->
  length (snd y) = index_len X ->
  (intercept C self = true -> "Intercept" ∉ labels X) ->
  (0 < shape0 X - shape1 X - 1)%Z ->
  let icpt := intercept C self in
  let D := design icpt X in
  let b := if icpt
           then bc ++ [mean (snd y) - dot (map mean (values X)) bc] else bc in
  let f := mulv (index_len X) (values D) b in
  let res := vsub (snd y) f in
  let sigma := sqrt (sum_sq res / IZR (shape0 X - shape1 X - 1)) in
  linalg_solve_vec Np (gram (design_cols icpt X))
    (xty (design_cols icpt X) (if icpt then center (snd y) else snd y))
  = Return bc ->
  length bc = length (cols X) ->
  linalg_solve Np (gram (values D)) (length (cols D))
    (mscale (sigma ^ 2) (identity (length (cols D)))) = Raise e ->
  fst (_fit_with C Sci Np reduce data self) = Raise e /\
  estimates (snd (_fit_with C Sci Np reduce data self))
  = (Some (zip (labels D) b), Some f, Some res, Some sigma,
     var C self, std_err_vars C self, t_vals C self, p_vals C self).
Proof.
  intros Hred Hx Hy Hl Hlab _ icpt D b f res sigma E1 Hbc E2.
  pose proof (fit_with_solved C Sci Np reduce data self X y bc Hred Hx Hy Hl Hlab E1 Hbc)
    as Hfit.
  cbv zeta in Hfit. fold icpt D in Hfit. fold b in Hfit. fold f in Hfit.
  fold res in Hfit. fold sigma in Hfit.
  rewrite E2 in Hfit. rewrite Hfit. cbn [fst snd]. split; [reflexivity|].
  unfold estimates.
  cbn [bhat fitted residuals std_err_est var std_err_vars t_vals p_vals].
  reflexivity.
Qed.

End FitTable.

(** X3, at the fit on [data4]. *)
Lemma X3_witness :
  let D := design (intercept table_collaborator model_xy) X4 in
  let k := length (cols D) in
  exists V sigma,
    var table_collaborator (fitted4 scipy_2df) = Some (labels D, V) /\
    std_err_est table_collaborator (fitted4 scipy_2df) = Some sigma /\
    std_err_vars table_collaborator (fitted4 scipy_2df)
    = Some (zip (labels D) (map sqrt (diagonal V))) /\
    length V = k /\
    forall j, (j < k)%nat ->
      map (fun row => dot row (column j V)) (gram (values D))
      = map (fun i => if Nat.eqb i j then sigma ^ 2 else 0) (seq 0 k).
Proof.
  apply (X3_fit_covariance_matrix table_collaborator scipy_2df data4 model_xy X4 y4).
  - reflexivity.
  - reflexivity.
  - exact wf_X4.
  - intros _. split; [exact intercept_fresh_x|discriminate].
  - apply fit_data4.
  - reflexivity.
Defined.

(** X4, at the fit on [data4]. *)
Lemma X4_witness :
  let lab := if intercept table_collaborator model_xy
             then labels X4 ++ ["Intercept"] else labels X4 in
  let df := (shape0 X4 - shape1 X4 - 1)%Z in
  exists table bh se tv pv,
    fst (_fit table_collaborator scipy_2df data4 model_xy) = Return table /\
    bhat table_collaborator (fitted4 scipy_2df) = Some bh /\
    std_err_vars table_collaborator (fitted4 scipy_2df) = Some se /\
    t_vals table_collaborator (fitted4 scipy_2df) = Some tv /\
    p_vals table_collaborator (fitted4 scipy_2df) = Some pv /\
    map fst table = lab /\ map fst bh = lab /\ map fst se = lab /\
    map fst tv = lab /\ map fst pv = lab /\
    forall i l b s t p, table !! i = Some (l, (b, s, t, p)) ->
      bh !! i = Some (l, b) /\ se !! i = Some (l, s) /\
      tv !! i = Some (l, t) /\ pv !! i = Some (l, p) /\
      (s <> 0 -> t = b / s /\ p = 2 * t_cdf scipy_2df (- Rabs t) df).
Proof.
  apply (X4_fit_table_rows table_collaborator scipy_2df data4 model_xy X4 y4).
  - reflexivity.
  - reflexivity.
  - exact wf_X4.
  - intros _. split; [exact intercept_fresh_x|discriminate].
  - apply fit_data4.
  - reflexivity.
Defined.

(** X5, at a second fit on [data4]. *)
Lemma X5_witness :
  _fit table_collaborator scipy_2df data4 (fitted4 scipy_2df)
  = _fit table_collaborator scipy_2df data4 model_xy /\
  _fit table_collaborator scipy_2df data4
    (snd (_fit table_collaborator scipy_2df data4 model_xy))
  = _fit table_collaborator scipy_2df data4 model_xy.
Proof.
  destruct (fitted4_formula scipy_2df) as (Hex & Hre & Hi).
  apply (X5_fit_forgets_earlier_fits table_collaborator scipy_2df data4
           model_xy (fitted4 scipy_2df)).
  - exact Hex.
  - exact Hre.
  - exact Hi.
  - apply fit_data4.
Defined.

(** The first solve of the fit on [data4]: the centred regressor has
    the Gram matrix [[5]] and the right-hand side [5]. *)
Lemma first_solve_data4 :
  solve_vec (gram (design_cols true X4))
    (xty (design_cols true X4) (center (snd y4))) = Return [1].
Proof.
  assert (Hx : center [1; 2; 3; 4] = [-3 / 2; -1 / 2; 1 / 2; 3 / 2]).
  { unfold center, mean. cbn [total fold_right length].
    replace (INR 4) with 4 by (simpl; lra).
    unfold shift. cbn [map]. repeat (apply (f_equal2 cons); [lra|]). done. }
  assert (Hy : center [2; 1; 2; 5] = [-1 / 2; -3 / 2; -1 / 2; 5 / 2]).
  { unfold center, mean. cbn [total fold_right length].
    replace (INR 4) with 4 by (simpl; lra).
    unfold shift. cbn [map]. repeat (apply (f_equal2 cons); [lra|]). done. }
  cbn [design_cols X4 y4 values cols map snd]. rewrite Hx, Hy.
  apply solve_vec_spec.
  - apply square_gram.
  - reflexivity.
  - intros v Hv Hk. destruct v as [|a [|]]; try discriminate.
    apply Forall_cons in Hk as [H1 _]. cbn [gram map dot] in H1.
    cbn [gram map length zeros repeat]. f_equal. lra.
  - reflexivity.
  - repeat constructor. cbn [gram xty map dot fst snd]. lra.
Qed.


(** X6, at a fit on [data4] with a solver that raises at its second
    call. *)
Lemma X6_witness :
  let icpt := intercept table_collaborator model_xy in
  let D := design icpt X4 in
  let b := if icpt
           then [1] ++ [mean (snd y4) - dot (map mean (values X4)) [1]] else [1] in
  let f := mulv (index_len X4) (values D) b in
  let res := vsub (snd y4) f in
  let sigma := sqrt (sum_sq res / IZR (shape0 X4 - shape1 X4 - 1)) in
  fst (_fit_with table_collaborator scipy_2df numpy_second_fails
         (fun _ => Return tt) data4 model_xy)
  = Raise LinAlgError /\
  estimates (snd (_fit_with table_collaborator scipy_2df numpy_second_fails
                    (fun _ => Return tt) data4 model_xy))
  = (Some (zip (labels D) b), Some f, Some res, Some sigma,
     var table_collaborator model_xy, std_err_vars table_collaborator model_xy,
     t_vals table_collaborator model_xy, p_vals table_collaborator model_xy).
Proof.
  apply (X6_second_solve_leaves_mixed_estimates table_collaborator scipy_2df
           numpy_second_fails (fun _ => Return tt) data4 model_xy X4 y4 [1]
           LinAlgError).
  - exact I.
  - reflexivity.
  - reflexivity.
  - reflexivity.
  - intros _. exact intercept_fresh_x.
  - reflexivity.
  - exact first_solve_data4.
  - reflexivity.
  - reflexivity.
Defined.

End FitTableFacts.

(** ** Queries on a fitted and on an unfitted model *)

Module QueryFacts.
Import LinAlg Pandas Systems Model Design Inference Plot Examples LabelExamples.
Import LinAlgFacts CenteringFacts SolveFacts FitFacts ExampleFacts StateFacts.
Import FitSpecFacts LeastSquaresFacts FitTableFacts.
Local Open Scope R_scope.

(** *** Label alignment of a frame with its own labels *)

Lemma mem_label_true l ls : l ∈ ls -> mem_label l ls = true.
Proof.
  intros H. unfold mem_label. apply existsb_exists. exists l.
  split; [by apply list_elem_of_In|apply String.eqb_refl].
Qed.

Lemma aligned_refl ls : aligned ls ls = true.
Proof.
  unfold aligned.
  assert (H : forallb (fun l => mem_label l ls) ls = true).
  { apply forallb_forall. intros l Hl%list_elem_of_In. by apply mem_label_true. }
  by rewrite H.
Qed.

Lemma lookup_label_absent {A} l (cs : list (string * A)) :
  l ∉ map fst cs -> lookup_label l cs = None.
Proof.
  induction cs as [|[l' c] cs IH]; simpl; [done|].
  intros [Hne Hl]%not_elem_of_cons.
  destruct (String.eqb_spec l' l) as [->|_]; [done|]. by apply IH.
Qed.

Lemma reindex_skip {A} ls l (c : A) cs :
  l ∉ ls -> reindex ls ((l, c) :: cs) = reindex ls cs.
Proof.
  induction ls as [|x ls IH]; simpl; [done|].
  intros [Hne Hl]%not_elem_of_cons.
  destruct (String.eqb_spec l x) as [->|_]; [done|]. by rewrite IH.
Qed.

Lemma reindex_self {A} (cs : list (string * A)) :
  NoDup (map fst cs) -> reindex (map fst cs) cs = Some (map snd cs).
Proof.
  induction cs as [|[l c] cs IH]; simpl; [done|].
  intros [Hl Hnd]%NoDup_cons. rewrite String.eqb_refl.
  rewrite reindex_skip by done. by rewrite IH.
Qed.

(** [X.dot(b)] when [b] is labelled by the columns of [X], in order. *)
Lemma frame_dot_own_labels X b :
  NoDup (labels X) -> length b = length (cols X) ->
  frame_dot X (zip (labels X) b) = Return (mulv (index_len X) (values X) b).
Proof.
  intros Hnd Hb. unfold frame_dot.
  rewrite fst_zip_eq by (by rewrite length_labels).
  rewrite aligned_refl. unfold labels. rewrite reindex_self by done.
  rewrite snd_zip_eq by (by rewrite length_map). done.
Qed.

Lemma design_NoDup icpt X :
  NoDup (labels X) -> (icpt = true -> "Intercept" ∉ labels X) ->
  NoDup (labels (design icpt X)).
Proof.
  intros Hnd Hf. rewrite design_labels by done. destruct icpt; [|done].
  apply NoDup_app. split; [done|]. split.
  - intros l Hl ->%list_elem_of_singleton. by apply Hf.
  - apply NoDup_singleton.
Qed.

(** *** The total sum of squares is the residual sum of the mean *)

Lemma vsub_unshift_zeros m y n :
  length y = n -> vsub y (unshift m (zeros n)) = shift m y.
Proof.
  revert n; induction y as [|a y IH]; intros [|n] H; simpl in *; try done.
  unfold vsub, unshift, zeros, shift in *. rewrite IH by lia. f_equal. lra.
Qed.

Lemma sse_of_mean n cs y :
  cols_len n cs -> length y = n ->
  sse_of n (cs ++ [ones n]) y (zeros (length cs) ++ [mean y])
  = sum_sq (shift (mean y) y).
Proof.
  intros Hcl Hy. unfold sse_of.
  rewrite mulv_aug by apply length_zeros.
  rewrite mulv_zeros_r by done. by rewrite vsub_unshift_zeros.
Qed.

Section Queries.
Context (C : Collaborator) (Sci : Scipy).

(** What [predict] returns on the training data after a fit. *)
Lemma predict_training (data : Data C) (self : LinearModel C) X y alpha :
  evaluate C (interpret C (copy C (given_ex C self)) data) data true = Return X ->
  evaluate C (interpret C (copy C (given_ex C self)) data) data false = Return X ->
  evaluate_response C (interpret C (copy C (given_re C self)) data) data = Return y ->
  wf_frame X -> NoDup (labels X) ->
  (intercept C self = true -> ("Intercept" ∉ labels X) /\ index_len X <> O) ->
  is_Return (fst (_fit C Sci data self)) ->
  exists f,
    fitted C (snd (_fit C Sci data self)) = Some f /\
    training_data C (snd (_fit C Sci data self)) = Some data /\
    training_x C (snd (_fit C Sci data self)) = Some X /\
    training_y C (snd (_fit C Sci data self)) = Some y /\
    predict C Sci (snd (_fit C Sci data self)) data false false alpha
    = Return (mkDataFrame (index_len X)
                [("Predicted "
                  +:+ str C (interpret C (copy C (given_re C self)) data), f)]).
Proof.
  intros Hx Hx' Hy Hwf Hnd Hlab Hret.
  destruct (fit_Return_spec C Sci data self X y Hx Hy Hwf Hlab Hret)
    as (Hl & b & V & Hb & _ & _ & _ & Hfit).
  cbv zeta in Hfit. rewrite Hfit. cbn [snd fitted training_data training_x training_y].
  eexists. do 4 (split; [reflexivity|]).
  unfold predict. cbn [ex intercept bhat re str_opt]. rewrite Hx'.
  change (if intercept C self then setitem_scalar X "Intercept" 1 else X)
    with (design (intercept C self) X).
  assert (Hfresh : intercept C self = true -> "Intercept" ∉ labels X).
  { intros Hi. by apply Hlab. }
  rewrite frame_dot_own_labels by (by apply design_NoDup || done).
  cbn [orb]. by rewrite !design_index_len.
Qed.

(** X7.  After a fit that returns, [predict] on the training data (no
    interval requested) returns one column, named [Predicted <response>],
    holding exactly the stored fitted values, provided the expression
    evaluates to the same frame inside and outside a fit and its column
    labels are distinct. *)
Theorem X7_predict_reproduces_fitted
    (data : Data C) (self : LinearModel C) X y alpha :
  evaluate C (interpret C (copy C (given_ex C self)) data) data true = Return X ->
  evaluate C (interpret C (copy C (given_ex C self)) data) data false = Return X ->
  evaluate_response C (interpret C (copy C (given_re C self)) data) data = Return y ->
  wf_frame X -> NoDup (labels X) ->
  (intercept C self = true -> ("Intercept" ∉ labels X) /\ index_len X <> O) ->
  is_Return (fst (_fit C Sci data self)) ->
  exists f,
    fitted C (snd (_fit C Sci data self)) = Some f /\
    length f = index_len X /\
    predict C Sci (snd (_fit C Sci data self)) data false false alpha
    = Return (mkDataFrame (index_len X)
                [("Predicted "
                  +:+ str C (interpret C (copy C (given_re C self)) data), f)]).
Proof.
  intros Hx Hx' Hy Hwf Hnd Hlab Hret.
  destruct (predict_training data self X y alpha Hx Hx' Hy Hwf Hnd Hlab Hret)
    as (f & Hf & _ & _ & _ & Hp).
  exists f. split; [done|]. split; [|done].
  destruct (fit_Return_spec C Sci data self X y Hx Hy Hwf Hlab Hret)
    as (Hl & b & V & Hb & _ & _ & _ & Hfit).
  cbv zeta in Hfit. rewrite Hfit in Hf. cbn [snd fitted] in Hf. injection Hf as <-.
  apply length_mulv. apply design_wf; [done|]. intros Hi. by apply Hlab.
Qed.

(** X8.  For a model fitted with an intercept, [r_squared(adjusted = True)]
    on the training data returns [1 - SSE / SST], the plain coefficient of
    determination, and that value lies between 0 and 1 whenever the response
    is not constant ([SST > 0]). *)
Theorem X8_r_squared_unit_interval
    (data : Data C) (self : LinearModel C) X y :
  evaluate C (interpret C (copy C (given_ex C self)) data) data true = Return X ->
  evaluate C (interpret C (copy C (given_ex C self)) data) data false = Return X ->
  evaluate_response C (interpret C (copy C (given_re C self)) data) data = Return y ->
  wf_frame X -> NoDup (labels X) ->
  intercept C self = true -> "Intercept" ∉ labels X -> index_len X <> O ->
  is_Return (fst (_fit C Sci data self)) ->
  0 < sum_sq (shift (mean (snd y)) (snd y)) ->
  exists sse,
    get_sse C (snd (_fit C Sci data self)) = Return sse /\
    r_squared C Sci (snd (_fit C Sci data self)) None None true
    = Return (1 - sse / sum_sq (shift (mean (snd y)) (snd y))) /\
    0 <= 1 - sse / sum_sq (shift (mean (snd y)) (snd y)) <= 1.
Proof.
  intros Hx Hx' Hy Hwf Hnd Hi Hfresh Hn Hret Hsst.
  assert (Hlab : intercept C self = true -> ("Intercept" ∉ labels X) /\ index_len X <> O).
  { done. }
  destruct (predict_training data self X y (5 / 100) Hx Hx' Hy Hwf Hnd Hlab Hret)
    as (f & Hf & Htd & Htx & Hty & Hp).
  destruct (fit_Return_spec C Sci data self X y Hx Hy Hwf Hlab Hret)
    as (Hl & b & V & Hb & _ & Hs & _ & Hfit).
  cbv zeta in Hfit.
  assert (Hfb : f = mulv (index_len X) (values (design (intercept C self) X)) b).
  { rewrite Hfit in Hf. cbn [snd fitted] in Hf. by injection Hf as <-. }
  clear Hfit.
  unfold get_sse, r_squared. rewrite Htd, Hty, Hf, Hp, Htx.
  cbn [cols]. unfold iloc_col0.
  set (sse := sum_sq (vsub (snd y) f)).
  set (sst := sum_sq (shift (mean (snd y)) (snd y))) in *.
  exists sse. split; [done|]. split; [done|].
  assert (H0 : 0 <= sse) by apply sum_sq_nonneg.
  assert (H1 : sse <= sst).
  { unfold sse, sst. rewrite Hfb.
    rewrite <- (sse_of_mean (index_len X) (values X) (snd y))
      by (by apply cols_len_values || done).
    rewrite Hi in *. rewrite design_values in * by done. cbv iota in *.
    apply normal_minimal; auto.
    - apply cols_len_aug. by apply cols_len_values.
    - rewrite Hb. unfold design. rewrite setitem_scalar_fresh by done.
      cbn [cols]. rewrite !length_app, length_zeros, length_values. done. }
  assert (H2 : 0 <= sse / sst <= 1).
  { split.
    - apply Rmult_le_pos; [done|]. apply Rlt_le, Rinv_0_lt_compat. done.
    - apply (Rmult_le_reg_r sst); [done|]. field_simplify; lra. }
  lra.
Qed.

(** X9.  After a fit that returns, [get_sse] returns the sum of the squared
    stored residuals, and with positive residual degrees of freedom
    [n - k - 1] the squared residual standard error times [n - k - 1] is that
    sum. *)
Theorem X9_get_sse_matches_residuals
    (data : Data C) (self : LinearModel C) X y :
  evaluate C (interpret C (copy C (given_ex C self)) data) data true = Return X ->
  evaluate_response C (interpret C (copy C (given_re C self)) data) data = Return y ->
  wf_frame X ->
  (intercept C self = true -> ("Intercept" ∉ labels X) /\ index_len X <> O) ->
  is_Return (fst (_fit C Sci data self)) ->
  exists res sigma,
    residuals C (snd (_fit C Sci data self)) = Some res /\
    std_err_est C (snd (_fit C Sci data self)) = Some sigma /\
    get_sse C (snd (_fit C Sci data self)) = Return (sum_sq res) /\
    0 <= sum_sq res /\
    ((0 < shape0 X - shape1 X - 1)%Z ->
     sigma ^ 2 * IZR (shape0 X - shape1 X - 1) = sum_sq res).
Proof.
  intros Hx Hy Hwf Hlab Hret.
  destruct (fit_Return_spec C Sci data self X y Hx Hy Hwf Hlab Hret)
    as (Hl & b & V & Hb & _ & _ & _ & Hfit).
  cbv zeta in Hfit. rewrite Hfit.
  unfold get_sse. cbn [snd residuals std_err_est training_y fitted]. unfold iloc_col0.
  eexists _, _. split; [reflexivity|]. split; [reflexivity|]. split; [reflexivity|].
  split; [apply sum_sq_nonneg|].
  intros Hdf. apply IZR_lt in Hdf.
  set (s := sum_sq _).
  assert (Hs : 0 <= s) by apply sum_sq_nonneg.
  set (d := IZR (shape0 X - shape1 X - 1)) in *.
  rewrite pow2_sqrt.
  - field. lra.
  - apply Rmult_le_pos; [done|]. apply Rlt_le, Rinv_0_lt_compat. done.
Qed.

(** X10.  A model that has not been fitted answers no query: [predict],
    [r_squared], [score], [get_sse], [get_sst], [get_ssr], the two interval
    widths, [confidence_intervals] and [partial_plots] all raise, because
    [__init__] leaves every fitted attribute at [None]. *)
Theorem X10_unfitted_model_raises
    (explanatory response : Expr C) (icpt : bool) (percent : R -> string)
    (T : Type) (reduce : Expr C -> result T)
    (data : Data C) (X_new : DataFrame) (ynew : option (string * list R))
    (ci pi adjusted : bool) (alpha : R) (a conf : option R) :
  let self := init C explanatory response icpt in
  predict C Sci self data ci pi alpha = Raise AttributeError /\
  r_squared C Sci self None ynew adjusted = Raise AttributeError /\
  r_squared C Sci self (Some data) ynew adjusted = Raise AttributeError /\
  score C Sci self (Some data) ynew adjusted = Raise AttributeError /\
  get_sse C self = Raise AttributeError /\
  get_sst C self = Raise AttributeError /\
  get_ssr C self = Raise AttributeError /\
  _prediction_interval_width C Sci self X_new alpha = Raise AttributeError /\
  _confidence_interval_width C Sci self X_new alpha = Raise AttributeError /\
  confidence_intervals C Sci percent self a conf = Raise AttributeError /\
  partial_plots C reduce self = Raise AttributeError.
Proof.
  intros self. repeat split; try reflexivity.
  all: unfold r_squared, score, r_squared; by destruct ynew.
Qed.

(** X11.  After a fit that returns with positive residual degrees of
    freedom [n - k - 1], and for [0 < alpha < 2] (so that the probability
    [1 - alpha/2] of the critical value lies strictly between 0 and 1),
    [confidence_intervals] gives one lower and one upper bound per
    coefficient, [b -/+ t_crit * se], under
    the labels of the probabilities [alpha/2] and [1 - alpha/2] ([alpha]
    is the argument when given, otherwise [1 - conf], [conf] defaulting to
    0.95).  The critical value has [n - (number of coefficients)] degrees
    of freedom: with an intercept the [n - k - 1] of the p-values, without
    one [n - k], one more than the p-values use. *)
Theorem X11_confidence_intervals
    (percent : R -> string)
    (data : Data C) (self : LinearModel C) X y (alpha conf : option R) :
  evaluate C (interpret C (copy C (given_ex C self)) data) data true = Return X ->
  evaluate_response C (interpret C (copy C (given_re C self)) data) data = Return y ->
  wf_frame X ->
  (intercept C self = true -> ("Intercept" ∉ labels X) /\ index_len X <> O) ->
  is_Return (fst (_fit C Sci data self)) ->
  (0 < shape0 X - shape1 X - 1)%Z ->
  let a := match alpha with
           | Some a => a
           | None => 1 - match conf with Some c => c | None => 95 / 100 end
           end in
  0 < a < 2 ->
  let df_p := (shape0 X - shape1 X - 1)%Z in
  let df := if intercept C self then df_p else (df_p + 1)%Z in
  let t_crit := t_ppf Sci (1 - a / 2) df in
  exists bh se m,
    bhat C (snd (_fit C Sci data self)) = Some bh /\
    std_err_vars C (snd (_fit C Sci data self)) = Some se /\
    confidence_intervals C Sci percent (snd (_fit C Sci data self)) alpha conf
    = Return (Some m) /\
    m !! percent (1 - a / 2)
    = Some (zip_with (fun b s => (fst b, snd b + t_crit * snd s)) bh se) /\
    (percent (1 - (1 - a / 2)) <> percent (1 - a / 2) ->
     m !! percent (1 - (1 - a / 2))
     = Some (zip_with (fun b s => (fst b, snd b - t_crit * snd s)) bh se)) /\
    length se = length bh.
Proof.
  intros Hx Hy Hwf Hlab Hret _ a _ df_p df t_crit.
  destruct (fit_Return_spec C Sci data self X y Hx Hy Hwf Hlab Hret)
    as (Hl & b & V & Hb & _ & _ & HV & Hfit).
  cbv zeta in Hfit, HV. rewrite Hfit.
  cbn [snd bhat std_err_vars].
  apply solve_sound in HV; [|apply square_gram|].
  2:{ by rewrite length_mscale, length_identity, length_gram, length_values. }
  destruct HV as [HlV _]. rewrite length_gram, length_values in HlV.
  set (D := design (intercept C self) X) in *.
  set (bh := zip (labels D) b).
  set (se := zip (labels D) (map sqrt (diagonal V))).
  assert (Hlb : length (labels D) = length b) by (by rewrite length_labels).
  assert (Hls : length (labels D) = length (map sqrt (diagonal V))).
  { by rewrite length_map, length_diagonal, HlV, length_labels. }
  assert (Hbh : map fst bh = labels D) by (by apply fst_zip_eq).
  assert (Hse : map fst se = labels D) by (by apply fst_zip_eq).
  assert (Hdf : (shape0 X - Z.of_nat (length bh))%Z = df).
  { unfold bh. rewrite length_zip_eq by done. rewrite length_labels.
    unfold df, df_p, shape1, D, design.
    destruct (intercept C self) eqn:Hi; [|lia].
    rewrite setitem_scalar_fresh by (by apply Hlab).
    cbn [cols]. rewrite length_app. simpl. lia. }
  unfold confidence_intervals.
  cbn [training_x bhat std_err_vars]. fold bh se a. rewrite Hdf. fold t_crit.
  set (width := map (fun s : string * R => (fst s, t_crit * snd s)) se).
  assert (Hw : map fst width = labels D).
  { unfold width. rewrite map_map. exact Hse. }
  unfold series_op. rewrite Hbh, Hw.
  destruct (decide (labels D = labels D)) as [_|]; [|done].
  assert (Hzip : forall f : R -> R -> R,
            zip_with (fun x y0 : string * R => (fst x, f (snd x) (snd y0))) bh width
            = zip_with (fun b0 s : string * R => (fst b0, f (snd b0) (t_crit * snd s))) bh se).
  { intros f. unfold width. generalize se. clear.
    induction bh as [|x bh IH]; intros [|s se]; simpl; try done. by rewrite IH. }
  rewrite !Hzip.
  exists bh, se. eexists. split; [reflexivity|]. split; [reflexivity|].
  split; [reflexivity|]. split; [apply lookup_insert_eq|]. split.
  - intros Hne. rewrite lookup_insert_ne by done. apply lookup_singleton_eq.
  - unfold bh, se. rewrite !length_zip_eq by done. done.
Qed.

End Queries.

Lemma NoDup_labels_X4 : NoDup (labels X4).
Proof. apply NoDup_singleton. Qed.

(** X7, at the fit on [data4]. *)
Lemma X7_witness :
  exists f,
    fitted table_collaborator (fitted4 scipy_2df) = Some f /\
    length f = index_len X4 /\
    predict table_collaborator scipy_2df (fitted4 scipy_2df) data4 false false (5 / 100)
    = Return (mkDataFrame (index_len X4)
                [("Predicted "
                  +:+ str table_collaborator
                        (interpret table_collaborator
                           (copy table_collaborator
                              (given_re table_collaborator model_xy)) data4), f)]).
Proof.
  apply (X7_predict_reproduces_fitted table_collaborator scipy_2df data4 model_xy
           X4 y4 (5 / 100)).
  - reflexivity.
  - reflexivity.
  - reflexivity.
  - exact wf_X4.
  - exact NoDup_labels_X4.
  - intros _. split; [exact intercept_fresh_x|discriminate].
  - apply fit_data4.
Defined.

Lemma sst_data4_pos : 0 < sum_sq (shift (mean (snd y4)) (snd y4)).
Proof.
  assert (Hm : mean (snd y4) = 5 / 2).
  { unfold mean. cbn [y4 snd total fold_right length].
    replace (INR 4) with 4 by (simpl; lra). lra. }
  rewrite Hm. cbn [y4 snd shift map sum_sq total fold_right]. lra.
Qed.

(** X8, at the fit on [data4]. *)
Lemma X8_witness :
  exists sse,
    get_sse table_collaborator (fitted4 scipy_2df) = Return sse /\
    r_squared table_collaborator scipy_2df (fitted4 scipy_2df) None None true
    = Return (1 - sse / sum_sq (shift (mean (snd y4)) (snd y4))) /\
    0 <= 1 - sse / sum_sq (shift (mean (snd y4)) (snd y4)) <= 1.
Proof.
  apply (X8_r_squared_unit_interval table_collaborator scipy_2df data4 model_xy X4 y4).
  - reflexivity.
  - reflexivity.
  - reflexivity.
  - exact wf_X4.
  - exact NoDup_labels_X4.
  - reflexivity.
  - exact intercept_fresh_x.
  - discriminate.
  - apply fit_data4.
  - exact sst_data4_pos.
Defined.

(** X9, at the fit on [data4]. *)
Lemma X9_witness :
  exists res sigma,
    residuals table_collaborator (fitted4 scipy_2df) = Some res /\
    std_err_est table_collaborator (fitted4 scipy_2df) = Some sigma /\
    get_sse table_collaborator (fitted4 scipy_2df) = Return (sum_sq res) /\
    0 <= sum_sq res /\
    ((0 < shape0 X4 - shape1 X4 - 1)%Z ->
     sigma ^ 2 * IZR (shape0 X4 - shape1 X4 - 1) = sum_sq res).
Proof.
  apply (X9_get_sse_matches_residuals table_collaborator scipy_2df data4 model_xy X4 y4).
  - reflexivity.
  - reflexivity.
  - exact wf_X4.
  - intros _. split; [exact intercept_fresh_x|discriminate].
  - apply fit_data4.
Defined.

(** X11, at the fit on [data4], with the default confidence level. *)
Lemma X11_witness :
  let a := 1 - 95 / 100 in
  let df_p := (shape0 X4 - shape1 X4 - 1)%Z in
  let df := if intercept table_collaborator model_xy then df_p else (df_p + 1)%Z in
  let t_crit := t_ppf scipy_2df (1 - a / 2) df in
  exists bh se m,
    bhat table_collaborator (fitted4 scipy_2df) = Some bh /\
    std_err_vars table_collaborator (fitted4 scipy_2df) = Some se /\
    confidence_intervals table_collaborator scipy_2df percent_default
      (fitted4 scipy_2df) None None = Return (Some m) /\
    m !! percent_default (1 - a / 2)
    = Some (zip_with (fun b s => (fst b, snd b + t_crit * snd s)) bh se) /\
    (percent_default (1 - (1 - a / 2)) <> percent_default (1 - a / 2) ->
     m !! percent_default (1 - (1 - a / 2))
     = Some (zip_with (fun b s => (fst b, snd b - t_crit * snd s)) bh se)) /\
    length se = length bh.
Proof.
  apply (X11_confidence_intervals table_collaborator scipy_2df percent_default
           data4 model_xy X4 y4 None None).
  - reflexivity.
  - reflexivity.
  - exact wf_X4.
  - intros _. split; [exact intercept_fresh_x|discriminate].
  - apply fit_data4.
  - reflexivity.
  - lra.
Defined.

End QueryFacts.

(** ** The width of a prediction interval *)

Module WidthFacts.
Import LinAlg Pandas Systems Model Design Examples.
Import LinAlgFacts CenteringFacts SolveFacts FitFacts ExampleFacts StateFacts.
Import FitSpecFacts LeastSquaresFacts FitTableFacts QueryFacts.
Local Open Scope R_scope.

Section Widths.
Context (C : Collaborator) (Sci : Scipy).

(** X20.  For a model fitted with an intercept and positive residual
    degrees of freedom [n - k - 1], the prediction half-width at new rows
    that have as many columns as the design matrix is
    [t_crit * sqrt (sigma^2 + x V x^T)], with the stored residual standard
    error [sigma], the stored covariance matrix [V], and the t critical value
    at the [n - k - 1] degrees of freedom that the p-values use. *)
Theorem X20_prediction_width_uses_sigma
    (data : Data C) (self : LinearModel C) X y (X_new : DataFrame) (alpha : R) :
  evaluate C (interpret C (copy C (given_ex C self)) data) data true = Return X ->
  evaluate_response C (interpret C (copy C (given_re C self)) data) data = Return y ->
  wf_frame X ->
  intercept C self = true -> "Intercept" ∉ labels X -> index_len X <> O ->
  is_Return (fst (_fit C Sci data self)) ->
  length (cols X_new) = S (length (cols X)) ->
  (0 < shape0 X - shape1 X - 1)%Z ->
  let df := (shape0 X - shape1 X - 1)%Z in
  exists sigma vl V,
    std_err_est C (snd (_fit C Sci data self)) = Some sigma /\
    var C (snd (_fit C Sci data self)) = Some (vl, V) /\
    vl = labels X ++ ["Intercept"] /\
    _prediction_interval_width C Sci (snd (_fit C Sci data self)) X_new alpha
    = match quad_form X_new vl V with
      | Raise e => Raise e
      | Return q =>
          Return (map (fun s => t_ppf Sci (1 - alpha / 2) df * sqrt (sigma ^ 2 + s)) q)
      end.
Proof.
  intros Hx Hy Hwf Hi Hfresh Hn Hret Hnew Hdf df.
  assert (Hlab : intercept C self = true -> ("Intercept" ∉ labels X) /\ index_len X <> O).
  { done. }
  destruct (fit_Return_spec C Sci data self X y Hx Hy Hwf Hlab Hret)
    as (Hl & b & V & Hb & _ & _ & _ & Hfit).
  cbv zeta in Hfit. rewrite Hfit.
  unfold _prediction_interval_width, get_sse.
  cbn [snd std_err_est var training_x training_y fitted]. unfold iloc_col0.
  rewrite Hi in *. rewrite design_labels by done. cbv iota.
  eexists _, _, V. split; [reflexivity|]. split; [reflexivity|]. split; [reflexivity|].
  assert (Hp : (shape0 X - shape1 X_new)%Z = df).
  { unfold df, shape1. rewrite Hnew. lia. }
  rewrite Hp. fold df.
  destruct (quad_form X_new _ V) as [q|]; [|done].
  rewrite map_map. f_equal. apply map_ext. intros s.
  set (sse := sum_sq _).
  assert (Hs : 0 <= sse) by apply sum_sq_nonneg.
  apply IZR_lt in Hdf. fold df in Hdf.
  rewrite pow2_sqrt; [done|].
  apply Rmult_le_pos; [done|]. apply Rlt_le, Rinv_0_lt_compat. done.
Qed.

End Widths.

(** X20, at the fit on [data4] and the new point [x = 4]. *)
Lemma X20_witness :
  let df := (shape0 X4 - shape1 X4 - 1)%Z in
  exists sigma vl V,
    std_err_est table_collaborator (fitted4 scipy_2df) = Some sigma /\
    var table_collaborator (fitted4 scipy_2df) = Some (vl, V) /\
    vl = labels X4 ++ ["Intercept"] /\
    _prediction_interval_width table_collaborator scipy_2df (fitted4 scipy_2df)
      X_new4 (5 / 100)
    = match quad_form X_new4 vl V with
      | Raise e => Raise e
      | Return q =>
          Return (map (fun s => t_ppf scipy_2df (1 - 5 / 100 / 2) df
                                * sqrt (sigma ^ 2 + s)) q)
      end.
Proof.
  apply (X20_prediction_width_uses_sigma table_collaborator scipy_2df data4 model_xy
           X4 y4 X_new4 (5 / 100)).
  - reflexivity.
  - reflexivity.
  - exact wf_X4.
  - reflexivity.
  - exact intercept_fresh_x.
  - discriminate.
  - apply fit_data4.
  - reflexivity.
  - reflexivity.
Defined.

End WidthFacts.

(** ** The encoder and its registry of levels *)

Module RegistryFacts.
Import LinAlg Pandas Encoder FitFacts EncoderFacts.
Local Open Scope R_scope.

Lemma hits_one v ks : NoDup ks -> v ∈ ks -> hits v ks = 1.
Proof.
  unfold hits. induction 1 as [|k ks Hk Hnd IH]; [by intros ?%elem_of_nil|].
  intros Hv. cbn [map]. rewrite CenteringFacts.total_cons.
  destruct (String.eqb_spec v k) as [->|Hne].
  - apply hits_zero in Hk. unfold hits in Hk. lra.
  - apply elem_of_cons in Hv as [?|Hv]; [done|]. rewrite IH by done. lra.
Qed.

Lemma row_all_zero e column ks n i v :
  column !! i = Some v -> v ∉ ks ->
  Forall (fun x => x = 0)
    (row (mkDataFrame n (map (fun l => (column_name e l, indicator column l)) ks)) i).
Proof.
  intros Hi Hv. rewrite (row_indicators e column ks n i v Hi).
  apply Forall_forall. intros x (l & -> & Hl)%list_elem_of_fmap.
  destruct (String.eqb_spec v l) as [->|_]; done.
Qed.

Lemma labels_indicators e column ks n :
  labels (mkDataFrame n (map (fun l => (column_name e l, indicator column l)) ks))
  = map (column_name e) ks.
Proof. unfold labels. cbn [cols]. by rewrite map_map. Qed.

(** The outcome of an encoding that finds the term's name in the
    registry. *)
Lemma extract_registered e table column drop_dummy update_levels st r lv :
  categorical_levels st !! name e = Some r ->
  heap st !! r = Some lv ->
  lookup_label (name e) table = Some column ->
  extract_columns e (PDataFrame table) drop_dummy update_levels st
  = (encode_columns e column lv false drop_dummy,
     mkState (if update_levels
              then <[display e := r]> (categorical_levels st)
              else categorical_levels st) (heap st)).
Proof.
  intros Hr Hh Hc. unfold extract_columns. rewrite Hc.
  unfold resolve_levels. rewrite Hr.
  assert (Hd : forall reg, deref (mkState reg (heap st)) r = lv).
  { intros reg. unfold deref. cbn [heap]. by rewrite Hh. }
  destruct update_levels; cbn [categorical_levels heap].
  - by rewrite Hd.
  - destruct st as [reg hp]. cbn [categorical_levels heap] in *.
    f_equal. f_equal. exact (Hd reg).
Qed.

(** X12.  Encoding a categorical term changes nothing but the term's
    own entry and list: registry entries under other names are kept, the
    registry is not written at all when [update_levels] is unset, the level
    list of any other term is kept, and when the term's name is found in the
    registry no list is changed at all.  This holds whether the call returns
    or raises. *)
Theorem X12_encoder_frame
    (e : Categorical) (data : pydata) (drop_dummy update_levels : bool)
    (st : state) :
  let st' := snd (extract_columns e data drop_dummy update_levels st) in
  (forall k, k <> display e ->
     categorical_levels st' !! k = categorical_levels st !! k) /\
  (update_levels = false -> categorical_levels st' = categorical_levels st) /\
  (forall l, is_Some (heap st !! l) -> levels e <> Some l ->
     heap st' !! l = heap st !! l) /\
  (is_Some (categorical_levels st !! name e) -> heap st' = heap st).
Proof.
  intros st'. subst st'. unfold extract_columns.
  destruct data as [table|]; [|done].
  destruct (lookup_label (name e) table) as [column|]; [|done].
  unfold resolve_levels.
  destruct (categorical_levels st !! name e) as [r|] eqn:Hr.
  { destruct update_levels; cbn [snd categorical_levels heap];
      repeat split; try done.
    intros k Hk. by rewrite lookup_insert_ne. }
  assert (Hnone : ~ is_Some (@None loc)) by (by intros [? ?]).
  destruct (levels e) as [l0|] eqn:Hl.
  - destruct (remove_absent _ _ _) as [lv|].
    + destruct (has_other _ _); destruct update_levels;
        cbn [snd categorical_levels heap]; repeat split; try done;
        try (intros k Hk; by rewrite lookup_insert_ne);
        intros l _ Hne; rewrite lookup_insert_ne; congruence.
    + cbn [snd]. repeat split; done.
  - assert (Hfresh : forall l, is_Some (heap st !! l) -> fresh (dom (heap st)) <> l).
    { intros l Hin%elem_of_dom E. rewrite <- E in Hin.
      by apply is_fresh in Hin. }
    destruct update_levels; cbn [snd categorical_levels heap]; repeat split; try done;
      try (intros k Hk; by rewrite lookup_insert_ne);
      intros l Hin _; rewrite lookup_insert_ne; auto.
Qed.

(** X13.  When the term's name is in the registry, the encoding is made
    from the registered levels alone: the column labels are those of the
    registered levels (less the first with [drop_dummy]) whatever the data
    holds, a row whose value is not a registered level is all zeros, and
    without [drop_dummy] a row whose value is registered sums to 1; no level
    list is changed. *)
Theorem X13_registered_levels_fix_the_columns
    (e : Categorical) (table : list (string * list string)) (column : list string)
    (drop_dummy update_levels : bool) (st : state) (r : loc) (lv : list string) :
  categorical_levels st !! name e = Some r ->
  heap st !! r = Some lv ->
  NoDup lv -> lv <> [] ->
  lookup_label (name e) table = Some column ->
  method e = "one-hot" ->
  exists df,
    fst (extract_columns e (PDataFrame table) drop_dummy update_levels st)
    = Return (Some df) /\
    heap (snd (extract_columns e (PDataFrame table) drop_dummy update_levels st))
    = heap st /\
    index_len df = length column /\
    labels df = map (column_name e) (if drop_dummy then tail lv else lv) /\
    forall i v, column !! i = Some v ->
      (v ∉ lv -> Forall (fun x => x = 0) (row df i)) /\
      (v ∈ lv -> drop_dummy = false -> total (row df i) = 1).
Proof.
  intros Hr Hh Hnd Hne Hc Hm.
  rewrite (extract_registered e table column _ _ st r lv) by done.
  cbn [fst snd heap]. rewrite encode_columns_NoDup by done. unfold entry.
  destruct lv as [|l0 rest]; [done|].
  eexists. split; [reflexivity|]. split; [done|]. split; [done|].
  rewrite labels_indicators. split; [by destruct drop_dummy|].
  intros i v Hi. split.
  - intros Hv. apply (row_all_zero e column _ _ i v Hi).
    destruct drop_dummy; [|done]. cbn [tail]. intros H. apply Hv. by apply elem_further.
  - intros Hv ->. rewrite (row_indicators e column _ _ i v Hi).
    by apply hits_one.
Qed.

(** X14.  Levels learnt by one encoding are reused by the next: after a
    first encoding with [update_levels] of a term without explicit levels
    whose name is its registry key, a second encoding of the same term, on
    any data that has the variable, returns columns with the same labels as
    the first, leaves every level list as it is, and gives an all-zero row to
    a value that the first data did not hold. *)
Theorem X14_learnt_levels_are_reused
    (e : Categorical) (t1 t2 : list (string * list string))
    (column1 column2 : list string) (drop_dummy update2 : bool) (st : state) :
  categorical_levels st !! name e = None ->
  levels e = None ->
  display e = name e ->
  method e = "one-hot" ->
  lookup_label (name e) t1 = Some column1 -> column1 <> [] ->
  lookup_label (name e) t2 = Some column2 ->
  exists df1 df2 st1,
    extract_columns e (PDataFrame t1) drop_dummy true st = (Return (Some df1), st1) /\
    fst (extract_columns e (PDataFrame t2) drop_dummy update2 st1)
    = Return (Some df2) /\
    snd (extract_columns e (PDataFrame t2) drop_dummy update2 st1) = st1 /\
    labels df2 = labels df1 /\
    index_len df2 = length column2 /\
    forall i v, column2 !! i = Some v -> v ∉ column1 ->
      Forall (fun x => x = 0) (row df2 i).
Proof.
  intros Hr Hl Hd Hm Hc1 Hne Hc2.
  assert (Hnd : NoDup (sort (unique column1))) by apply NoDup_sort_unique.
  assert (Hin : forall v, v ∈ sort (unique column1) <-> v ∈ column1).
  { intros v. apply elem_of_sort_unique. }
  assert (H1 : extract_columns e (PDataFrame t1) drop_dummy true st
               = (encode_columns e column1 (sort (unique column1)) false drop_dummy,
                  encoded_state e true (fresh (dom (heap st)))
                    (sort (unique column1)) st)).
  { unfold extract_columns. rewrite Hc1.
    rewrite (resolve_fresh e column1 st) by done.
    unfold encoded_state. cbn [categorical_levels heap].
    by rewrite deref_insert. }
  revert H1 Hnd Hin.
  generalize (sort (unique column1)). intros lv H1 Hnd Hin.
  generalize dependent (fresh (dom (heap st))). intros l H1.
  destruct lv as [|l0 rest].
  { destruct column1 as [|x c]; [done|].
    assert (H : x ∈ @nil string) by (apply Hin, elem_here).
    by apply elem_of_nil in H. }
  set (lv := l0 :: rest) in *.
  set (st1 := encoded_state e true l lv st) in *.
  assert (Hreg : categorical_levels st1 !! name e = Some l).
  { unfold st1, encoded_state. cbn [categorical_levels]. rewrite Hd.
    apply lookup_insert_eq. }
  assert (Hheap : heap st1 !! l = Some lv).
  { unfold st1, encoded_state. cbn [heap]. apply lookup_insert_eq. }
  assert (H2 : extract_columns e (PDataFrame t2) drop_dummy update2 st1
               = (encode_columns e column2 lv false drop_dummy, st1)).
  { rewrite (extract_registered e t2 column2 _ _ st1 l lv) by done.
    f_equal. destruct update2; [|by destruct st1].
    rewrite Hd. rewrite insert_id by done. by destruct st1. }
  rewrite encode_columns_NoDup in H1, H2 by done. unfold entry, lv in H1, H2.
  eexists _, _, st1. split; [exact H1|]. rewrite H2. cbn [fst snd].
  split; [reflexivity|]. split; [reflexivity|].
  rewrite !labels_indicators. split; [done|]. split; [done|].
  intros i v Hi Hv. apply (row_all_zero e column2 _ _ i v Hi).
  assert (Hv' : v ∉ l0 :: rest).
  { intros H'. apply Hv. by apply (Hin v). }
  destruct drop_dummy; [|done]. intros H. apply Hv'. by apply elem_further.
Qed.

(** X15.  With default levels and [drop_dummy] unset the encoding is a
    partition: every row of the returned frame has a 1 in the column of its
    own value and 0 elsewhere, so each row sums to exactly 1, and there is one
    column per distinct value. *)
Theorem X15_one_hot_rows_sum_to_one
    (e : Categorical) (table : list (string * list string)) (column : list string)
    (update_levels : bool) (st : state) :
  categorical_levels st !! name e = None ->
  levels e = None ->
  method e = "one-hot" ->
  lookup_label (name e) table = Some column -> column <> [] ->
  exists df,
    fst (extract_columns e (PDataFrame table) false update_levels st)
    = Return (Some df) /\
    labels df = map (column_name e) (sort (unique column)) /\
    length (cols df) = length (unique column) /\
    forall i v, column !! i = Some v ->
      total (row df i) = 1 /\
      row df i = map (fun l => if String.eqb v l then 1 else 0) (sort (unique column)).
Proof.
  intros Hr Hl Hm Hc Hne.
  assert (Hnd : NoDup (sort (unique column))) by apply NoDup_sort_unique.
  assert (Hin : forall v, v ∈ sort (unique column) <-> v ∈ column).
  { intros v. apply elem_of_sort_unique. }
  assert (Hlen : length (sort (unique column)) = length (unique column)).
  { by rewrite sort_Permutation. }
  assert (H1 : fst (extract_columns e (PDataFrame table) false update_levels st)
               = encode_columns e column (sort (unique column)) false false).
  { unfold extract_columns. rewrite Hc.
    rewrite (resolve_fresh e column st) by done.
    destruct update_levels; cbn [fst categorical_levels heap]; by rewrite deref_insert. }
  rewrite H1. clear H1. revert Hnd Hin Hlen.
  generalize (sort (unique column)). intros lv Hnd Hin Hlen.
  rewrite encode_columns_NoDup by done. unfold entry.
  destruct lv as [|l0 rest].
  { destruct column as [|x c]; [done|].
    assert (H : x ∈ @nil string) by (apply Hin, elem_here).
    by apply elem_of_nil in H. }
  eexists. split; [reflexivity|]. rewrite labels_indicators. split; [done|].
  split.
  { cbn [cols]. by rewrite length_map. }
  intros i v Hi. rewrite (row_indicators e column _ _ i v Hi). split; [|done].
  apply hits_one; [done|]. apply Hin. by eapply list_elem_of_lookup_2.
Qed.

(** X13, at the registry holding [A, B, C] for ["c"], on data with a value
    it has not seen. *)
Lemma X13_witness :
  exists df,
    fst (extract_columns (term_c (Some 2%positive))
           (PDataFrame [("c", ["B"; "D"])]) true false state_registered)
    = Return (Some df) /\
    heap (snd (extract_columns (term_c (Some 2%positive))
                 (PDataFrame [("c", ["B"; "D"])]) true false state_registered))
    = heap state_registered /\
    index_len df = length ["B"; "D"] /\
    labels df = map (column_name (term_c (Some 2%positive)))
                  (if true then tail ["A"; "B"; "C"] else ["A"; "B"; "C"]) /\
    forall i v, ["B"; "D"] !! i = Some v ->
      (v ∉ ["A"; "B"; "C"] -> Forall (fun x => x = 0) (row df i)) /\
      (v ∈ ["A"; "B"; "C"] -> true = false -> total (row df i) = 1).
Proof.
  apply (X13_registered_levels_fix_the_columns (term_c (Some 2%positive))
           [("c", ["B"; "D"])] ["B"; "D"] true false state_registered
           1%positive ["A"; "B"; "C"]).
  - apply lookup_singleton_eq.
  - apply lookup_insert_eq.
  - repeat (apply NoDup_cons; split;
            [intros H; repeat (apply elem_of_cons in H as [H|H]; [discriminate|]);
             by apply elem_of_nil in H|]).
    apply NoDup_nil_2.
  - discriminate.
  - reflexivity.
  - reflexivity.
Defined.

(** X14, at training data B, A, C, A and new data A, D. *)
Lemma X14_witness :
  exists df1 df2 st1,
    extract_columns (term_c None) data_baca true true state_empty
    = (Return (Some df1), st1) /\
    fst (extract_columns (term_c None) (PDataFrame [("c", ["A"; "D"])]) true false st1)
    = Return (Some df2) /\
    snd (extract_columns (term_c None) (PDataFrame [("c", ["A"; "D"])]) true false st1)
    = st1 /\
    labels df2 = labels df1 /\
    index_len df2 = length ["A"; "D"] /\
    forall i v, ["A"; "D"] !! i = Some v -> v ∉ ["B"; "A"; "C"; "A"] ->
      Forall (fun x => x = 0) (row df2 i).
Proof.
  apply (X14_learnt_levels_are_reused (term_c None)
           [("c", ["B"; "A"; "C"; "A"])] [("c", ["A"; "D"])]
           ["B"; "A"; "C"; "A"] ["A"; "D"] true false state_empty).
  - apply lookup_empty.
  - reflexivity.
  - reflexivity.
  - reflexivity.
  - reflexivity.
  - discriminate.
  - reflexivity.
Defined.

(** X15, at a column with the values B, A, C, A. *)
Lemma X15_witness :
  exists df,
    fst (extract_columns (term_c None) data_baca false true state_empty)
    = Return (Some df) /\
    labels df = map (column_name (term_c None)) (sort (unique ["B"; "A"; "C"; "A"])) /\
    length (cols df) = length (unique ["B"; "A"; "C"; "A"]) /\
    forall i v, ["B"; "A"; "C"; "A"] !! i = Some v ->
      total (row df i) = 1 /\
      row df i = map (fun l => if String.eqb v l then 1 else 0)
                   (sort (unique ["B"; "A"; "C"; "A"])).
Proof.
  apply (X15_one_hot_rows_sum_to_one (term_c None)
           [("c", ["B"; "A"; "C"; "A"])] ["B"; "A"; "C"; "A"] true state_empty).
  - apply lookup_empty.
  - reflexivity.
  - reflexivity.
  - reflexivity.
  - discriminate.
Defined.

End RegistryFacts.

(** ** The plotting methods *)

Module PlotFacts.
Import LinAlg Pandas Model Encoder Plot.
Local Open Scope R_scope.

(** *** Minimum and maximum of a sequence *)

Lemma fold_min_le l x : fold_left Rmin l x <= x.
Proof.
  revert x; induction l as [|y l IH]; intros x; simpl; [lra|].
  pose proof (IH (Rmin x y)). pose proof (Rmin_l x y). lra.
Qed.

Lemma fold_min_lower l x v : v ∈ l -> fold_left Rmin l x <= v.
Proof.
  revert x; induction l as [|y l IH]; intros x; simpl; [by intros ?%elem_of_nil|].
  intros [->|Hv]%elem_of_cons; [|by apply IH].
  pose proof (fold_min_le l (Rmin x y)). pose proof (Rmin_r x y). lra.
Qed.

Lemma fold_min_elem l x : fold_left Rmin l x ∈ x :: l.
Proof.
  revert x; induction l as [|y l IH]; intros x; simpl; [apply elem_of_cons; by left|].
  specialize (IH (Rmin x y)). apply elem_of_cons in IH as [E|Hin].
  - rewrite E. unfold Rmin. destruct (Rle_dec x y).
    + apply elem_of_cons. by left.
    + apply elem_of_cons. right. apply elem_of_cons. by left.
  - apply elem_of_cons. right. apply elem_of_cons. by right.
Qed.

Lemma fold_max_ge l x : x <= fold_left Rmax l x.
Proof.
  revert x; induction l as [|y l IH]; intros x; simpl; [lra|].
  pose proof (IH (Rmax x y)). pose proof (Rmax_l x y). lra.
Qed.

Lemma fold_max_upper l x v : v ∈ l -> v <= fold_left Rmax l x.
Proof.
  revert x; induction l as [|y l IH]; intros x; simpl; [by intros ?%elem_of_nil|].
  intros [->|Hv]%elem_of_cons; [|by apply IH].
  pose proof (fold_max_ge l (Rmax x y)). pose proof (Rmax_r x y). lra.
Qed.

Lemma fold_max_elem l x : fold_left Rmax l x ∈ x :: l.
Proof.
  revert x; induction l as [|y l IH]; intros x; simpl; [apply elem_of_cons; by left|].
  specialize (IH (Rmax x y)). apply elem_of_cons in IH as [E|Hin].
  - rewrite E. unfold Rmax. destruct (Rle_dec x y).
    + apply elem_of_cons. right. apply elem_of_cons. by left.
    + apply elem_of_cons. by left.
  - apply elem_of_cons. right. apply elem_of_cons. by right.
Qed.

(** X16.  The axis limits of [plot] and [_plot_one_quant] are
    [min - diff] and [max + diff] with [diff = 0.05 (max - min)], which is
    never negative: every value lies within them, [min(min - diff,
    min + diff)] always is its first argument and [max(max - diff,
    max + diff)] its second, so the two guards change nothing (the question
    of the [TODO] in the source).  On an empty sequence the computation
    raises [ValueError]. *)
Theorem X16_axis_limits_enclose (vals : list R) :
  match vals with
  | [] => axis_limits vals = Raise ValueError
  | _ =>
      exists mn mx,
        py_min vals = Return mn /\ py_max vals = Return mx /\
        mn ∈ vals /\ mx ∈ vals /\
        (forall v, v ∈ vals -> mn <= v <= mx) /\
        let diff := (mx - mn) * (5 / 100) in
        0 <= diff /\
        Rmin (mn - diff) (mn + diff) = mn - diff /\
        Rmax (mx - diff) (mx + diff) = mx + diff /\
        axis_limits vals = Return (mn - diff, mx + diff) /\
        (forall v, v ∈ vals -> mn - diff <= v <= mx + diff)
  end.
Proof.
  destruct vals as [|x l]; [done|].
  set (mn := fold_left Rmin l x). set (mx := fold_left Rmax l x).
  assert (Hb : forall v, v ∈ x :: l -> mn <= v <= mx).
  { intros v [->|Hv]%elem_of_cons.
    - split; [apply fold_min_le|apply fold_max_ge].
    - split; [by apply fold_min_lower|by apply fold_max_upper]. }
  assert (Hr : mn <= mx).
  { pose proof (Hb x ltac:(apply elem_of_cons; by left)). lra. }
  exists mn, mx. split; [done|]. split; [done|].
  split; [apply fold_min_elem|]. split; [apply fold_max_elem|].
  split; [done|]. cbv zeta.
  assert (Hmin : Rmin (mn - (mx - mn) * (5 / 100)) (mn + (mx - mn) * (5 / 100))
                 = mn - (mx - mn) * (5 / 100)) by (apply Rmin_left; lra).
  assert (Hmax : Rmax (mx - (mx - mn) * (5 / 100)) (mx + (mx - mn) * (5 / 100))
                 = mx + (mx - mn) * (5 / 100)) by (apply Rmax_right; lra).
  split; [lra|]. split; [exact Hmin|]. split; [exact Hmax|]. split.
  - unfold axis_limits. cbn [py_min py_max]. fold mn mx.
    rewrite Hmin, Hmax. done.
  - intros v Hv. specialize (Hb v Hv). lra.
Qed.

(** *** The rotation of the line types *)

Lemma line_types_4 k :
  line_types (4 + k) linestyles
  = match line_types k linestyles with
    | Raise e => Raise e
    | Return (used, final) => Return (cycle_base ++ used, final)
    end.
Proof.
  change (4 + k)%nat with (S (S (S (S k)))).
  cbn [line_types next_style linestyles last removelast].
  destruct (line_types k _) as [[used final]|]; reflexivity.
Qed.

Lemma line_types_cycles q r :
  line_types (4 * q + r) linestyles
  = match line_types r linestyles with
    | Raise e => Raise e
    | Return (used, final) =>
        Return (concat (replicate q cycle_base) ++ used, final)
    end.
Proof.
  induction q as [|q IH].
  - cbn [Nat.mul Nat.add replicate concat app].
    destruct (line_types r _) as [[used final]|]; reflexivity.
  - replace (4 * S q + r)%nat with (4 + (4 * q + r))%nat by lia.
    rewrite line_types_4, IH.
    destruct (line_types r _) as [[used final]|]; [|done].
    cbn [replicate concat]. by rewrite <- app_assoc.
Qed.

(** X17.  The drawing loops take their line types by rotating the list
    [':', '-.', '--', '-']: round [4 q + r] (with [r < 4]) has used [q]
    times the sequence [-, --, -., :] and then its first [r] entries, so the
    fifth level combination is drawn like the first; the rotation never runs
    out of line types, and after a multiple of four rounds the list is back in
    its initial order. *)
Theorem X17_line_types_cycle (q r : nat) :
  (r < 4)%nat ->
  exists final,
    line_types (4 * q + r) linestyles
    = Return (concat (replicate q ["-"; "--"; "-."; ":"])
              ++ take r ["-"; "--"; "-."; ":"], final) /\
    (r = 0%nat -> final = linestyles).
Proof.
  intros Hr. rewrite line_types_cycles.
  destruct r as [|[|[|[|r]]]]; try lia;
    cbn [line_types next_style linestyles last removelast take];
    eexists; (split; [reflexivity|]); try done.
Qed.

(** X17, at the sixth level combination. *)
Lemma X17_witness :
  exists final,
    line_types (4 * 1 + 2) linestyles
    = Return (concat (replicate 1 ["-"; "--"; "-."; ":"])
              ++ take 2 ["-"; "--"; "-."; ":"], final) /\
    (2%nat = 0%nat -> final = linestyles).
Proof.
  apply (X17_line_types_cycle 1 2). lia.
Defined.

End PlotFacts.
